(** * boto-ui: event dispatcher and layout caret, embedded in Rocq

    Shallow embedding of
    - the event dispatcher of [core/EventDispatcher.hpp] in its current
      revision (module [Core]) and in the earlier revision kept under
      [include/boto-ui/core/EventDispatcher.hpp] (module [Legacy]);
    - the caret arithmetic of [Target.hpp] (module [Layout]).

    Conventions.
    - C++ [int] coordinates are [Z]; signed overflow is undefined behaviour
      in C++, so the model speaks about executions in which every
      intermediate coordinate is representable.
    - [Uint32] button masks are [Z] reduced modulo [2^32].
    - [std::string] is [string]; [std::vector] is [list] in index order
      (index 0 first, [back()] last).
    - [SDL_assert] is modelled as failure ([None]): the behaviour of a debug
      build and the caller contract of a release build.  Reading an element
      of an empty or too short vector is undefined behaviour and is [None]
      as well.
    - [SDL_assert_paranoid], which SDL compiles in only at assertion level 3,
      is modelled at both levels: [popTarget] is the function without it,
      [popTarget_paranoid] the function with it.  What succeeds with the
      assertion succeeds without it, with the same result: statements that
      assume that a run succeeds are made at the default level, which has
      more runs, and statements that conclude that a release or a run
      succeeds cover both levels. *)

From Stdlib Require Import ZArith Lia Bool Ascii.
From stdpp Require Import base decidable option list strings.

Local Open Scope Z_scope.

(** ** SDL geometry *)

(** [SDL_Point], [SDL_Rect] and the two geometry primitives the dispatcher
    calls.  They belong to SDL2, not to this repository; the definitions
    follow SDL2's [SDL_rect.h] / [SDL_rect.c]. *)
Module SDL.

Record SDL_Point := Point { x : Z; y : Z }.

Record SDL_Rect := Rect { rx : Z; ry : Z; w : Z; h : Z }.

Definition SDL_PointInRect (p : SDL_Point) (r : SDL_Rect) : bool :=
  (rx r <=? x p) && (x p <? rx r + w r) && (ry r <=? y p) && (y p <? ry r + h r).

Definition SDL_RectEmpty (r : SDL_Rect) : bool :=
  (w r <=? 0) || (h r <=? 0).

(** [SDL_IntersectRect(A, B, result)]: the [SDL_bool] it returns is dropped
    by the caller, so only [result] is modelled.  SDL leaves [result->x] and
    [result->y] untouched in the empty case; the dispatcher passes [B] as
    [result], hence [B]'s origin there. *)
Definition SDL_IntersectRect (A B : SDL_Rect) : SDL_Rect :=
  if SDL_RectEmpty A || SDL_RectEmpty B then Rect (rx B) (ry B) 0 0
  else
    let xmin := Z.max (rx A) (rx B) in
    let xmax := Z.min (rx A + w A) (rx B + w B) in
    let ymin := Z.max (ry A) (ry B) in
    let ymax := Z.min (ry A + h A) (ry B + h B) in
    Rect xmin ymin (xmax - xmin) (ymax - ymin).

#[global] Instance SDL_Point_eq_dec : EqDecision SDL_Point.
Proof. solve_decision. Defined.

#[global] Instance SDL_Rect_eq_dec : EqDecision SDL_Rect.
Proof. solve_decision. Defined.

End SDL.

(** ** std::string operations used by the dispatcher *)

Module Str.

(** [s.pop_back()]; the callers guard it with [!s.empty()]. *)
Fixpoint pop_back (s : string) : string :=
  match s with
  | EmptyString => EmptyString
  | String c EmptyString => EmptyString
  | String c s' => String c (pop_back s')
  end.

(** [s.resize(n)]: truncates, or pads with NUL characters. *)
Fixpoint resize (n : nat) (s : string) : string :=
  match n with
  | O => EmptyString
  | S n' =>
      match s with
      | EmptyString => String Ascii.zero (resize n' EmptyString)
      | String c s' => String c (resize n' s')
      end
  end.

Definition empty (s : string) : bool :=
  match s with EmptyString => true | _ => false end.

End Str.

(** ** Vocabulary of the current revision *)

(** Modelled from the spec: [core/Status.hpp] is not among the sources.  The
    spec calls it a bit-flag status set; the bit values are those the earlier
    revision of the header declares ([STATUS_HOVERED = 1], [STATUS_GRABBED =
    2], [STATUS_FOCUSED = 4]). *)
Module Status.

Definition StatusFlags := Z.

Definition NONE : StatusFlags := 0.
Definition HOVERED : StatusFlags := 1.
Definition GRABBED : StatusFlags := 2.
Definition FOCUSED : StatusFlags := 4.

(** [a | b] *)
Definition or (a b : StatusFlags) : StatusFlags := Z.lor a b.

(** [flags.test(f)] *)
Definition test (s f : StatusFlags) : bool := negb (Z.land s f =? 0).

(** [flags.reset(f)] *)
Definition reset (s f : StatusFlags) : StatusFlags := Z.ldiff s f.

End Status.

Abbreviation StatusFlags := Status.StatusFlags.

(** Modelled from the spec: [core/Event.hpp] is not among the sources.  The
    enumerators are the ones the dispatcher and the input box name. *)
Module Event.

Inductive t :=
  | NONE | GRAB | ACTION | CANCEL | FOCUS_GAINED | FOCUS_LOST
  | END_LINE | SPACE | BACKSPACE | INPUT.

#[global] Instance Event_eq_dec : EqDecision t.
Proof. solve_decision. Defined.

End Event.

(** Modelled from the spec: the request tiers the sources name
    ([NONE], [HOVER], [GRAB], [FOCUS] in the dispatcher, [INPUT] in the
    input box), in increasing order. *)
Module RequestEvent.

Inductive t := NONE | HOVER | GRAB | FOCUS | INPUT.

#[global] Instance RequestEvent_eq_dec : EqDecision t.
Proof. solve_decision. Defined.

End RequestEvent.

(** Modelled from the spec: [core/Command.hpp] is not among the sources; the
    spec lists activate / enter / space / backspace / escape / none. *)
Module Command.

Inductive t := NONE | ACTION | ENTER | SPACE | BACKSPACE | ESCAPE.

#[global] Instance Command_eq_dec : EqDecision t.
Proof. solve_decision. Defined.

End Command.

(** ** The dispatcher, current revision *)

Module Core.

Import SDL.

Definition groupNameSeparator : Ascii.ascii := "/"%char.

Record EventTargetState := mkTarget {
  idLength : nat;
  rect : SDL_Rect;
  status : StatusFlags;
  event : Event.t;
}.

Record EventDispatcher := mkDispatcher {
  pointerPos : SDL_Point;
  pointerPressed : Z;
  pointerReleased : Z;
  idCurrent : string;
  hadHover : bool;
  idGrabbed : string;
  idFocus : string;
  idNextFocus : string;
  idLosingFocus : string;
  nextCommand : Command.t;
  inputBuffer : string;
  elementStack : list EventTargetState;
}.

(** A value-initialised dispatcher. *)
Definition initial : EventDispatcher :=
  mkDispatcher (Point 0 0) 0 0 "" false "" "" "" "" Command.NONE "" [].

(** *** Field updates *)

Definition set_pointerPos v d :=
  mkDispatcher v (pointerPressed d) (pointerReleased d) (idCurrent d)
    (hadHover d) (idGrabbed d) (idFocus d) (idNextFocus d) (idLosingFocus d)
    (nextCommand d) (inputBuffer d) (elementStack d).
Definition set_pointerPressed v d :=
  mkDispatcher (pointerPos d) v (pointerReleased d) (idCurrent d)
    (hadHover d) (idGrabbed d) (idFocus d) (idNextFocus d) (idLosingFocus d)
    (nextCommand d) (inputBuffer d) (elementStack d).
Definition set_pointerReleased v d :=
  mkDispatcher (pointerPos d) (pointerPressed d) v (idCurrent d)
    (hadHover d) (idGrabbed d) (idFocus d) (idNextFocus d) (idLosingFocus d)
    (nextCommand d) (inputBuffer d) (elementStack d).
Definition set_idCurrent v d :=
  mkDispatcher (pointerPos d) (pointerPressed d) (pointerReleased d) v
    (hadHover d) (idGrabbed d) (idFocus d) (idNextFocus d) (idLosingFocus d)
    (nextCommand d) (inputBuffer d) (elementStack d).
Definition set_hadHover v d :=
  mkDispatcher (pointerPos d) (pointerPressed d) (pointerReleased d)
    (idCurrent d) v (idGrabbed d) (idFocus d) (idNextFocus d)
    (idLosingFocus d) (nextCommand d) (inputBuffer d) (elementStack d).
Definition set_idGrabbed v d :=
  mkDispatcher (pointerPos d) (pointerPressed d) (pointerReleased d)
    (idCurrent d) (hadHover d) v (idFocus d) (idNextFocus d)
    (idLosingFocus d) (nextCommand d) (inputBuffer d) (elementStack d).
Definition set_idFocus v d :=
  mkDispatcher (pointerPos d) (pointerPressed d) (pointerReleased d)
    (idCurrent d) (hadHover d) (idGrabbed d) v (idNextFocus d)
    (idLosingFocus d) (nextCommand d) (inputBuffer d) (elementStack d).
Definition set_idNextFocus v d :=
  mkDispatcher (pointerPos d) (pointerPressed d) (pointerReleased d)
    (idCurrent d) (hadHover d) (idGrabbed d) (idFocus d) v
    (idLosingFocus d) (nextCommand d) (inputBuffer d) (elementStack d).
Definition set_idLosingFocus v d :=
  mkDispatcher (pointerPos d) (pointerPressed d) (pointerReleased d)
    (idCurrent d) (hadHover d) (idGrabbed d) (idFocus d) (idNextFocus d)
    v (nextCommand d) (inputBuffer d) (elementStack d).
Definition set_nextCommand v d :=
  mkDispatcher (pointerPos d) (pointerPressed d) (pointerReleased d)
    (idCurrent d) (hadHover d) (idGrabbed d) (idFocus d) (idNextFocus d)
    (idLosingFocus d) v (inputBuffer d) (elementStack d).
Definition set_inputBuffer v d :=
  mkDispatcher (pointerPos d) (pointerPressed d) (pointerReleased d)
    (idCurrent d) (hadHover d) (idGrabbed d) (idFocus d) (idNextFocus d)
    (idLosingFocus d) (nextCommand d) v (elementStack d).
Definition set_elementStack v d :=
  mkDispatcher (pointerPos d) (pointerPressed d) (pointerReleased d)
    (idCurrent d) (hadHover d) (idGrabbed d) (idFocus d) (idNextFocus d)
    (idLosingFocus d) (nextCommand d) (inputBuffer d) v.

Definition set_rect v (e : EventTargetState) :=
  mkTarget (idLength e) v (status e) (event e).
Definition set_status v (e : EventTargetState) :=
  mkTarget (idLength e) (rect e) v (event e).
Definition set_event v (e : EventTargetState) :=
  mkTarget (idLength e) (rect e) (status e) v.

(** Conversion to [Uint32]. *)
Definition to_Uint32 (z : Z) : Z := z mod 2 ^ 32.

(** *** Event triggers *)

Definition movePointer (pos : SDL_Point) (d : EventDispatcher) : EventDispatcher :=
  set_pointerPos pos d.

(** [pointerPressed |= 1 << button] *)
Definition pressPointer (button : Z) (d : EventDispatcher) : option EventDispatcher :=
  if decide (0 <= button < 32)
  then Some (set_pointerPressed
               (to_Uint32 (Z.lor (pointerPressed d) (Z.shiftl 1 button))) d)
  else None.

(** [pointerReleased |= 1 << button] *)
Definition releasePointer (button : Z) (d : EventDispatcher) : option EventDispatcher :=
  if decide (0 <= button < 32)
  then Some (set_pointerReleased
               (to_Uint32 (Z.lor (pointerReleased d) (Z.shiftl 1 button))) d)
  else None.

Definition command (cmd : Command.t) (d : EventDispatcher) : EventDispatcher :=
  set_nextCommand cmd d.

Definition input (text : string) (d : EventDispatcher) : EventDispatcher :=
  if decide (nextCommand d = Command.SPACE) then
    let d1 := set_nextCommand Command.NONE d in
    let d2 := set_inputBuffer (inputBuffer d1 +:+ " ") d1 in
    if decide (text = " ") then d2
    else set_inputBuffer (inputBuffer d2 +:+ text) d2
  else if decide (nextCommand d = Command.BACKSPACE) then
    if Str.empty (inputBuffer d) then d
    else
      let d1 := set_nextCommand Command.NONE d in
      let d2 := set_inputBuffer (Str.pop_back (inputBuffer d1)) d1 in
      set_inputBuffer (inputBuffer d2 +:+ text) d2
  else set_inputBuffer (inputBuffer d +:+ text) d.

(** *** Frame boundary *)

Definition reset (d : EventDispatcher) : option EventDispatcher :=
  match elementStack d with
  | _ :: _ => None
  | [] =>
      let d := set_hadHover false d in
      let d := set_pointerReleased 0 d in
      let d := set_pointerPressed 0 d in
      let d := if decide (idNextFocus d = idFocus d)
               then set_idNextFocus "" d else d in
      let d := if decide (idLosingFocus d = idFocus d)
               then set_idFocus "" d else set_idLosingFocus "" d in
      let d := set_nextCommand Command.NONE d in
      Some (set_inputBuffer "" d)
  end.

Definition tryFocus (qualifiedId : string) (d : EventDispatcher)
  : bool * EventDispatcher :=
  if decide (idNextFocus d ≠ "" ∧ idNextFocus d ≠ idFocus d) then (false, d)
  else
    let d := set_idNextFocus qualifiedId d in
    let d := if decide (idFocus d ≠ "")
             then set_idLosingFocus (idFocus d) d else d in
    (true, d).

(** *** Accessors *)

Definition isPointerPressed (button : Z) (d : EventDispatcher) : option bool :=
  if decide (0 <= button < 32)
  then Some ((pointerReleased d =? 0) &&
             negb (Z.land (pointerPressed d) (to_Uint32 (Z.shiftl 1 button)) =? 0))
  else None.

Definition isActive (id : string) (d : EventDispatcher) : bool :=
  bool_decide (idFocus d = id).

Definition wantsMouse (d : EventDispatcher) : bool :=
  hadHover d || negb (Str.empty (idGrabbed d)).

Definition wantsKeyboard (d : EventDispatcher) : bool :=
  negb (Str.empty (idFocus d)).

(** *** Resolution of status and event

    Every resolver has the C++ signature
    [StatusFlags f(RequestEvent req, Event& event)] and mutates the
    dispatcher; here it maps the incoming [event] and dispatcher to the
    returned flags, the outgoing [event] and the outgoing dispatcher. *)

Definition Outcome : Type := StatusFlags * Event.t * EventDispatcher.

(** [flag | f(...)] *)
Definition with_flag (flag : StatusFlags) (o : Outcome) : Outcome :=
  let '(s, e, d) := o in (Status.or flag s, e, d).

Definition checkActionCommand (event : Event.t) (d : EventDispatcher) : Outcome :=
  if decide (event ≠ Event.NONE) then
    (Status.NONE, event, set_idGrabbed "" d)
  else
    match nextCommand d with
    | Command.NONE => (Status.NONE, event, d)
    | Command.ACTION | Command.ENTER | Command.SPACE =>
        (Status.NONE, Event.ACTION, set_idGrabbed "" d)
    | _ => (Status.NONE, event, set_idGrabbed "" d)
    end.

Definition checkInputCommand (event : Event.t) (d : EventDispatcher) : Outcome :=
  match nextCommand d with
  | Command.ENTER =>
      if Str.empty (inputBuffer d) then checkActionCommand Event.END_LINE d
      else (Status.NONE, Event.NONE, d)
  | Command.SPACE =>
      if Str.empty (inputBuffer d) then checkActionCommand Event.SPACE d
      else checkActionCommand Event.INPUT
             (set_inputBuffer (inputBuffer d +:+ " ") d)
  | Command.BACKSPACE =>
      if Str.empty (inputBuffer d) then checkActionCommand Event.BACKSPACE d
      else checkActionCommand Event.INPUT
             (set_inputBuffer (Str.pop_back (inputBuffer d)) d)
  | Command.ESCAPE => checkActionCommand Event.CANCEL d
  | _ =>
      if negb (Str.empty (inputBuffer d)) then checkActionCommand Event.INPUT d
      else checkActionCommand event d
  end.

Definition checkFocusCommand (req : RequestEvent.t) (event : Event.t)
    (d : EventDispatcher) : Outcome :=
  if decide (req = RequestEvent.FOCUS) then checkActionCommand event d
  else checkInputCommand event d.

Definition checkFocus (req : RequestEvent.t) (event : Event.t)
    (d : EventDispatcher) : Outcome :=
  if decide (idFocus d = idCurrent d) then
    if decide (idLosingFocus d = idCurrent d) then (Status.FOCUSED, event, d)
    else
      with_flag Status.FOCUSED
        (checkFocusCommand req event (set_idNextFocus (idCurrent d) d))
  else if decide (idLosingFocus d = idCurrent d) then
    (Status.NONE, Event.FOCUS_LOST, d)
  else if decide (idNextFocus d = idCurrent d) then
    (Status.FOCUSED, Event.FOCUS_GAINED, set_idFocus (idCurrent d) d)
  else (Status.NONE, event, d).

Definition gainFocus (req : RequestEvent.t) (event : Event.t)
    (d : EventDispatcher) : Outcome :=
  if decide (idFocus d = idCurrent d ∨ idNextFocus d = idCurrent d) then
    checkFocus req event d
  else
    (* the part after the [if (!idNextFocus.empty())] block *)
    let claim (d : EventDispatcher) : Outcome :=
      let d := set_idNextFocus (idCurrent d) d in
      if decide (event ≠ Event.NONE ∨ idLosingFocus d ≠ "" ∨
                 (idFocus d ≠ "" ∧ idFocus d = idGrabbed d)) then
        (Status.NONE, event, d)
      else
        let d := set_idLosingFocus (idFocus d) d in
        let d := set_idFocus (idCurrent d) d in
        (Status.FOCUSED, Event.FOCUS_GAINED, d) in
    if decide (idNextFocus d ≠ "") then
      match last (elementStack d) with
      | None => (Status.NONE, event, d)
      | Some superElement =>
          if negb (Status.test (status superElement) Status.FOCUSED) then
            (Status.NONE, event, d)
          else if decide (Core.event superElement ≠ Event.NONE ∧
                          Core.event superElement ≠ Event.FOCUS_GAINED) then
            (Status.NONE, event,
             set_idLosingFocus (idFocus d) (set_idNextFocus (idCurrent d) d))
          else claim d
      end
    else claim d.

Definition loseFocus (req : RequestEvent.t) (event : Event.t)
    (d : EventDispatcher) : Outcome :=
  if decide (idFocus d ≠ idCurrent d) then checkFocus req event d
  else if decide (event = Event.NONE) then
    (Status.NONE, Event.FOCUS_LOST, set_idFocus "" d)
  else checkFocus req event (set_idLosingFocus (idCurrent d) d).

Definition checkGrabCommand (req : RequestEvent.t) (event : Event.t)
    (d : EventDispatcher) : Outcome :=
  let event := if decide (nextCommand d = Command.ESCAPE)
               then Event.CANCEL else event in
  if decide (req = RequestEvent.GRAB) then checkActionCommand event d
  else checkFocus req event d.

Definition checkGrabOver (req : RequestEvent.t) (event : Event.t)
    (d : EventDispatcher) : Outcome :=
  if decide (pointerReleased d ≠ 0) then
    if decide (idGrabbed d = idCurrent d)
    then checkFocus req Event.ACTION (set_idGrabbed "" d)
    else checkFocus req event d
  else if decide (pointerPressed d ≠ 1) then
    if decide (idGrabbed d ≠ idCurrent d) then
      if decide (req = RequestEvent.GRAB) then (Status.NONE, event, d)
      else gainFocus req event d
    else if decide (pointerPressed d = 0) then
      with_flag Status.GRABBED (checkGrabCommand req event d)
    else checkFocus req Event.CANCEL (set_idGrabbed "" d)
  else
    let d := set_idGrabbed (idCurrent d) d in
    if decide (req = RequestEvent.GRAB) then (Status.GRABBED, Event.GRAB, d)
    else with_flag Status.GRABBED (gainFocus req Event.GRAB d).

Definition checkGrabOut (req : RequestEvent.t) (event : Event.t)
    (d : EventDispatcher) : Outcome :=
  if decide (idGrabbed d ≠ idCurrent d) then
    if decide (pointerPressed d = 0) then checkFocus req event d
    else loseFocus req event d
  else if decide (pointerReleased d = 0 ∧ pointerPressed d = 0) then
    with_flag Status.GRABBED (checkFocus req event d)
  else
    let d := set_idGrabbed "" d in
    if decide (req = RequestEvent.GRAB ∨ idFocus d ≠ idCurrent d) then
      (Status.NONE, Event.CANCEL, d)
    else if decide (pointerPressed d ≠ 0) then loseFocus req Event.CANCEL d
    else checkFocus req Event.CANCEL d.

(** The hover test at the head of [checkHover]. *)
Definition hoverable (rect : SDL_Rect) (d : EventDispatcher) : bool :=
  negb (hadHover d) &&
  match last (elementStack d) with
  | None => true
  | Some parent => Status.test (status parent) Status.HOVERED
  end &&
  SDL_PointInRect (pointerPos d) rect.

Definition checkHover (req : RequestEvent.t) (rect : SDL_Rect)
    (event : Event.t) (d : EventDispatcher) : Outcome :=
  if negb (hoverable rect d) then
    if decide (req = RequestEvent.HOVER) then (Status.NONE, event, d)
    else checkGrabOut req event d
  else if decide (req = RequestEvent.HOVER) then (Status.HOVERED, event, d)
  else with_flag Status.HOVERED (checkGrabOver req event d).

(** [check] returns the handle's index together with the new dispatcher. *)
Definition check (req : RequestEvent.t) (rect : SDL_Rect) (id : string)
    (d : EventDispatcher) : option (nat * EventDispatcher) :=
  let d := match elementStack d with
           | [] => set_idCurrent id d
           | _ => set_idCurrent
                    (idCurrent d +:+ String groupNameSeparator "" +:+ id) d
           end in
  if decide (req = RequestEvent.NONE) then
    let st := elementStack d ++
              [mkTarget (String.length id) rect Status.NONE Event.NONE] in
    Some ((length st - 1)%nat, set_elementStack st d)
  else if decide (id = "" ∧ req ≠ RequestEvent.HOVER) then None
  else
    let '(s, e, d) := checkHover req rect Event.NONE d in
    let st := elementStack d ++ [mkTarget (String.length id) rect s e] in
    Some ((length st - 1)%nat, set_elementStack st d).

(** Replace the last element of a non-empty vector. *)
Definition set_back (e : EventTargetState) (st : list EventTargetState) :=
  <[ (length st - 1)%nat := e ]> st.

Definition popTarget (d : EventDispatcher) : option EventDispatcher :=
  match last (elementStack d) with
  | None => None
  | Some element =>
      let d := set_elementStack (removelast (elementStack d)) d in
      let d := if Status.test (status element) Status.HOVERED
               then set_hadHover true d else d in
      match last (elementStack d) with
      | None => Some (set_idCurrent "" d)
      | Some superElement =>
          let sz := (idLength element + 1)%nat in
          (* [SDL_assert_paranoid] is compiled out at the default assertion
             level; below [sz] the unsigned [size() - sz] wraps around and
             [resize] throws *)
          if decide (String.length (idCurrent d) < sz)%nat then None
          else
            let d := set_idCurrent
                       (Str.resize (String.length (idCurrent d) - sz)
                          (idCurrent d)) d in
            let hadGrab := Status.test (status element) Status.GRABBED in
            let hadFocus := Status.test (status element) Status.FOCUSED in
            if negb hadGrab && negb hadFocus then Some d
            else
              let superElement :=
                if hadGrab then
                  let s := set_status
                             (Status.reset (status superElement) Status.GRABBED)
                             superElement in
                  if decide (event s = Event.GRAB)
                  then set_event Event.NONE s else s
                else superElement in
              let superElement :=
                if hadFocus then
                  let s := set_status
                             (Status.reset (status superElement) Status.FOCUSED)
                             superElement in
                  if decide (event s = Event.FOCUS_GAINED)
                  then set_event Event.NONE s
                  else set_event Event.FOCUS_LOST s
                else superElement in
              Some (set_elementStack
                      (set_back superElement (elementStack d)) d)
      end
  end.

(** [popTarget] at assertion level 3: the same function with
    [SDL_assert_paranoid(idCurrent.size() > sz)] compiled in. *)
Definition popTarget_paranoid (d : EventDispatcher) : option EventDispatcher :=
  match last (elementStack d) with
  | None => None
  | Some element =>
      let d := set_elementStack (removelast (elementStack d)) d in
      let d := if Status.test (status element) Status.HOVERED
               then set_hadHover true d else d in
      match last (elementStack d) with
      | None => Some (set_idCurrent "" d)
      | Some superElement =>
          let sz := (idLength element + 1)%nat in
          if decide (String.length (idCurrent d) ≤ sz)%nat then None
          else
            let d := set_idCurrent
                       (Str.resize (String.length (idCurrent d) - sz)
                          (idCurrent d)) d in
            let hadGrab := Status.test (status element) Status.GRABBED in
            let hadFocus := Status.test (status element) Status.FOCUSED in
            if negb hadGrab && negb hadFocus then Some d
            else
              let superElement :=
                if hadGrab then
                  let s := set_status
                             (Status.reset (status superElement) Status.GRABBED)
                             superElement in
                  if decide (event s = Event.GRAB)
                  then set_event Event.NONE s else s
                else superElement in
              let superElement :=
                if hadFocus then
                  let s := set_status
                             (Status.reset (status superElement) Status.FOCUSED)
                             superElement in
                  if decide (event s = Event.FOCUS_GAINED)
                  then set_event Event.NONE s
                  else set_event Event.FOCUS_LOST s
                else superElement in
              Some (set_elementStack
                      (set_back superElement (elementStack d)) d)
      end
  end.

(** *** Operations of an [EventTarget] handle on [elementStack[index]] *)

Definition discard_state (elState : EventTargetState) : EventTargetState :=
  if negb (Status.test (status elState) Status.GRABBED) then
    set_status (Status.reset (status elState) Status.HOVERED) elState
  else if decide (event elState = Event.GRAB) then
    set_event Event.NONE
      (set_status
         (Status.reset (status elState)
            (Status.or Status.HOVERED Status.GRABBED)) elState)
  else elState.

Definition discard (index : nat) (d : EventDispatcher) : option EventDispatcher :=
  match elementStack d !! index with
  | None => None
  | Some elState =>
      Some (set_elementStack
              (<[ index := discard_state elState ]> (elementStack d)) d)
  end.

Definition shrinkWidth (index : nat) (w' : Z) (d : EventDispatcher)
  : option EventDispatcher :=
  match elementStack d !! index with
  | None => None
  | Some elState =>
      let r := rect elState in
      let r := Rect (rx r) (ry r) w' (h r) in
      let d := set_elementStack
                 (<[ index := set_rect r elState ]> (elementStack d)) d in
      if decide (x (pointerPos d) - rx r >= w') then discard index d
      else Some d
  end.

Definition shrinkHeight (index : nat) (h' : Z) (d : EventDispatcher)
  : option EventDispatcher :=
  match elementStack d !! index with
  | None => None
  | Some elState =>
      let r := rect elState in
      let r := Rect (rx r) (ry r) (w r) h' in
      let d := set_elementStack
                 (<[ index := set_rect r elState ]> (elementStack d)) d in
      if decide (y (pointerPos d) - ry r >= h') then discard index d
      else Some d
  end.

Definition shrink (index : nat) (w' h' : Z) (d : EventDispatcher)
  : option EventDispatcher :=
  match elementStack d !! index with
  | None => None
  | Some elState =>
      let r := rect elState in
      let r := Rect (rx r) (ry r) w' h' in
      let d := set_elementStack
                 (<[ index := set_rect r elState ]> (elementStack d)) d in
      if decide (y (pointerPos d) - ry r >= h') then discard index d
      else Some d
  end.

(** *** Call sequences

    The public calls of the dispatcher and of its handles, and the effect of
    a sequence of calls.  A sequence that trips an assertion has no final
    state. *)

Inductive Call :=
  | MovePointer (pos : SDL_Point)
  | PressPointer (button : Z)
  | ReleasePointer (button : Z)
  | SetCommand (cmd : Command.t)
  | Input (text : string)
  | Reset
  | TryFocus (qualifiedId : string)
  | Check (req : RequestEvent.t) (rect : SDL_Rect) (id : string)
  | PopTarget
  | ShrinkWidth (index : nat) (w : Z)
  | ShrinkHeight (index : nat) (h : Z)
  | Shrink (index : nat) (w h : Z)
  | Discard (index : nat).

Definition call (c : Call) (d : EventDispatcher) : option EventDispatcher :=
  match c with
  | MovePointer pos => Some (movePointer pos d)
  | PressPointer button => pressPointer button d
  | ReleasePointer button => releasePointer button d
  | SetCommand cmd => Some (command cmd d)
  | Input text => Some (input text d)
  | Reset => reset d
  | TryFocus qualifiedId => Some (snd (tryFocus qualifiedId d))
  | Check req rect id => snd <$> check req rect id d
  | PopTarget => popTarget d
  | ShrinkWidth index w => shrinkWidth index w d
  | ShrinkHeight index h => shrinkHeight index h d
  | Shrink index w h => shrink index w h d
  | Discard index => discard index d
  end.

Fixpoint run (cs : list Call) (d : EventDispatcher) : option EventDispatcher :=
  match cs with
  | [] => Some d
  | c :: cs =>
      match call c d with
      | Some d' => run cs d'
      | None => None
      end
  end.

(** The same calls at a given assertion level: [paranoid] is [true] at
    level 3, where [SDL_assert_paranoid] is compiled in. *)
Definition call_at (paranoid : bool) (c : Call) (d : EventDispatcher)
    : option EventDispatcher :=
  match c with
  | PopTarget => if paranoid then popTarget_paranoid d else popTarget d
  | _ => call c d
  end.

Fixpoint run_at (paranoid : bool) (cs : list Call) (d : EventDispatcher)
    : option EventDispatcher :=
  match cs with
  | [] => Some d
  | c :: cs =>
      match call_at paranoid c d with
      | Some d' => run_at paranoid cs d'
      | None => None
      end
  end.

(** The calls made between two frame boundaries, after the triggers:
    [check] and the release of its handle, focus requests, and the handle
    operations. *)
Definition in_frame (c : Call) : bool :=
  match c with
  | Check _ _ _ | PopTarget | TryFocus _
  | ShrinkWidth _ _ | ShrinkHeight _ _ | Shrink _ _ _ | Discard _ => true
  | _ => false
  end.

End Core.

(** ** The dispatcher, earlier revision
    ([include/boto-ui/core/EventDispatcher.hpp]) *)

Module Legacy.

Import SDL.

Definition STATUS_NONE : Z := 0.
Definition STATUS_HOVERED : Z := 1.
Definition STATUS_GRABBED : Z := 2.
Definition STATUS_FOCUSED : Z := 4.
Definition STATUS_INPUTING : Z := 8.

Module Event.

Inductive t := NONE | GRAB | ACTION | CANCEL | FOCUS_GAINED.

#[global] Instance LegacyEvent_eq_dec : EqDecision t.
Proof. solve_decision. Defined.

End Event.

Module RequestEvent.

Inductive t := NONE | HOVER | ACTION | FOCUS.

#[global] Instance LegacyRequestEvent_eq_dec : EqDecision t.
Proof. solve_decision. Defined.

End RequestEvent.

Record EventTargetState := mkTarget {
  rect : SDL_Rect;
  status : Z;
  event : Event.t;
}.

Record EventDispatcher := mkDispatcher {
  pointerPos : SDL_Point;
  pointerPressed : Z;
  pointerReleased : Z;
  hadHover : bool;
  idGrabbed : string;
  idFocus : string;
  idNextFocus : string;
  elementStack : list EventTargetState;
}.

Definition initial : EventDispatcher :=
  mkDispatcher (Point 0 0) 0 0 false "" "" "" [].

Definition set_pointerPos v d :=
  mkDispatcher v (pointerPressed d) (pointerReleased d) (hadHover d)
    (idGrabbed d) (idFocus d) (idNextFocus d) (elementStack d).
Definition set_pointerPressed v d :=
  mkDispatcher (pointerPos d) v (pointerReleased d) (hadHover d)
    (idGrabbed d) (idFocus d) (idNextFocus d) (elementStack d).
Definition set_pointerReleased v d :=
  mkDispatcher (pointerPos d) (pointerPressed d) v (hadHover d)
    (idGrabbed d) (idFocus d) (idNextFocus d) (elementStack d).
Definition set_hadHover v d :=
  mkDispatcher (pointerPos d) (pointerPressed d) (pointerReleased d) v
    (idGrabbed d) (idFocus d) (idNextFocus d) (elementStack d).
Definition set_idGrabbed v d :=
  mkDispatcher (pointerPos d) (pointerPressed d) (pointerReleased d)
    (hadHover d) v (idFocus d) (idNextFocus d) (elementStack d).
Definition set_idFocus v d :=
  mkDispatcher (pointerPos d) (pointerPressed d) (pointerReleased d)
    (hadHover d) (idGrabbed d) v (idNextFocus d) (elementStack d).
Definition set_idNextFocus v d :=
  mkDispatcher (pointerPos d) (pointerPressed d) (pointerReleased d)
    (hadHover d) (idGrabbed d) (idFocus d) v (elementStack d).
Definition set_elementStack v d :=
  mkDispatcher (pointerPos d) (pointerPressed d) (pointerReleased d)
    (hadHover d) (idGrabbed d) (idFocus d) (idNextFocus d) v.

Definition to_Uint32 (z : Z) : Z := z mod 2 ^ 32.
Definition to_uint16 (z : Z) : Z := z mod 2 ^ 16.

Definition movePointer (pos : SDL_Point) (d : EventDispatcher) : EventDispatcher :=
  set_pointerPos pos d.

(** [pointerPressed |= 1 << button] *)
Definition pressPointer (button : Z) (d : EventDispatcher) : option EventDispatcher :=
  if decide (0 <= button < 32)
  then Some (set_pointerPressed
               (to_Uint32 (Z.lor (pointerPressed d) (Z.shiftl 1 button))) d)
  else None.

(** [pointerReleased = ~1 << button]: [~1] is the [int] -2, shifted and
    then converted to [Uint32]. *)
Definition releasePointer (button : Z) (d : EventDispatcher) : option EventDispatcher :=
  if decide (0 <= button < 32)
  then Some (set_pointerReleased (to_Uint32 (Z.shiftl (Z.lnot 1) button)) d)
  else None.

Definition reset (d : EventDispatcher) : EventDispatcher :=
  set_pointerPressed 0 (set_pointerReleased 0 (set_hadHover false d)).

Definition isPointerPressed (button : Z) (d : EventDispatcher) : option bool :=
  if decide (0 <= button < 32)
  then Some ((pointerReleased d =? 0) &&
             (pointerPressed d =? to_Uint32 (Z.shiftl 1 button)))
  else None.

Definition Outcome : Type := Z * Event.t * EventDispatcher.

Definition with_flag (flag : Z) (o : Outcome) : Outcome :=
  let '(s, e, d) := o in (Z.lor flag s, e, d).

Definition checkFocus (req : RequestEvent.t) (id : string) (event : Event.t)
    (d : EventDispatcher) : Outcome :=
  if decide (idFocus d = id) then (STATUS_FOCUSED, event, d)
  else if decide (idNextFocus d = id) then
    (STATUS_FOCUSED, Event.FOCUS_GAINED, set_idFocus id d)
  else (STATUS_NONE, event, d).

Definition gainFocus (req : RequestEvent.t) (id : string) (event : Event.t)
    (d : EventDispatcher) : Outcome :=
  if decide (idFocus d = id ∨ idNextFocus d = id) then checkFocus req id event d
  else if Str.empty (idNextFocus d) then
    (STATUS_NONE, event, set_idNextFocus id d)
  else (STATUS_NONE, event, d).

Definition checkGrabOver (req : RequestEvent.t) (id : string) (event : Event.t)
    (d : EventDispatcher) : Outcome :=
  if decide (pointerReleased d ≠ 0) then
    if decide (idGrabbed d = id)
    then checkFocus req id Event.ACTION (set_idGrabbed "" d)
    else checkFocus req id event d
  else if decide (pointerPressed d ≠ 1) then
    if decide (idGrabbed d ≠ id) then
      if decide (req = RequestEvent.ACTION) then (STATUS_NONE, event, d)
      else gainFocus req id event d
    else if decide (pointerPressed d = 0) then
      with_flag STATUS_GRABBED (checkFocus req id event d)
    else checkFocus req id Event.CANCEL (set_idGrabbed "" d)
  else
    let d := set_idGrabbed id d in
    if decide (req = RequestEvent.ACTION) then (STATUS_GRABBED, Event.GRAB, d)
    else with_flag STATUS_GRABBED (gainFocus req id Event.GRAB d).

Definition checkGrabOut (req : RequestEvent.t) (id : string) (event : Event.t)
    (d : EventDispatcher) : Outcome :=
  if decide (idGrabbed d ≠ id) then checkFocus req id event d
  else if decide (pointerReleased d = 0 ∧ pointerPressed d = 0) then
    with_flag STATUS_GRABBED (checkFocus req id event d)
  else
    let d := set_idGrabbed "" d in
    (if decide (idFocus d = id) then STATUS_FOCUSED else STATUS_NONE,
     Event.CANCEL, d).

Definition checkHover (req : RequestEvent.t) (rect : SDL_Rect) (id : string)
    (event : Event.t) (d : EventDispatcher) : Outcome :=
  if hadHover d || negb (SDL_PointInRect (pointerPos d) rect) then
    if decide (req = RequestEvent.HOVER) then (STATUS_NONE, event, d)
    else checkGrabOut req id event d
  else if decide (req = RequestEvent.HOVER) then (STATUS_HOVERED, event, d)
  else with_flag STATUS_HOVERED (checkGrabOver req id event d).

Definition check (req : RequestEvent.t) (rect : SDL_Rect) (id : string)
    (d : EventDispatcher) : nat * EventDispatcher :=
  let rect := match last (elementStack d) with
              | Some parent => SDL_IntersectRect (Legacy.rect parent) rect
              | None => rect
              end in
  let '(status, event, d) :=
    if decide (req = RequestEvent.NONE) then (STATUS_NONE, Event.NONE, d)
    else checkHover req rect id Event.NONE d in
  let index := length (elementStack d) in
  (index, set_elementStack (elementStack d ++ [mkTarget rect status event]) d).

Definition popTarget (d : EventDispatcher) : option EventDispatcher :=
  match last (elementStack d) with
  | None => None
  | Some element =>
      let d := if negb (Z.land (status element) STATUS_HOVERED =? 0)
               then set_hadHover true d else d in
      Some (set_elementStack (removelast (elementStack d)) d)
  end.

(** [EventTarget::discard(flags)]: [state().status &= ~flags] *)
Definition discard (index : nat) (flags : Z) (d : EventDispatcher)
  : option EventDispatcher :=
  match elementStack d !! index with
  | None => None
  | Some elState =>
      let elState :=
        mkTarget (rect elState)
          (to_uint16 (Z.land (status elState) (Z.lnot flags)))
          (event elState) in
      Some (set_elementStack (<[ index := elState ]> (elementStack d)) d)
  end.

(** *** Call sequences of the earlier revision *)

Inductive Call :=
  | MovePointer (pos : SDL_Point)
  | PressPointer (button : Z)
  | ReleasePointer (button : Z)
  | Reset
  | Check (req : RequestEvent.t) (rect : SDL_Rect) (id : string)
  | PopTarget
  | Discard (index : nat) (flags : Z).

Definition call (c : Call) (d : EventDispatcher) : option EventDispatcher :=
  match c with
  | MovePointer pos => Some (movePointer pos d)
  | PressPointer button => pressPointer button d
  | ReleasePointer button => releasePointer button d
  | Reset => Some (reset d)
  | Check req rect id => Some (snd (check req rect id d))
  | PopTarget => popTarget d
  | Discard index flags => discard index flags d
  end.

Fixpoint run (cs : list Call) (d : EventDispatcher) : option EventDispatcher :=
  match cs with
  | [] => Some d
  | c :: cs =>
      match call c d with
      | Some d' => run cs d'
      | None => None
      end
  end.

End Legacy.

(** ** Caret arithmetic of a container level ([Target.hpp]) *)

Module Layout.

Import SDL.

(** Modelled from the spec: the [Layout] enumeration and [TargetStyle] are
    declared in headers that are not among the sources; [Target] uses the
    three policies and the fields [layout] and [elementSpacing]. *)
Inductive Layout := VERTICAL | HORIZONTAL | NONE.

#[global] Instance Layout_eq_dec : EqDecision Layout.
Proof. solve_decision. Defined.

Record TargetStyle := mkStyle {
  layout : Layout;
  elementSpacing : Z;
}.

Definition makeLen (len delta : Z) (autoPos : bool) (elementSpacing : Z) : Z :=
  if decide (len = 0) then
    let len := delta in
    if autoPos && bool_decide (len >= elementSpacing)
    then len - elementSpacing else len
  else len.

(** The pointees of a [Target]: the level's rectangle, caret origin, running
    extent and lock flag, and its style. *)
Record Target := mkTargetLevel {
  rect : SDL_Rect;
  topLeft : SDL_Point;
  bottomRight : SDL_Point;
  locked : bool;
  style : TargetStyle;
}.

Definition set_bottomRight v (t : Target) :=
  mkTargetLevel (rect t) (topLeft t) v (locked t) (style t).

Definition getCaret (t : Target) : SDL_Point :=
  match layout (style t) with
  | VERTICAL => Point (x (topLeft t)) (y (bottomRight t))
  | HORIZONTAL => Point (x (bottomRight t)) (y (topLeft t))
  | NONE => topLeft t
  end.

Definition contentWidth (t : Target) : Z := x (bottomRight t) - x (topLeft t).
Definition contentHeight (t : Target) : Z := y (bottomRight t) - y (topLeft t).

Definition width (t : Target) : Z :=
  makeLen (w (rect t)) (x (bottomRight t) - x (topLeft t))
    (bool_decide (layout (style t) = HORIZONTAL)) (elementSpacing (style t)).

Definition height (t : Target) : Z :=
  makeLen (h (rect t)) (y (bottomRight t) - y (topLeft t))
    (bool_decide (layout (style t) = VERTICAL)) (elementSpacing (style t)).

Definition size (t : Target) : SDL_Point := Point (width t) (height t).

Definition advance (p : SDL_Point) (t : Target) : option Target :=
  if locked t then None
  else
    let br := bottomRight t in
    let tl := topLeft t in
    let sp := elementSpacing (style t) in
    Some (set_bottomRight
            match layout (style t) with
            | VERTICAL => Point (Z.max (x p + x tl) (x br)) (y br + (y p + sp))
            | HORIZONTAL => Point (x br + (x p + sp)) (Z.max (y p + y tl) (y br))
            | NONE => Point (Z.max (x p + x tl) (x br)) (Z.max (y p + y tl) (y br))
            end t).

(** The [advance] calls a level receives for its elements, in order. *)
Fixpoint advance_all (ps : list SDL_Point) (t : Target) : option Target :=
  match ps with
  | [] => Some t
  | p :: ps =>
      match advance p t with
      | Some t' => advance_all ps t'
      | None => None
      end
  end.

End Layout.


(** ** Notions used in the statements *)

Module Notions.

Import SDL Core.

(** The qualified id [check] builds for [id]. *)
Definition qualified (id : string) (d : EventDispatcher) : string :=
  match elementStack d with
  | [] => id
  | _ => idCurrent d +:+ String groupNameSeparator "" +:+ id
  end.

(** The element is not a party to the focus protocol. *)
Definition focus_neutral (q : string) (d : EventDispatcher) : Prop :=
  idFocus d ≠ q ∧ idNextFocus d ≠ q ∧ idLosingFocus d ≠ q.

(** What the resolvers of [check] never touch: the stack, the accumulated
    id, the pointer state, the hover latch and the pending command. *)
Definition stable (d d' : EventDispatcher) : Prop :=
  elementStack d' = elementStack d ∧
  idCurrent d' = idCurrent d ∧
  pointerPos d' = pointerPos d ∧
  pointerPressed d' = pointerPressed d ∧
  pointerReleased d' = pointerReleased d ∧
  hadHover d' = hadHover d ∧
  nextCommand d' = nextCommand d.

(** Two frames: "a" is focused in the first, "b" asks for focus in the
    second. *)
Definition c7_frames : list Call :=
  [ TryFocus "a"; Check RequestEvent.FOCUS (Rect 0 0 10 10) "a"; PopTarget;
    Reset;
    TryFocus "b" ].

(** Rectangle [r] lies inside rectangle [p]: every point of [r] is a point
    of [p]. *)
Definition within (r p : SDL_Rect) : Prop :=
  ∀ pt, SDL_PointInRect pt r = true → SDL_PointInRect pt p = true.

(** Every entry of a stack of the earlier revision lies inside the entry
    below it. *)
Definition clipped (st : list Legacy.EventTargetState) : Prop :=
  ∀ i p c, st !! i = Some p → st !! S i = Some c →
           within (Legacy.rect c) (Legacy.rect p).

(** A parent at {0,0,10,10} and a child that sticks out of it. *)
Definition c5_nested : list Call :=
  [ Check RequestEvent.HOVER (Rect 0 0 10 10) "p";
    Check RequestEvent.HOVER (Rect 5 5 20 20) "c" ].

(** No fresh press of exactly the primary button is in progress. *)
Definition no_fresh_press (d : EventDispatcher) : Prop :=
  ¬ (pointerPressed d = 1 ∧ pointerReleased d = 0).

(** The grabbed id is what it was, or has been cleared. *)
Definition grab_kept (d d' : EventDispatcher) : Prop :=
  idGrabbed d' = idGrabbed d ∨ idGrabbed d' = "".

(** The resolvers below grab level never return [GRABBED] and never set the
    grabbed id. *)
Definition below_grab (d : EventDispatcher) (o : Outcome) : Prop :=
  Status.test o.1.1 Status.GRABBED = false ∧ grab_kept d o.2.

(** At most one entry of a stack carries the flag [f]. *)
Definition at_most_one (f : StatusFlags) (st : list EventTargetState) : Prop :=
  ∀ i j ei ej,
    st !! i = Some ei → st !! j = Some ej →
    Status.test (status ei) f = true → Status.test (status ej) f = true →
    i = j.

(** Length of the qualified id of the top entry, plus one: every open level
    contributes its local id and one separator. *)
Definition pathlen (st : list EventTargetState) : nat :=
  sum_list_with (λ e, S (idLength e)) st.

(** The grabbed id [g] is no longer than the qualified id of any entry that
    carries [GRABBED]. *)
Definition grab_bounded (g : string) (st : list EventTargetState) : Prop :=
  ∀ k e,
    st !! k = Some e →
    Status.test (status e) Status.GRABBED = true →
    (String.length g < pathlen (take (S k) st))%nat.

(** Entry [a] is entry [b] with some flags possibly cleared. *)
Definition weaker_entry (a b : EventTargetState) : Prop :=
  idLength a = idLength b ∧
  ∀ f, Status.test (status a) f = true → Status.test (status b) f = true.

(** What holds at every instant of a frame without a fresh press. *)
Record frame_inv (d : EventDispatcher) : Prop := mkFrameInv {
  inv_mask : no_fresh_press d;
  inv_path : elementStack d ≠ [] →
             S (String.length (idCurrent d)) = pathlen (elementStack d);
  inv_bound : grab_bounded (idGrabbed d) (elementStack d);
  inv_one : at_most_one Status.GRABBED (elementStack d);
}.

(** A panel and the button in it, checked while the button is held. *)
Definition c2_held_nested : list Call :=
  [ Check RequestEvent.GRAB (Rect 0 0 10 10) "panel";
    Check RequestEvent.GRAB (Rect 0 0 10 10) "btn" ].

(** A press of the primary button over a parent and its child. *)
Definition c2_nested_press : list Call :=
  [ MovePointer (Point 5 5); PressPointer 0;
    Check RequestEvent.GRAB (Rect 0 0 10 10) "p";
    Check RequestEvent.GRAB (Rect 0 0 10 10) "c" ].

(** "p" is focused in the first frame; in the second its child "p/c" has
    asked for focus. *)
Definition c2_nested_focus : list Call :=
  [ TryFocus "p"; Check RequestEvent.FOCUS (Rect 0 0 10 10) "p"; PopTarget;
    Reset;
    TryFocus "p/c";
    Check RequestEvent.FOCUS (Rect 0 0 10 10) "p";
    Check RequestEvent.FOCUS (Rect 0 0 10 10) "c" ].

(** The enclosing open element, if there is one, is not [FOCUSED]. *)
Definition parent_not_focused (d : EventDispatcher) : Prop :=
  match last (elementStack d) with
  | Some parent => Status.test (status parent) Status.FOCUSED = false
  | None => True
  end.

(** A dispatcher in which [tryFocus] has recorded somebody else's claim and
    the current element is not the focused one. *)
Definition outbid (d : EventDispatcher) : Prop :=
  idFocus d ≠ idCurrent d ∧ idNextFocus d ≠ idCurrent d ∧
  idNextFocus d ≠ "" ∧ parent_not_focused d.

(** One frame in which "a" asks for focus and receives it. *)
Definition c3_focus_a : list Call :=
  [ TryFocus "a"; Check RequestEvent.FOCUS (Rect 0 0 10 10) "a"; PopTarget;
    Reset ].





(** The outcome [o] of a check keeps [FOCUSED] and carries the event and
    the dispatcher that [checkInputCommand] produces from the pending command
    and input buffer of [d], for some event handed over by the grab stage. *)
Definition input_resolved (d : EventDispatcher) (o : Outcome) : Prop :=
  Status.test o.1.1 Status.FOCUSED = true ∧
  ∃ ev0 dx,
    nextCommand dx = nextCommand d ∧ inputBuffer dx = inputBuffer d ∧
    o.1.2 = (checkInputCommand ev0 dx).1.2 ∧
    o.2 = (checkInputCommand ev0 dx).2.

(** One frame in which the text box "box" asks for focus and receives
    it. *)
Definition c4_box_focused : list Call :=
  [ TryFocus "box"; Check RequestEvent.INPUT (Rect 0 0 10 10) "box";
    PopTarget; Reset ].

(** Then "other" asks for focus, which marks "box" as losing it, and
    Escape is pending. *)
Definition c4_losing_escape : list Call :=
  c4_box_focused ++ [ TryFocus "other"; SetCommand Command.ESCAPE ].

(** Or a button is pressed away from "box" while Escape is pending. *)
Definition c4_press_outside : list Call :=
  c4_box_focused ++
  [ MovePointer (Point 50 50); PressPointer 0; SetCommand Command.ESCAPE ].

End Notions.

Import Notions.

(** ** Further notions: hover, focus and call discipline *)

Module FrameNotions.

Import SDL Core.

(** No entry of the stack is [HOVERED]. *)
Definition no_hover (st : list EventTargetState) : Prop :=
  ∀ i e, st !! i = Some e → Status.test (status e) Status.HOVERED = false.

(** Every [HOVERED] entry contains the pointer, and the entry below a
    [HOVERED] entry is [HOVERED] too. *)
Definition hover_sound (d : EventDispatcher) : Prop :=
  (∀ i e, elementStack d !! i = Some e →
          Status.test (status e) Status.HOVERED = true →
          SDL_PointInRect (pointerPos d) (rect e) = true) ∧
  (∀ i p c, elementStack d !! i = Some p → elementStack d !! S i = Some c →
            Status.test (status c) Status.HOVERED = true →
            Status.test (status p) Status.HOVERED = true).

(** The calls of a frame that widgets make through the dispatcher itself,
    without the handle operations. *)
Definition dispatcher_call (c : Call) : bool :=
  match c with
  | Check _ _ _ | PopTarget | TryFocus _ => true
  | _ => false
  end.

(** What the command resolvers never touch in addition to [stable]: the
    three focus ids other than the next-focus id. *)
Definition focus_kept (d d' : EventDispatcher) : Prop :=
  idFocus d' = idFocus d ∧ idLosingFocus d' = idLosingFocus d.

(** The commands that activate an element from the keyboard. *)
Definition activating (c : Command.t) : bool :=
  match c with
  | Command.ACTION | Command.ENTER | Command.SPACE => true
  | _ => false
  end.

(** The accumulated id inside an element [id] opened at a place whose
    accumulated id is [path] ([None] at top level). *)
Definition extend (path : option string) (id : string) : string :=
  match path with
  | None => id
  | Some q => q +:+ String groupNameSeparator "" +:+ id
  end.

(** Well-nested call sequences made at a place whose accumulated id is
    [path] ([None] at top level, [Some q] inside an element of qualified id
    [q]): every [check] is closed by its own [popTarget] after the calls of
    its content, and focus requests may come anywhere.  An element has a
    non-empty id unless its tier is [NONE] or [HOVER].  At assertion level 3
    ([paranoid]) no element is opened inside an element whose accumulated id
    is empty. *)
Inductive nested (paranoid : bool) : option string → list Call → Prop :=
  | nested_nil path : nested paranoid path []
  | nested_focus path q cs :
      nested paranoid path cs → nested paranoid path (TryFocus q :: cs)
  | nested_element path req r id body cs :
      (paranoid = true → path ≠ Some "") →
      (id = "" → req = RequestEvent.NONE ∨ req = RequestEvent.HOVER) →
      nested paranoid (Some (extend path id)) body →
      nested paranoid path cs →
      nested paranoid path (Check req r id :: body ++ PopTarget :: cs).

(** The dispatcher is at the place [path]. *)
Definition at_place (path : option string) (d : EventDispatcher) : Prop :=
  match path with
  | None => elementStack d = []
  | Some q => elementStack d ≠ [] ∧ idCurrent d = q
  end.

(** The calls of a frame made elsewhere than at the element of qualified
    id [q]: the release of a handle, the handle operations, and checks of
    elements whose qualified id is not [q]; no focus request.  The qualified
    id of a check depends on where it is made, so the sequence is followed
    from the dispatcher [d]. *)
Fixpoint elsewhere (q : string) (cs : list Call) (d : EventDispatcher) : bool :=
  match cs with
  | [] => true
  | c :: cs =>
      match c with
      | Check _ _ id => bool_decide (qualified id d ≠ q)
      | PopTarget | ShrinkWidth _ _ | ShrinkHeight _ _ | Shrink _ _ _
      | Discard _ => true
      | _ => false
      end &&
      match call c d with
      | Some d' => elsewhere q cs d'
      | None => true
      end
  end.

(** Somebody else's claim stands: [q] is neither the focused id nor the
    next-focus id, and the next-focus id is not empty. *)
Definition claim_of_other (q : string) (d : EventDispatcher) : Prop :=
  idFocus d ≠ q ∧ idNextFocus d ≠ q ∧ idNextFocus d ≠ "".

(** A claim left over: "a" asks for focus and is never checked; the frame
    ends. *)
Definition c3_unconsumed : list Call := [ TryFocus "a"; Reset ].

End FrameNotions.

Import FrameNotions.

(** ** Notions for the earlier revision and for the caret arithmetic *)

Module LegacyNotions.

Import SDL Legacy.

(** The [STATUS_HOVERED] test, as [popTarget] makes it. *)
Definition legacy_hovered (e : EventTargetState) : bool :=
  negb (Z.land (status e) STATUS_HOVERED =? 0).

(** The calls of a frame: [check], the release of its handle and
    [discard]. *)
Definition legacy_frame_call (c : Call) : bool :=
  match c with
  | Check _ _ _ | PopTarget | Discard _ _ => true
  | _ => false
  end.

(** The pointer lies inside the rectangle of every hovered entry and of
    every entry below it. *)
Definition legacy_hover_inside (d : EventDispatcher) : Prop :=
  ∀ i j e a, elementStack d !! i = Some e → elementStack d !! j = Some a →
             (j ≤ i)%nat → legacy_hovered e = true →
             SDL_PointInRect (pointerPos d) (rect a) = true.

(** What a resolver of the earlier revision leaves alone, and the only two
    ways it touches the focus ids. *)
Definition legacy_resolved (d : EventDispatcher) (o : Outcome) : Prop :=
  elementStack o.2 = elementStack d ∧ pointerPos o.2 = pointerPos d ∧
  hadHover o.2 = hadHover d ∧
  (idNextFocus d ≠ "" → idNextFocus o.2 = idNextFocus d) ∧
  (idFocus o.2 = idFocus d ∨ idFocus o.2 = idNextFocus d).

(** Sum and largest of a list of lengths. *)
Definition total (l : list Z) : Z := foldr Z.add 0 l.
Definition largest (l : list Z) : Z := foldr Z.max 0 l.

End LegacyNotions.

Import LegacyNotions.
(** * Properties *)

(** ** Status flags *)

Section StatusFacts.

Import Status.

Lemma test_or (a b f : StatusFlags) : test (or a b) f = test a f || test b f.
Proof.
  unfold test, or. rewrite Z.land_lor_distr_l.
  destruct (Z.eqb_spec (Z.land a f) 0) as [Ha|Ha];
    destruct (Z.eqb_spec (Z.land b f) 0) as [Hb|Hb]; simpl;
    destruct (Z.eqb_spec (Z.lor (Z.land a f) (Z.land b f)) 0) as [H|H];
    try reflexivity; exfalso.
  - apply H. apply Z.lor_eq_0_iff; auto.
  - apply Z.lor_eq_0_iff in H. tauto.
  - apply Z.lor_eq_0_iff in H. tauto.
  - apply Z.lor_eq_0_iff in H. tauto.
Qed.

Lemma test_reset_same (s f : StatusFlags) : test (reset s f) f = false.
Proof.
  unfold test, reset.
  replace (Z.land (Z.ldiff s f) f) with 0; [reflexivity|].
  symmetry. apply Z.bits_inj'. intros n Hn.
  rewrite Z.land_spec, Z.ldiff_spec, Z.bits_0.
  destruct (Z.testbit s n), (Z.testbit f n); reflexivity.
Qed.

Lemma test_reset_other (s f g : StatusFlags) :
  Z.land f g = 0 → test (reset s f) g = test s g.
Proof.
  intros Hfg. unfold test, reset. f_equal. f_equal.
  apply Z.bits_inj'. intros n Hn.
  rewrite !Z.land_spec, Z.ldiff_spec.
  assert (Hb : Z.testbit (Z.land f g) n = false) by (rewrite Hfg; apply Z.bits_0).
  rewrite Z.land_spec in Hb.
  destruct (Z.testbit s n), (Z.testbit f n), (Z.testbit g n);
    simpl in *; congruence.
Qed.

Lemma test_reset_weaken (s f g : StatusFlags) :
  test (reset s f) g = true → test s g = true.
Proof.
  unfold test, reset. intros H.
  destruct (Z.eqb_spec (Z.land s g) 0) as [E|E]; [|reflexivity].
  exfalso. destruct (Z.eqb_spec (Z.land (Z.ldiff s f) g) 0) as [E'|E'];
    [discriminate|]. apply E'.
  apply Z.bits_inj'. intros n Hn.
  rewrite Z.land_spec, Z.ldiff_spec, Z.bits_0.
  assert (Hb : Z.testbit (Z.land s g) n = false) by (rewrite E; apply Z.bits_0).
  rewrite Z.land_spec in Hb.
  destruct (Z.testbit s n), (Z.testbit f n), (Z.testbit g n);
    simpl in *; congruence.
Qed.

Lemma test_reset_sub_false (s f g : StatusFlags) :
  Z.land g (Z.lnot f) = 0 → test (reset s f) g = false.
Proof.
  intros Hg. unfold test, reset.
  replace (Z.land (Z.ldiff s f) g) with 0; [reflexivity|].
  symmetry. apply Z.bits_inj'. intros n Hn.
  rewrite Z.land_spec, Z.ldiff_spec, Z.bits_0.
  assert (Z.testbit (Z.land g (Z.lnot f)) n = false) as Hb
    by (rewrite Hg; apply Z.bits_0).
  rewrite Z.land_spec, Z.lnot_spec in Hb by exact Hn.
  destruct (Z.testbit s n), (Z.testbit f n), (Z.testbit g n);
    simpl in *; congruence.
Qed.

End StatusFacts.

(** ** Pointer triggers *)

Section PointerTriggers.

Lemma to_Uint32_testbit (z i : Z) :
  0 <= i < 32 → Z.testbit (Core.to_Uint32 z) i = Z.testbit z i.
Proof.
  intros Hi. unfold Core.to_Uint32. apply Z.mod_pow2_bits_low. lia.
Qed.

(** In the current revision [releasePointer b] ORs bit [b] into the
    released mask: the bit is set afterwards, every released bit that was
    set stays set, and nothing else of the dispatcher changes. *)
Lemma Core_releasePointer_ors_bit (b : Z) (d : Core.EventDispatcher) :
  0 <= b < 32 →
  0 <= Core.pointerReleased d < 2 ^ 32 →
  ∃ d', Core.releasePointer b d = Some d' ∧
        Z.testbit (Core.pointerReleased d') b = true ∧
        (∀ i, Z.testbit (Core.pointerReleased d) i = true →
              Z.testbit (Core.pointerReleased d') i = true) ∧
        Core.pointerPressed d' = Core.pointerPressed d ∧
        d' = Core.set_pointerReleased (Core.pointerReleased d') d.
Proof.
  intros Hb Hm. unfold Core.releasePointer.
  destruct (decide (0 <= b < 32)) as [_|]; [|contradiction].
  eexists; split; [reflexivity|]. simpl. repeat split.
  - rewrite to_Uint32_testbit by lia.
    rewrite Z.lor_spec, Z.shiftl_spec by lia.
    replace (b - b) with 0 by lia. simpl. apply orb_true_r.
  - intros i Hi.
    assert (0 <= i < 32) as Hr.
    { destruct (Z.lt_ge_cases i 0) as [Hneg|Hnn].
      - rewrite Z.testbit_neg_r in Hi by lia. discriminate.
      - destruct (Z.lt_ge_cases i 32) as [|Hge]; [lia|].
        rewrite (Z.bits_above_log2 (Core.pointerReleased d) i) in Hi;
          [discriminate | lia |].
        destruct (Z.eq_dec (Core.pointerReleased d) 0) as [E|E].
        + rewrite E. simpl. lia.
        + apply Z.log2_lt_pow2; [lia|].
          assert (2 ^ 32 <= 2 ^ i) by (apply Z.pow_le_mono_r; lia). lia. }
    rewrite to_Uint32_testbit by lia.
    rewrite Z.lor_spec, Hi. reflexivity.
Qed.

Example Core_releasePointer_example :
  ∃ d', Core.releasePointer 2 (Core.set_pointerReleased 1 Core.initial) = Some d' ∧
        Core.pointerReleased d' = 5.
Proof. eexists. split; reflexivity. Qed.

(** In the earlier revision [releasePointer b] assigns [~1 << b]: bit [b]
    itself is never set. *)
Lemma Legacy_releasePointer_clears_bit (b : Z) (d : Legacy.EventDispatcher) :
  0 <= b < 32 →
  ∃ d', Legacy.releasePointer b d = Some d' ∧
        Z.testbit (Legacy.pointerReleased d') b = false.
Proof.
  intros Hb. unfold Legacy.releasePointer.
  destruct (decide (0 <= b < 32)) as [_|]; [|contradiction].
  eexists; split; [reflexivity|]. simpl.
  unfold Legacy.to_Uint32. rewrite Z.mod_pow2_bits_low by lia.
  rewrite Z.shiftl_spec by lia. replace (b - b) with 0 by lia. reflexivity.
Qed.

(** C6 (evaluation at the failing input).  In the earlier revision, from
    any dispatcher state, [reset] followed by [releasePointer(0)] leaves the
    released mask [0xFFFFFFFE] where the claim expects [0 | 1 << 0 = 1]: bit 0
    is not set, and bit 1, never released, is.  A following
    [releasePointer(1)] leaves [0xFFFFFFFC]: the call is an assignment rather
    than an OR, and bit 1, which the first call had set, is not kept. *)
Theorem C6_legacy_releasePointer_not_or (d : Legacy.EventDispatcher) :
  ∃ d0 d1 d2,
    Legacy.run [Legacy.Reset] d = Some d0 ∧
    Legacy.pointerReleased d0 = 0 ∧
    Legacy.releasePointer 0 d0 = Some d1 ∧
    Legacy.pointerReleased d1 = 4294967294 ∧
    Legacy.pointerReleased d1 ≠
      Legacy.to_Uint32 (Z.lor (Legacy.pointerReleased d0) (Z.shiftl 1 0)) ∧
    Z.testbit (Legacy.pointerReleased d1) 0 = false ∧
    Z.testbit (Legacy.pointerReleased d1) 1 = true ∧
    Legacy.pointerPressed d1 = Legacy.pointerPressed d0 ∧
    Legacy.releasePointer 1 d1 = Some d2 ∧
    Legacy.pointerReleased d2 = 4294967292 ∧
    Z.testbit (Legacy.pointerReleased d2) 1 = false.
Proof.
  eexists _, _, _. split; [reflexivity|].
  split; [reflexivity|]. split; [reflexivity|].
  split; [reflexivity|]. split; [discriminate|].
  split; [reflexivity|]. split; [reflexivity|].
  split; [reflexivity|]. split; [reflexivity|].
  split; reflexivity.
Qed.

End PointerTriggers.

(** ** std::string helpers *)

Section StringFacts.

Lemma empty_true (s : string) : Str.empty s = true ↔ s = "".
Proof. destruct s; simpl; split; congruence. Qed.

Lemma empty_false (s : string) : Str.empty s = false ↔ s ≠ "".
Proof. destruct s; simpl; split; congruence. Qed.

Lemma length_append (s t : string) :
  String.length (s +:+ t) = (String.length s + String.length t)%nat.
Proof.
  induction s as [|c s IH]; [reflexivity|].
  change (String c s +:+ t) with (String c (s +:+ t)). simpl. by rewrite IH.
Qed.

(** [pop_back] removes exactly the last byte. *)
Lemma pop_back_snoc (s : string) :
  s ≠ "" → ∃ c, s = Str.pop_back s +:+ String c "".
Proof.
  induction s as [|a s IH]; [congruence|]. intros _.
  destruct s as [|b s].
  - exists a. reflexivity.
  - destruct IH as [c Hc]; [congruence|]. exists c.
    change (Str.pop_back (String a (String b s)))
      with (String a (Str.pop_back (String b s))).
    change (String a (Str.pop_back (String b s)) +:+ String c "")
      with (String a (Str.pop_back (String b s) +:+ String c "")).
    by rewrite <- Hc.
Qed.

Lemma length_resize (n : nat) (s : string) : String.length (Str.resize n s) = n.
Proof.
  revert s. induction n as [|n IH]; intros s; [reflexivity|].
  destruct s; simpl; by rewrite IH.
Qed.

End StringFacts.

(** ** Text input *)

Section TextInput.

Import Core.

(** C9.  [input(text)] with a pending [BACKSPACE] and an empty buffer
    returns at once: the dispatcher is unchanged, so the buffer is still
    empty, the command is still [BACKSPACE] and [text] is dropped. *)
Theorem C9_input_backspace_on_empty_buffer (text : string) (d : EventDispatcher) :
  nextCommand d = Command.BACKSPACE →
  inputBuffer d = "" →
  input text d = d ∧
  inputBuffer (input text d) = "" ∧
  nextCommand (input text d) = Command.BACKSPACE.
Proof.
  intros Hc Hb. unfold input. rewrite Hc, Hb. simpl.
  destruct (decide (Command.BACKSPACE = Command.SPACE)) as [E|_]; [discriminate|].
  destruct (decide (Command.BACKSPACE = Command.BACKSPACE)) as [_|N]; [|congruence].
  rewrite Hc, Hb. auto.
Qed.

Lemma C9_input_backspace_on_empty_buffer_witness :
  let d := command Command.BACKSPACE initial in
  input "abc" d = d ∧ inputBuffer (input "abc" d) = "" ∧
  nextCommand (input "abc" d) = Command.BACKSPACE.
Proof.
  apply (C9_input_backspace_on_empty_buffer "abc"
           (command Command.BACKSPACE initial)); reflexivity.
Defined.

Lemma with_flag_eq flag o :
  with_flag flag o = (Status.or flag o.1.1, o.1.2, o.2).
Proof. by destruct o as [[s e] d]. Qed.

Lemma checkActionCommand_event (ev : Event.t) (d : EventDispatcher) :
  ev ≠ Event.NONE →
  checkActionCommand ev d = (Status.NONE, ev, set_idGrabbed "" d).
Proof.
  intros H. unfold checkActionCommand.
  destruct (decide (ev ≠ Event.NONE)); [reflexivity|contradiction].
Qed.

(** The command table of [checkInputCommand], for any incoming event. *)
Lemma checkInputCommand_table (ev : Event.t) (d : EventDispatcher) :
  let '(s, e, d') := checkInputCommand ev d in
  s = Status.NONE ∧
  match nextCommand d with
  | Command.ENTER =>
      (e = Event.END_LINE ↔ inputBuffer d = "") ∧
      (inputBuffer d ≠ "" → e = Event.NONE) ∧
      inputBuffer d' = inputBuffer d
  | Command.SPACE =>
      if Str.empty (inputBuffer d)
      then e = Event.SPACE ∧ inputBuffer d' = ""
      else e = Event.INPUT ∧ inputBuffer d' = inputBuffer d +:+ " "
  | Command.BACKSPACE =>
      if Str.empty (inputBuffer d)
      then e = Event.BACKSPACE ∧ inputBuffer d' = ""
      else e = Event.INPUT ∧ inputBuffer d' = Str.pop_back (inputBuffer d)
  | Command.ESCAPE => e = Event.CANCEL ∧ inputBuffer d' = inputBuffer d
  | Command.NONE =>
      (inputBuffer d ≠ "" → e = Event.INPUT) ∧
      (inputBuffer d = "" → e = ev) ∧
      inputBuffer d' = inputBuffer d
  | Command.ACTION =>
      (inputBuffer d ≠ "" → e = Event.INPUT) ∧
      inputBuffer d' = inputBuffer d
  end.
Proof.
  unfold checkInputCommand.
  destruct (nextCommand d) eqn:Hc; destruct (inputBuffer d) as [|c b] eqn:Hb;
    simpl; rewrite ?checkActionCommand_event by discriminate; simpl;
    try (split; [reflexivity|]);
    try (intuition (try discriminate; try congruence); fail).
  - unfold checkActionCommand. rewrite Hc.
    destruct (decide (ev ≠ Event.NONE)); simpl; intuition congruence.
  - unfold checkActionCommand. rewrite Hc.
    destruct (decide (ev ≠ Event.NONE)); simpl; intuition congruence.
Qed.

(** A focused element that is not scheduled to lose focus and requests a
    tier other than [FOCUS] hands the pending command to
    [checkInputCommand]. *)
Lemma checkFocus_routes_input (req : RequestEvent.t) (ev : Event.t)
    (d : EventDispatcher) :
  idFocus d = idCurrent d → idLosingFocus d ≠ idCurrent d →
  req ≠ RequestEvent.FOCUS →
  checkFocus req ev d =
  with_flag Status.FOCUSED
    (checkInputCommand ev (set_idNextFocus (idCurrent d) d)).
Proof.
  intros Hf Hl Hr. unfold checkFocus, checkFocusCommand.
  destruct (decide (idFocus d = idCurrent d)) as [_|]; [|contradiction].
  destruct (decide (idLosingFocus d = idCurrent d)) as [|_]; [contradiction|].
  destruct (decide (req = RequestEvent.FOCUS)); [contradiction|reflexivity].
Qed.

End TextInput.

(** ** Late shrink of an element *)

Section Shrink.

Import SDL Core.

(** C10.  [shrink(w, h)] overwrites width and height of the stored
    rectangle and calls [discard] exactly when the pointer is at or below the
    new height ([pointerPos.y - rect.y >= h]); the horizontal coordinate is
    never consulted.  So with the pointer inside the new height the status
    and event are untouched, wherever the pointer is horizontally, and a
    hovered element that is not grabbed loses [HOVERED] iff the vertical test
    fires. *)
Theorem C10_shrink_discards_on_height_only
    (index : nat) (w' h' : Z) (d : EventDispatcher) (e : EventTargetState) :
  elementStack d !! index = Some e →
  let r' := Rect (rx (rect e)) (ry (rect e)) w' h' in
  let below := y (pointerPos d) - ry (rect e) >= h' in
  ∃ d' e',
    shrink index w' h' d = Some d' ∧
    elementStack d' = <[ index := e' ]> (elementStack d) ∧
    elementStack d' !! index = Some e' ∧
    rect e' = r' ∧
    e' = (if decide below then discard_state (set_rect r' e) else set_rect r' e) ∧
    (¬ below → status e' = status e ∧ event e' = event e) ∧
    (x (pointerPos d) - rx (rect e) >= w' → ¬ below →
       status e' = status e ∧ event e' = event e) ∧
    (Status.test (status e) Status.GRABBED = false →
     Status.test (status e) Status.HOVERED = true →
       (Status.test (status e') Status.HOVERED = false ↔ below)).
Proof.
  intros He r' below. unfold shrink. rewrite He. fold r'. simpl.
  assert (Hlt : (index < length (elementStack d))%nat)
    by (eapply lookup_lt_Some; eauto).
  destruct (decide (y (pointerPos d) - ry (rect e) >= h')) as [Hb|Hb].
  - unfold discard. simpl.
    rewrite list_lookup_insert_eq by assumption.
    eexists _, (discard_state (set_rect r' e)). split; [reflexivity|]. simpl.
    rewrite list_insert_insert_eq.
    rewrite list_lookup_insert_eq by assumption.
    split_and!; try reflexivity.
    + unfold discard_state; simpl.
      destruct (negb (Status.test (status e) Status.GRABBED)); simpl;
        [reflexivity|]. destruct (decide (event e = Event.GRAB)); reflexivity.
    + destruct (decide below); [reflexivity|contradiction].
    + intros N. contradiction.
    + intros _ N. contradiction.
    + intros Hg Hh. split; [intros _; exact Hb|intros _].
      unfold discard_state. simpl. rewrite Hg. simpl.
      apply test_reset_same.
  - eexists _, (set_rect r' e). split; [reflexivity|]. simpl.
    rewrite list_lookup_insert_eq by assumption.
    split_and!; try reflexivity.
    + destruct (decide below); [contradiction|reflexivity].
    + intros _. split; reflexivity.
    + intros _ _. split; reflexivity.
    + intros Hg Hh. split; [|intros N; contradiction].
      intros Hx. rewrite Hh in Hx. discriminate.
Qed.

(** A hovered element at the origin, pointer at (50, 5), shrunk to 10 x 10:
    the pointer is 40 pixels to the right of the new width and the element
    stays hovered. *)
Lemma C10_shrink_discards_on_height_only_witness :
  let e := mkTarget 3 (Rect 0 0 100 100) Status.HOVERED Event.NONE in
  let d := set_elementStack [e] (movePointer (Point 50 5) initial) in
  ∃ d' e',
    shrink 0 10 10 d = Some d' ∧
    elementStack d' !! 0%nat = Some e' ∧
    rect e' = Rect 0 0 10 10 ∧
    status e' = Status.HOVERED.
Proof.
  destruct (C10_shrink_discards_on_height_only 0 10 10
              (set_elementStack
                 [mkTarget 3 (Rect 0 0 100 100) Status.HOVERED Event.NONE]
                 (movePointer (Point 50 5) initial))
              (mkTarget 3 (Rect 0 0 100 100) Status.HOVERED Event.NONE)
              eq_refl)
    as (d' & e' & H1 & _ & H2 & H3 & _ & _ & H4 & _).
  exists d', e'. repeat split; try assumption.
  apply H4; simpl; lia.
Defined.

End Shrink.

(** ** Effective size of a container level *)

Section EffectiveSize.

Import SDL Layout.

Lemma makeLen_fixed (len delta : Z) (autoPos : bool) (sp : Z) :
  len ≠ 0 → makeLen len delta autoPos sp = len.
Proof.
  intros H. unfold makeLen. destruct (decide (len = 0)); [contradiction|reflexivity].
Qed.

Lemma makeLen_auto (delta : Z) (autoPos : bool) (sp : Z) :
  makeLen 0 delta autoPos sp =
  if autoPos && bool_decide (delta >= sp) then delta - sp else delta.
Proof. reflexivity. Qed.

(** C8, as the code has it.  A fixed (non-zero) dimension is returned
    unchanged.  An auto (zero) dimension is the content extent along the
    axis, minus one [elementSpacing] when the level stacks along that axis
    and the extent is at least [elementSpacing]; a smaller extent is returned
    as it is.  In the scenario of the spec (vertical stack, spacing 4,
    advances (20,10) and (15,10)) the auto height is 24 and the auto width
    20. *)
Theorem C8_effective_size (t : Target) :
  (w (rect t) ≠ 0 → width t = w (rect t)) ∧
  (h (rect t) ≠ 0 → height t = h (rect t)) ∧
  (w (rect t) = 0 →
     width t =
     if decide (layout (style t) = HORIZONTAL ∧
                contentWidth t >= elementSpacing (style t))
     then contentWidth t - elementSpacing (style t) else contentWidth t) ∧
  (h (rect t) = 0 →
     height t =
     if decide (layout (style t) = VERTICAL ∧
                contentHeight t >= elementSpacing (style t))
     then contentHeight t - elementSpacing (style t) else contentHeight t) ∧
  (layout (style t) = VERTICAL → elementSpacing (style t) = 4 →
   locked t = false → w (rect t) = 0 → h (rect t) = 0 →
   bottomRight t = topLeft t →
   ∃ t1 t2, advance (Point 20 10) t = Some t1 ∧
            advance (Point 15 10) t1 = Some t2 ∧
            height t2 = 24 ∧ width t2 = 20).
Proof.
  unfold width, height, contentWidth, contentHeight.
  split; [apply makeLen_fixed|]. split; [apply makeLen_fixed|].
  split; [|split].
  - intros ->. rewrite makeLen_auto.
    destruct (decide (layout (style t) = HORIZONTAL)) as [E|E].
    + rewrite bool_decide_eq_true_2 by assumption. simpl.
      destruct (decide (x (bottomRight t) - x (topLeft t) >= elementSpacing (style t))).
      * rewrite bool_decide_eq_true_2 by assumption.
        destruct (decide _) as [|N]; [reflexivity|]. exfalso; apply N; auto.
      * rewrite bool_decide_eq_false_2 by assumption.
        destruct (decide _) as [[_ Y]|N]; [contradiction|reflexivity].
    + rewrite bool_decide_eq_false_2 by assumption. simpl.
      destruct (decide _) as [[Y _]|N]; [contradiction|reflexivity].
  - intros ->. rewrite makeLen_auto.
    destruct (decide (layout (style t) = VERTICAL)) as [E|E].
    + rewrite bool_decide_eq_true_2 by assumption. simpl.
      destruct (decide (y (bottomRight t) - y (topLeft t) >= elementSpacing (style t))).
      * rewrite bool_decide_eq_true_2 by assumption.
        destruct (decide _) as [|N]; [reflexivity|]. exfalso; apply N; auto.
      * rewrite bool_decide_eq_false_2 by assumption.
        destruct (decide _) as [[_ Y]|N]; [contradiction|reflexivity].
    + rewrite bool_decide_eq_false_2 by assumption. simpl.
      destruct (decide _) as [[Y _]|N]; [contradiction|reflexivity].
  - intros Hl Hs Hk Hw Hh Hbr.
    destruct t as [r tl br lk [ly sp]]. simpl in *. subst.
    unfold advance. simpl. eexists _, _.
    split; [reflexivity|]. split; [reflexivity|]. simpl.
    rewrite Hw, Hh. rewrite !makeLen_auto. simpl.
    split.
    + rewrite bool_decide_eq_true_2 by lia. lia.
    + lia.
Qed.

Lemma C8_effective_size_witness :
  let t := mkTargetLevel (Rect 7 9 0 0) (Point 7 9) (Point 7 9) false
             (mkStyle VERTICAL 4) in
  ∃ t1 t2, advance (Point 20 10) t = Some t1 ∧
           advance (Point 15 10) t1 = Some t2 ∧
           height t2 = 24 ∧ width t2 = 20.
Proof.
  apply (C8_effective_size
           (mkTargetLevel (Rect 7 9 0 0) (Point 7 9) (Point 7 9) false
              (mkStyle VERTICAL 4))); reflexivity.
Defined.

(** C8 fails as worded: a vertical level that is still empty has extent 0,
    and its auto height is 0, not 0 minus the spacing. *)
Lemma C8_counterexample :
  let t := mkTargetLevel (Rect 0 0 0 0) (Point 0 0) (Point 0 0) false
             (mkStyle VERTICAL 4) in
  h (rect t) = 0 ∧ layout (style t) = VERTICAL ∧
  height t = 0 ∧
  height t ≠ contentHeight t - elementSpacing (style t).
Proof. repeat split. discriminate. Qed.

End EffectiveSize.

(** ** Frame boundary *)

Section FrameBoundary.

Import SDL Core.

(** [reset] in closed form. *)
Lemma reset_eq (d : EventDispatcher) :
  elementStack d = [] →
  reset d =
  Some (mkDispatcher (pointerPos d) 0 0 (idCurrent d) false (idGrabbed d)
          (if decide (idLosingFocus d = idFocus d) then "" else idFocus d)
          (if decide (idNextFocus d = idFocus d) then "" else idNextFocus d)
          (if decide (idLosingFocus d = idFocus d) then idLosingFocus d else "")
          Command.NONE "" []).
Proof.
  intros H. destruct d as [pp pr rl ic hh ig f n l nc ib st].
  simpl in H. subst st. unfold reset. simpl.
  destruct (decide (n = f)); simpl; destruct (decide (l = f)); reflexivity.
Qed.

(** C7, as the code has it.  A second [reset] right after a first one trips
    no assertion and changes no field except the losing-focus id, which it
    clears.  It is the identity exactly when the first call did not perform a
    deferred focus clear, that is unless the losing-focus id was equal to a
    non-empty focused id.  A third [reset] is always the identity. *)
Theorem C7_reset_twice (d r1 : EventDispatcher) :
  reset d = Some r1 →
  ∃ r2, reset r1 = Some r2 ∧
        r2 = set_idLosingFocus "" r1 ∧
        (r2 = r1 ↔ ¬ (idLosingFocus d = idFocus d ∧ idFocus d ≠ "")) ∧
        reset r2 = Some r2.
Proof.
  destruct d as [pp pr rl ic hh ig f n l nc ib st].
  destruct st as [|e st]; [|discriminate]. intros H.
  rewrite reset_eq in H by reflexivity. injection H as <-. simpl.
  rewrite reset_eq by reflexivity. simpl.
  eexists. split; [reflexivity|].
  split_and!.
  - unfold set_idLosingFocus; simpl. repeat case_decide; congruence.
  - split.
    + intros E [Hl Hf]. subst l. injection E as E1 E2 E3.
      repeat case_decide; congruence.
    + intros N. f_equal; repeat case_decide; try congruence.
      exfalso. apply N. split; congruence.
  - rewrite reset_eq by reflexivity. simpl.
    f_equal. f_equal; repeat case_decide; congruence.
Qed.

(** The state at the end of the two frames [c7_frames]: "a" is focused
    and marked as losing focus, "b" is the next-focus id.  The first [reset]
    clears the focused id and keeps the losing-focus id "a" (the deferred
    clear); the second clears the losing-focus id and changes nothing else;
    a third changes nothing. *)
Lemma C7_reset_twice_witness :
  ∃ d r1 r2,
    run c7_frames initial = Some d ∧
    idFocus d = "a" ∧ idLosingFocus d = "a" ∧ idNextFocus d = "b" ∧
    reset d = Some r1 ∧ idFocus r1 = "" ∧ idLosingFocus r1 = "a" ∧
    reset r1 = Some r2 ∧ r2 = set_idLosingFocus "" r1 ∧ r2 ≠ r1 ∧
    reset r2 = Some r2.
Proof.
  destruct (run c7_frames initial) as [d|] eqn:Hd; vm_compute in Hd;
    [|discriminate].
  injection Hd as Hd. subst d.
  match goal with |- ∃ d r1 r2, Some ?c = _ ∧ _ => set (d := c) end.
  pose proof (C7_reset_twice d) as T.
  destruct (reset d) as [r1|] eqn:H1; [|vm_compute in H1; discriminate].
  destruct (T r1 eq_refl) as (r2 & H2 & H3 & H4 & H5).
  assert (idFocus r1 = "" ∧ idLosingFocus r1 = "a") as [F1 L1].
  { vm_compute in H1. by injection H1 as <-. }
  exists d, r1, r2.
  split_and!; try reflexivity; try assumption.
  intros E. apply H4 in E. apply E. split; [reflexivity | discriminate].
Defined.

(** C7 fails as worded: at the end of the second frame above the stack is
    empty, and the second of two successive [reset] calls still changes the
    dispatcher (it clears the losing-focus id that the first call kept). *)
Lemma C7_counterexample :
  ∃ d r1 r2,
    run c7_frames initial = Some d ∧ elementStack d = [] ∧
    reset d = Some r1 ∧ reset r1 = Some r2 ∧
    idLosingFocus r1 = "a" ∧ idLosingFocus r2 = "" ∧ r2 ≠ r1.
Proof.
  destruct (run c7_frames initial) as [d|] eqn:Hd; vm_compute in Hd;
    [|discriminate].
  injection Hd as Hd.
  destruct (reset d) as [r1|] eqn:H1; rewrite <- Hd in H1; vm_compute in H1;
    [|discriminate].
  injection H1 as H1.
  destruct (reset r1) as [r2|] eqn:H2; rewrite <- H1 in H2; vm_compute in H2;
    [|discriminate].
  injection H2 as H2.
  exists d, r1, r2. subst d r1 r2.
  split_and!; try (vm_compute; reflexivity).
  intros E. discriminate E.
Qed.

End FrameBoundary.

(** ** What the resolvers leave alone *)

Section ResolverFrame.

Import SDL Core.

Local Ltac crush :=
  intros; repeat (case_decide || case_match); simplify_eq/=;
  unfold stable; simpl; try done.

Lemma stable_refl d : stable d d.
Proof. done. Qed.

Lemma stable_trans d1 d2 d3 : stable d1 d2 → stable d2 d3 → stable d1 d3.
Proof. unfold stable. intros H1 H2. destruct_and!. split_and!; congruence. Qed.

Lemma checkActionCommand_stable ev d : stable d (checkActionCommand ev d).2.
Proof. unfold checkActionCommand. crush. Qed.

Lemma checkInputCommand_stable ev d : stable d (checkInputCommand ev d).2.
Proof.
  unfold checkInputCommand.
  repeat case_match; simpl;
    try (eapply stable_trans; [|apply checkActionCommand_stable]); done.
Qed.

Lemma checkFocusCommand_stable req ev d : stable d (checkFocusCommand req ev d).2.
Proof.
  unfold checkFocusCommand. case_decide;
    auto using checkActionCommand_stable, checkInputCommand_stable.
Qed.

Lemma checkFocus_stable req ev d : stable d (checkFocus req ev d).2.
Proof.
  unfold checkFocus. repeat case_decide; simpl; try done.
  rewrite with_flag_eq. simpl.
  eapply stable_trans; [|apply checkFocusCommand_stable]. done.
Qed.

Lemma gainFocus_stable req ev d : stable d (gainFocus req ev d).2.
Proof.
  unfold gainFocus. repeat (case_decide || case_match); simpl;
    try apply checkFocus_stable; done.
Qed.

Lemma loseFocus_stable req ev d : stable d (loseFocus req ev d).2.
Proof.
  unfold loseFocus. repeat case_decide; simpl;
    try (eapply stable_trans; [|apply checkFocus_stable]); done.
Qed.

Lemma checkGrabCommand_stable req ev d : stable d (checkGrabCommand req ev d).2.
Proof.
  unfold checkGrabCommand. repeat case_decide;
    auto using checkActionCommand_stable, checkFocus_stable.
Qed.

Lemma checkGrabOver_stable req ev d : stable d (checkGrabOver req ev d).2.
Proof.
  unfold checkGrabOver. repeat case_decide; rewrite ?with_flag_eq; simpl;
    try (eapply stable_trans;
         [|first [apply checkFocus_stable | apply gainFocus_stable
                 | apply checkGrabCommand_stable]]); done.
Qed.

Lemma checkGrabOut_stable req ev d : stable d (checkGrabOut req ev d).2.
Proof.
  unfold checkGrabOut. repeat case_decide; rewrite ?with_flag_eq; simpl;
    try (eapply stable_trans;
         [|first [apply checkFocus_stable | apply loseFocus_stable]]); done.
Qed.

Lemma checkHover_stable req r ev d : stable d (checkHover req r ev d).2.
Proof.
  unfold checkHover. repeat (case_decide || case_match);
    rewrite ?with_flag_eq; simpl;
    auto using checkGrabOut_stable, checkGrabOver_stable, stable_refl.
Qed.

End ResolverFrame.

(** ** The grabbed id below grab level *)

Section GrabMonotone.

Import SDL Core.

Lemma grab_kept_refl d : grab_kept d d.
Proof. by left. Qed.

Lemma grab_kept_trans d1 d2 d3 :
  grab_kept d1 d2 → grab_kept d2 d3 → grab_kept d1 d3.
Proof. unfold grab_kept. intros [H1|H1] [H2|H2]; rewrite ?H2, ?H1; auto. Qed.

Lemma grab_kept_clear d : grab_kept d (set_idGrabbed "" d).
Proof. by right. Qed.

Lemma below_grab_with_focus d o :
  below_grab d o → below_grab d (with_flag Status.FOCUSED o).
Proof.
  intros [H1 H2]. rewrite with_flag_eq. split; simpl; [|done].
  rewrite test_or, H1. reflexivity.
Qed.

Lemma below_grab_from d1 d o :
  grab_kept d d1 → below_grab d1 o → below_grab d o.
Proof. intros H [H1 H2]. split; [done|]. by eapply grab_kept_trans. Qed.

Lemma checkActionCommand_below ev d : below_grab d (checkActionCommand ev d).
Proof.
  unfold checkActionCommand, below_grab.
  repeat (case_decide || case_match); simpl;
    split; auto using grab_kept_refl, grab_kept_clear.
Qed.

Lemma checkInputCommand_below ev d : below_grab d (checkInputCommand ev d).
Proof.
  unfold checkInputCommand.
  repeat case_match;
    try apply checkActionCommand_below;
    try (eapply below_grab_from; [|apply checkActionCommand_below]; by left).
  split; [reflexivity|apply grab_kept_refl].
Qed.

Lemma checkFocusCommand_below req ev d : below_grab d (checkFocusCommand req ev d).
Proof.
  unfold checkFocusCommand. case_decide;
    auto using checkActionCommand_below, checkInputCommand_below.
Qed.

Lemma checkFocus_below req ev d : below_grab d (checkFocus req ev d).
Proof.
  unfold checkFocus. repeat case_decide;
    try (split; [reflexivity|by left]).
  apply below_grab_with_focus.
  eapply below_grab_from; [|apply checkFocusCommand_below]. by left.
Qed.

Lemma gainFocus_below req ev d : below_grab d (gainFocus req ev d).
Proof.
  unfold gainFocus. repeat (case_decide || case_match);
    try apply checkFocus_below; split; simpl; try reflexivity; by left.
Qed.

Lemma loseFocus_below req ev d : below_grab d (loseFocus req ev d).
Proof.
  unfold loseFocus. repeat case_decide;
    try apply checkFocus_below.
  - split; [reflexivity|by left].
  - eapply below_grab_from; [|apply checkFocus_below]. by left.
Qed.

Lemma checkGrabCommand_below req ev d : below_grab d (checkGrabCommand req ev d).
Proof.
  unfold checkGrabCommand. repeat case_decide;
    auto using checkActionCommand_below, checkFocus_below.
Qed.

(** Without a fresh press, [checkHover] returns [GRABBED] only to the
    element whose id is the grabbed id, and it never sets the grabbed id. *)
Lemma checkHover_grab req r ev d :
  no_fresh_press d →
  grab_kept d (checkHover req r ev d).2 ∧
  (Status.test (checkHover req r ev d).1.1 Status.GRABBED = true →
   idGrabbed d = idCurrent d).
Proof.
  intros Hnf. unfold no_fresh_press in Hnf.
  assert (∀ o, below_grab d o →
               grab_kept d o.2 ∧
               (Status.test o.1.1 Status.GRABBED = true →
                idGrabbed d = idCurrent d)) as Hb.
  { intros o [H1 H2]. split; [done|]. rewrite H1. discriminate. }
  assert (∀ o, below_grab d o →
               grab_kept d (with_flag Status.HOVERED o).2 ∧
               (Status.test (with_flag Status.HOVERED o).1.1 Status.GRABBED = true →
                idGrabbed d = idCurrent d)) as Hbh.
  { intros o [H1 H2]. rewrite with_flag_eq. simpl. split; [done|].
    rewrite test_or, H1. discriminate. }
  assert (∀ o, below_grab (set_idGrabbed "" d) o → below_grab d o) as Hclr.
  { intros o. apply below_grab_from. by right. }
  assert (∀ o, idGrabbed d = idCurrent d → below_grab d o →
               grab_kept d (with_flag Status.GRABBED o).2 ∧
               (Status.test (with_flag Status.GRABBED o).1.1 Status.GRABBED = true →
                idGrabbed d = idCurrent d)) as Hheld.
  { intros o Hg [H1 H2]. rewrite with_flag_eq. simpl. done. }
  assert (∀ o, idGrabbed d = idCurrent d → below_grab d o →
               grab_kept d (with_flag Status.HOVERED (with_flag Status.GRABBED o)).2 ∧
               (Status.test (with_flag Status.HOVERED (with_flag Status.GRABBED o)).1.1
                  Status.GRABBED = true →
                idGrabbed d = idCurrent d)) as Hheld'.
  { intros o Hg [H1 H2]. rewrite !with_flag_eq. simpl. done. }
  unfold checkHover.
  destruct (negb (hoverable r d)).
  - destruct (decide (req = RequestEvent.HOVER)).
    { simpl. split; [by left|discriminate]. }
    unfold checkGrabOut.
    destruct (decide (idGrabbed d ≠ idCurrent d)) as [Hg|Hg].
    { case_decide; apply Hb; auto using checkFocus_below, loseFocus_below. }
    apply dec_stable in Hg.
    destruct (decide (pointerReleased d = 0 ∧ pointerPressed d = 0)).
    { apply Hheld; auto using checkFocus_below. }
    simpl. repeat case_decide; apply Hb, Hclr;
      first [apply checkFocus_below | apply loseFocus_below
            | split; [reflexivity|by left]].
  - destruct (decide (req = RequestEvent.HOVER)).
    { simpl. split; [by left|discriminate]. }
    unfold checkGrabOver.
    destruct (decide (pointerReleased d ≠ 0)) as [Hrel|Hrel].
    { case_decide; apply Hbh;
        first [apply checkFocus_below | apply Hclr, checkFocus_below]. }
    destruct (decide (pointerPressed d ≠ 1)) as [Hp|Hp]; [|lia].
    destruct (decide (idGrabbed d ≠ idCurrent d)) as [Hg|Hg].
    { case_decide; apply Hbh; auto using gainFocus_below.
      split; [reflexivity|by left]. }
    apply dec_stable in Hg.
    destruct (decide (pointerPressed d = 0)).
    + apply Hheld'; auto using checkGrabCommand_below.
    + apply Hbh, Hclr, checkFocus_below.
Qed.

End GrabMonotone.

(** ** Grab lifecycle *)

Section GrabLifecycle.

Import SDL Core.

Lemma checkFocus_neutral req ev d :
  focus_neutral (idCurrent d) d → checkFocus req ev d = (Status.NONE, ev, d).
Proof.
  intros (Hf & Hn & Hl). unfold checkFocus.
  repeat (case_decide; try contradiction). reflexivity.
Qed.







Lemma check_resolves req r id d :
  req ≠ RequestEvent.NONE → id ≠ "" →
  let d0 := set_idCurrent (qualified id d) d in
  check req r id d =
  Some (length (elementStack d),
        set_elementStack
          (elementStack (checkHover req r Event.NONE d0).2 ++
             [mkTarget (String.length id) r
                (checkHover req r Event.NONE d0).1.1
                (checkHover req r Event.NONE d0).1.2])
          (checkHover req r Event.NONE d0).2).
Proof.
  intros Hreq Hid d0. unfold check.
  assert (match elementStack d with
          | [] => set_idCurrent id d
          | _ :: _ =>
              set_idCurrent
                (idCurrent d +:+ String groupNameSeparator "" +:+ id) d
          end = d0) as ->.
  { unfold d0, qualified. by destruct (elementStack d). }
  destruct (decide (req = RequestEvent.NONE)); [contradiction|].
  destruct (decide (id = "" ∧ req ≠ RequestEvent.HOVER)) as [[? _]|_];
    [contradiction|].
  pose proof (checkHover_stable req r Event.NONE d0) as (Hst & _).
  destruct (checkHover req r Event.NONE d0) as [[s e] d'].
  simpl in *. rewrite Hst. simpl. rewrite length_app. simpl.
  do 2 f_equal. lia.
Qed.

Lemma qualified_nonempty id d : id ≠ "" → qualified id d ≠ "".
Proof.
  intros Hid. unfold qualified. destruct (elementStack d); [exact Hid|].
  destruct (idCurrent d); discriminate.
Qed.



(** The same scenario run through the public calls, frame by frame. *)
Example grab_scenario :
  (λ d, (status <$> elementStack d, event <$> elementStack d, idGrabbed d)) <$>
    run [ MovePointer (Point 5 5); PressPointer 0;
          Check RequestEvent.GRAB (Rect 0 0 10 10) "btn" ] initial
  = Some ([Status.or Status.HOVERED Status.GRABBED], [Event.GRAB], "btn") ∧
  (λ d, (status <$> elementStack d, event <$> elementStack d, idGrabbed d)) <$>
    run [ MovePointer (Point 5 5); PressPointer 0;
          Check RequestEvent.GRAB (Rect 0 0 10 10) "btn"; PopTarget; Reset;
          ReleasePointer 0;
          Check RequestEvent.GRAB (Rect 0 0 10 10) "btn" ] initial
  = Some ([Status.HOVERED], [Event.ACTION], "").
Proof. split; vm_compute; reflexivity. Qed.


End GrabLifecycle.

(** ** Focus requests *)

Section FocusRequests.

Import SDL Core.

Lemma outbid_set_idGrabbed g d : outbid d → outbid (set_idGrabbed g d).
Proof. done. Qed.

Lemma checkFocus_outbid req ev d :
  outbid d → (checkFocus req ev d).1.1 = Status.NONE.
Proof.
  intros (Hf & Hn & _). unfold checkFocus.
  repeat (case_decide; try contradiction); reflexivity.
Qed.

Lemma loseFocus_outbid req ev d :
  outbid d → (loseFocus req ev d).1.1 = Status.NONE.
Proof.
  intros H. unfold loseFocus. destruct H as (Hf & Hn & Hx).
  destruct (decide (idFocus d ≠ idCurrent d)); [|contradiction].
  by apply checkFocus_outbid.
Qed.

Lemma gainFocus_outbid req ev d :
  outbid d → (gainFocus req ev d).1.1 = Status.NONE.
Proof.
  intros (Hf & Hn & Hne & Hp). unfold gainFocus.
  destruct (decide (idFocus d = idCurrent d ∨ idNextFocus d = idCurrent d))
    as [[?|?]|_]; try contradiction.
  destruct (decide (idNextFocus d ≠ "")); [|contradiction].
  unfold parent_not_focused in Hp.
  destruct (last (elementStack d)) as [sup|]; [|reflexivity].
  rewrite Hp. reflexivity.
Qed.

Lemma checkActionCommand_status ev d : (checkActionCommand ev d).1.1 = Status.NONE.
Proof. unfold checkActionCommand. repeat (case_decide || case_match); reflexivity. Qed.

Lemma checkGrabCommand_outbid req ev d :
  outbid d → (checkGrabCommand req ev d).1.1 = Status.NONE.
Proof.
  intros H. unfold checkGrabCommand.
  destruct (decide (req = RequestEvent.GRAB));
    [apply checkActionCommand_status | by apply checkFocus_outbid].
Qed.

Lemma checkHover_outbid req r ev d :
  outbid d → Status.test (checkHover req r ev d).1.1 Status.FOCUSED = false.
Proof.
  intros H. unfold checkHover, checkGrabOut, checkGrabOver.
  repeat case_decide; repeat case_match; rewrite ?with_flag_eq; simpl;
    rewrite ?test_or;
    rewrite ?checkFocus_outbid, ?loseFocus_outbid, ?gainFocus_outbid,
      ?checkGrabCommand_outbid by (try apply outbid_set_idGrabbed; exact H);
    reflexivity.
Qed.

End FocusRequests.

(** ** Clipping of element rectangles *)

Section Clipping.

Import SDL.

Lemma intersect_within_l (A B : SDL_Rect) : within (SDL_IntersectRect A B) A.
Proof.
  intros pt. unfold SDL_IntersectRect, SDL_PointInRect.
  destruct (SDL_RectEmpty A || SDL_RectEmpty B); simpl; intros H;
    repeat (apply andb_prop in H; destruct H as [H ?]);
    repeat match goal with
           | H : (_ <=? _) = true |- _ => apply Z.leb_le in H
           | H : (_ <? _) = true |- _ => apply Z.ltb_lt in H
           end.
  - lia.
  - repeat (apply andb_true_intro; split);
      first [apply Z.leb_le | apply Z.ltb_lt]; lia.
Qed.

Lemma legacy_checkFocus_stack req id ev d :
  Legacy.elementStack (Legacy.checkFocus req id ev d).2 = Legacy.elementStack d.
Proof. unfold Legacy.checkFocus. repeat case_decide; reflexivity. Qed.

Lemma legacy_gainFocus_stack req id ev d :
  Legacy.elementStack (Legacy.gainFocus req id ev d).2 = Legacy.elementStack d.
Proof.
  unfold Legacy.gainFocus. repeat (case_decide || case_match);
    try apply legacy_checkFocus_stack; reflexivity.
Qed.

Lemma legacy_with_flag_eq flag o :
  Legacy.with_flag flag o = (Z.lor flag o.1.1, o.1.2, o.2).
Proof. by destruct o as [[s e] d]. Qed.

Lemma legacy_checkHover_stack req r id ev d :
  Legacy.elementStack (Legacy.checkHover req r id ev d).2 = Legacy.elementStack d.
Proof.
  unfold Legacy.checkHover, Legacy.checkGrabOut, Legacy.checkGrabOver.
  repeat (case_decide || case_match); rewrite ?legacy_with_flag_eq; simpl;
    rewrite ?legacy_checkFocus_stack, ?legacy_gainFocus_stack; reflexivity.
Qed.

(** [check] of the earlier revision appends one entry whose rectangle is
    the argument clipped against the parent's rectangle. *)
Lemma legacy_check_stack req r id d :
  ∃ s e,
    Legacy.elementStack (Legacy.check req r id d).2 =
    Legacy.elementStack d ++
    [Legacy.mkTarget
       match last (Legacy.elementStack d) with
       | Some parent => SDL_IntersectRect (Legacy.rect parent) r
       | None => r
       end s e].
Proof.
  unfold Legacy.check.
  set (r' := match last (Legacy.elementStack d) with
             | Some parent => SDL_IntersectRect (Legacy.rect parent) r
             | None => r
             end).
  destruct (decide (req = Legacy.RequestEvent.NONE)).
  - simpl. eauto.
  - pose proof (legacy_checkHover_stack req r' id Legacy.Event.NONE d) as H.
    destruct (Legacy.checkHover req r' id Legacy.Event.NONE d) as [[s e] d'].
    simpl in *. rewrite H. eauto.
Qed.

Lemma clipped_snoc st e :
  clipped st →
  (∀ p, last st = Some p → within (Legacy.rect e) (Legacy.rect p)) →
  clipped (st ++ [e]).
Proof.
  intros Hc Hl i p c Hp Hcx.
  destruct (decide (S i < length st)%nat) as [Hlt|Hge].
  - rewrite lookup_app_l in Hp by lia. rewrite lookup_app_l in Hcx by lia.
    eauto.
  - assert (S i = length st) as Hi.
    { apply lookup_lt_Some in Hcx. rewrite length_app in Hcx. simpl in Hcx. lia. }
    rewrite lookup_app_l in Hp by lia.
    rewrite lookup_app_r in Hcx by lia.
    replace (S i - length st)%nat with 0%nat in Hcx by lia. simpl in Hcx.
    injection Hcx as <-. apply Hl.
    rewrite last_lookup. rewrite <- Hi. simpl. exact Hp.
Qed.

Lemma clipped_removelast st : clipped st → clipped (removelast st).
Proof.
  intros Hc. destruct (last st) as [x|] eqn:Hl.
  - apply last_Some in Hl as [st' ->]. rewrite removelast_last.
    intros i p c Hp Hcx. apply (Hc i p c); apply lookup_app_l_Some; assumption.
  - apply last_None in Hl as ->. exact Hc.
Qed.

Lemma clipped_same_rect st i e e' :
  clipped st → st !! i = Some e → Legacy.rect e' = Legacy.rect e →
  clipped (<[ i := e' ]> st).
Proof.
  intros Hc He Hr j p c Hp Hcx.
  assert (∀ k x, <[ i := e' ]> st !! k = Some x →
                 ∃ x0, st !! k = Some x0 ∧ Legacy.rect x = Legacy.rect x0) as Hk.
  { intros k x Hx. destruct (decide (i = k)) as [<-|Hne].
    - rewrite list_lookup_insert_eq in Hx by (eapply lookup_lt_Some; eauto).
      injection Hx as <-. eauto.
    - rewrite list_lookup_insert_ne in Hx by assumption. eauto. }
  destruct (Hk _ _ Hp) as (p0 & Hp0 & ->).
  destruct (Hk _ _ Hcx) as (c0 & Hc0 & ->). eauto.
Qed.

(** Every call of the earlier revision keeps the stack clipped. *)
Lemma legacy_call_clipped c d d' :
  Legacy.call c d = Some d' →
  clipped (Legacy.elementStack d) → clipped (Legacy.elementStack d').
Proof.
  destruct c; simpl; intros H Hc.
  - by injection H as <-.
  - unfold Legacy.pressPointer in H. case_decide; [|discriminate].
    by injection H as <-.
  - unfold Legacy.releasePointer in H. case_decide; [|discriminate].
    by injection H as <-.
  - by injection H as <-.
  - injection H as <-.
    destruct (legacy_check_stack req rect id d) as (s & e & ->).
    apply clipped_snoc; [exact Hc|]. intros p ->. simpl.
    apply intersect_within_l.
  - unfold Legacy.popTarget in H.
    destruct (last (Legacy.elementStack d)); [|discriminate].
    injection H as <-. simpl. case_match; simpl; by apply clipped_removelast.
  - unfold Legacy.discard in H.
    destruct (Legacy.elementStack d !! index) as [el|] eqn:Hi; [|discriminate].
    injection H as <-. simpl. by eapply clipped_same_rect.
Qed.

(** No call of the earlier revision changes the rectangle of an entry that
    stays on the stack. *)
Lemma legacy_call_keeps_rect c d d' i e e' :
  Legacy.call c d = Some d' →
  Legacy.elementStack d !! i = Some e →
  Legacy.elementStack d' !! i = Some e' →
  Legacy.rect e' = Legacy.rect e.
Proof.
  destruct c; simpl; intros H He He'.
  - injection H as <-. simpl in He'. congruence.
  - unfold Legacy.pressPointer in H. case_decide; [|discriminate].
    injection H as <-. simpl in He'. congruence.
  - unfold Legacy.releasePointer in H. case_decide; [|discriminate].
    injection H as <-. simpl in He'. congruence.
  - injection H as <-. simpl in He'. congruence.
  - injection H as <-.
    destruct (legacy_check_stack req rect id d) as (s & x & Hst).
    rewrite Hst in He'. rewrite lookup_app_l in He'
      by (eapply lookup_lt_Some; eauto). congruence.
  - unfold Legacy.popTarget in H.
    destruct (last (Legacy.elementStack d)) as [x|] eqn:Hl; [|discriminate].
    injection H as <-.
    assert (removelast (Legacy.elementStack d) !! i = Some e') as He''
      by (case_match; exact He').
    apply last_Some in Hl as [st' Hst]. rewrite Hst in *.
    rewrite removelast_last in He''.
    assert ((st' ++ [x]) !! i = Some e') by (by apply lookup_app_l_Some).
    congruence.
  - unfold Legacy.discard in H.
    destruct (Legacy.elementStack d !! index) as [el|] eqn:Hi; [|discriminate].
    injection H as <-. simpl in He'.
    destruct (decide (index = i)) as [<-|Hne].
    + rewrite list_lookup_insert_eq in He' by (eapply lookup_lt_Some; eauto).
      injection He' as <-. simpl. congruence.
    + rewrite list_lookup_insert_ne in He' by assumption. congruence.
Qed.

Lemma legacy_run_clipped cs d d' :
  Legacy.run cs d = Some d' →
  clipped (Legacy.elementStack d) → clipped (Legacy.elementStack d').
Proof.
  revert d. induction cs as [|c cs IH]; intros d H Hc; simpl in H.
  - by injection H as <-.
  - destruct (Legacy.call c d) as [d1|] eqn:Hcall; [|discriminate].
    eapply IH; [exact H|]. by eapply legacy_call_clipped.
Qed.

(** The current revision stores the argument rectangle as it is. *)
Lemma core_check_stores_argument req r id d i d' :
  Core.check req r id d = Some (i, d') →
  ∃ e, last (Core.elementStack d') = Some e ∧ Core.rect e = r.
Proof.
  unfold Core.check. intros H.
  repeat (case_decide || case_match); simplify_eq/=;
    rewrite last_snoc; eauto.
Qed.

(** C5, as the code has it.  In the earlier revision of the header
    ([include/boto-ui/core/EventDispatcher.hpp]) [check] on a non-empty stack
    stores the intersection of the argument rectangle with the parent entry's
    rectangle, which lies inside the parent's rectangle; no call changes the
    rectangle of an open entry afterwards; hence in every state reached from
    a value-initialised dispatcher each entry lies inside the entry below it.
    The current revision stores the argument rectangle unchanged. *)
Theorem C5_rect_clipping :
  (∀ req r id d parent,
     last (Legacy.elementStack d) = Some parent →
     ∃ e, last (Legacy.elementStack (Legacy.check req r id d).2) = Some e ∧
          Legacy.rect e = SDL_IntersectRect (Legacy.rect parent) r ∧
          within (Legacy.rect e) (Legacy.rect parent)) ∧
  (∀ c d d' i e e',
     Legacy.call c d = Some d' →
     Legacy.elementStack d !! i = Some e →
     Legacy.elementStack d' !! i = Some e' →
     Legacy.rect e' = Legacy.rect e) ∧
  (∀ cs d,
     Legacy.run cs Legacy.initial = Some d →
     clipped (Legacy.elementStack d)) ∧
  (∀ req r id d i d',
     Core.check req r id d = Some (i, d') →
     ∃ e, last (Core.elementStack d') = Some e ∧ Core.rect e = r).
Proof.
  split_and!.
  - intros req r id d parent Hp.
    destruct (legacy_check_stack req r id d) as (s & e & ->).
    rewrite Hp, last_snoc. eexists. split; [reflexivity|]. simpl.
    split; [reflexivity|apply intersect_within_l].
  - intros. by eapply legacy_call_keeps_rect.
  - intros cs d H. eapply legacy_run_clipped; [exact H|].
    intros i p c Hp. simpl in Hp. by rewrite lookup_nil in Hp.
  - apply core_check_stores_argument.
Qed.

(** In the earlier revision the child {5,5,20,20} of the parent
    {0,0,10,10} is stored as {5,5,5,5}. *)
Lemma C5_rect_clipping_witness :
  let d := (Legacy.check Legacy.RequestEvent.HOVER (Rect 0 0 10 10) "p"
              Legacy.initial).2 in
  ∃ e,
    last (Legacy.elementStack
            (Legacy.check Legacy.RequestEvent.HOVER (Rect 5 5 20 20) "c" d).2)
    = Some e ∧
    Legacy.rect e = Rect 5 5 5 5.
Proof.
  destruct (proj1 C5_rect_clipping Legacy.RequestEvent.HOVER (Rect 5 5 20 20)
              "c"
              (Legacy.check Legacy.RequestEvent.HOVER (Rect 0 0 10 10) "p"
                 Legacy.initial).2
              (Legacy.mkTarget (Rect 0 0 10 10) 1 Legacy.Event.NONE) eq_refl)
    as (e & H1 & H2 & _).
  exists e. split; [exact H1|]. rewrite H2. reflexivity.
Defined.

(** C5 fails as worded on the current revision: the child {5,5,20,20} of the
    parent {0,0,10,10} is stored unclipped; the stored rectangle is not the
    intersection {5,5,5,5}, and the point (15,15) lies in the child's
    rectangle but not in the parent's. *)
Lemma C5_counterexample :
  ∃ d p c,
    Core.run c5_nested Core.initial = Some d ∧
    Core.elementStack d = [p; c] ∧
    Core.rect c = Rect 5 5 20 20 ∧
    SDL_IntersectRect (Core.rect p) (Rect 5 5 20 20) = Rect 5 5 5 5 ∧
    Core.rect c ≠ SDL_IntersectRect (Core.rect p) (Rect 5 5 20 20) ∧
    ¬ within (Core.rect c) (Core.rect p).
Proof.
  eexists _, _, _. split; [vm_compute; reflexivity|].
  split; [reflexivity|]. split; [reflexivity|]. split; [reflexivity|].
  split; [discriminate|].
  intros H. specialize (H (Point 15 15) eq_refl). discriminate H.
Qed.

End Clipping.

(** ** Exclusive grab *)

Section ExclusiveGrab.

Import SDL Core.

(** *** Path lengths *)

Lemma pathlen_app st e : pathlen (st ++ [e]) = (pathlen st + S (idLength e))%nat.
Proof. unfold pathlen. rewrite sum_list_with_app. simpl. lia. Qed.

Lemma pathlen_take_le n st : (pathlen (take n st) ≤ pathlen st)%nat.
Proof.
  rewrite <- (take_drop n st) at 2. unfold pathlen.
  rewrite sum_list_with_app. lia.
Qed.

Lemma pathlen_weaker st st' :
  Forall2 weaker_entry st' st → ∀ n, pathlen (take n st') = pathlen (take n st).
Proof.
  intros H. unfold pathlen.
  induction H as [|a b st' st [Hl _] _ IH]; intros n; [reflexivity|].
  destruct n as [|n]; [reflexivity|]. simpl. by rewrite Hl, IH.
Qed.

Lemma qualified_length id d :
  (elementStack d ≠ [] →
   S (String.length (idCurrent d)) = pathlen (elementStack d)) →
  S (String.length (qualified id d)) =
  (pathlen (elementStack d) + S (String.length id))%nat.
Proof.
  unfold qualified.
  destruct (elementStack d) as [|e st]; intros H; [reflexivity|].
  specialize (H ltac:(discriminate)).
  rewrite !length_append. simpl String.length. lia.
Qed.

(** *** Preservation of the frame invariant *)

Lemma weaker_entry_refl e : weaker_entry e e.
Proof. by split. Qed.

(** Clearing flags on entries, or dropping entries from the top, keeps the
    grab bounds and the uniqueness of [GRABBED]. *)
Lemma grab_facts_weaken g st st' :
  Forall2 weaker_entry st' (take (length st') st) →
  grab_bounded g st → at_most_one Status.GRABBED st →
  grab_bounded g st' ∧ at_most_one Status.GRABBED st'.
Proof.
  intros Hw Hb Ho.
  assert (∀ k e', st' !! k = Some e' →
                  ∃ e, st !! k = Some e ∧ weaker_entry e' e) as Hlk.
  { intros k e' Hk.
    destruct (Forall2_lookup_l _ _ _ _ _ Hw Hk) as (e & He & Hr).
    apply lookup_take_Some in He as [He _]. eauto. }
  split.
  - intros k e' Hk Hg.
    destruct (Hlk _ _ Hk) as (e & He & Hl & Hf).
    rewrite (pathlen_weaker _ _ Hw).
    rewrite take_take.
    assert (k < length st')%nat by (eapply lookup_lt_Some; eauto).
    replace (S k `min` length st')%nat with (S k) by lia.
    apply (Hb k e He). auto.
  - intros i j ei ej Hi Hj Gi Gj.
    destruct (Hlk _ _ Hi) as (ei0 & Hei & _ & Hfi).
    destruct (Hlk _ _ Hj) as (ej0 & Hej & _ & Hfj).
    eapply (Ho i j); eauto.
Qed.

Lemma Forall2_weaker_refl st : Forall2 weaker_entry st st.
Proof. induction st; constructor; auto using weaker_entry_refl. Qed.

Lemma Forall2_weaker_insert st i e e' :
  st !! i = Some e → weaker_entry e' e →
  Forall2 weaker_entry (<[ i := e' ]> st) st.
Proof.
  intros Hi Hw. apply Forall2_same_length_lookup_2.
  - by rewrite length_insert.
  - intros k a b Ha Hb. destruct (decide (i = k)) as [<-|Hne].
    + rewrite list_lookup_insert_eq in Ha by (eapply lookup_lt_Some; eauto).
      congruence.
    + rewrite list_lookup_insert_ne in Ha by assumption.
      assert (a = b) as -> by congruence. apply weaker_entry_refl.
Qed.

(** An update that leaves pointer masks and ids alone and only clears
    flags keeps the invariant. *)
Lemma frame_inv_weaken d d' :
  frame_inv d →
  pointerPressed d' = pointerPressed d →
  pointerReleased d' = pointerReleased d →
  idGrabbed d' = idGrabbed d →
  idCurrent d' = idCurrent d →
  Forall2 weaker_entry (elementStack d') (elementStack d) →
  frame_inv d'.
Proof.
  intros [Hm Hp Hb Ho] Hpp Hpr Hg Hc Hw.
  assert (length (elementStack d') = length (elementStack d)) as Hlen
    by (by eapply Forall2_length).
  destruct (grab_facts_weaken (idGrabbed d) (elementStack d) (elementStack d'))
    as [Hb' Ho']; try assumption.
  { rewrite Hlen, firstn_all. exact Hw. }
  split.
  - unfold no_fresh_press. rewrite Hpp, Hpr. exact Hm.
  - intros Hne. rewrite Hc.
    rewrite <- (firstn_all (elementStack d')).
    rewrite (pathlen_weaker _ _ Hw), Hlen, firstn_all. apply Hp.
    intros E. rewrite E in Hlen. by destruct (elementStack d').
  - by rewrite Hg.
  - exact Ho'.
Qed.

(** Pushing an entry whose [GRABBED] flag, if set, belongs to the holder of
    the grabbed id keeps the invariant. *)
Lemma frame_inv_push d d' e id :
  frame_inv d →
  pointerPressed d' = pointerPressed d →
  pointerReleased d' = pointerReleased d →
  elementStack d' = elementStack d ++ [e] →
  idLength e = String.length id →
  idCurrent d' = qualified id d →
  grab_kept d d' →
  (Status.test (status e) Status.GRABBED = true →
   idGrabbed d = qualified id d) →
  frame_inv d'.
Proof.
  intros [Hm Hp Hb Ho] Hpp Hpr Hst Hl Hc Hk Hg.
  pose proof (qualified_length id d Hp) as Hq.
  assert (∀ k x, elementStack d !! k = Some x →
                 Status.test (status x) Status.GRABBED = true →
                 (String.length (idGrabbed d) < pathlen (elementStack d))%nat)
    as Hold.
  { intros k x Hx Gx. specialize (Hb k x Hx Gx).
    pose proof (pathlen_take_le (S k) (elementStack d)). lia. }
  assert (∀ k x, (elementStack d ++ [e]) !! k = Some x →
                 (k < length (elementStack d))%nat ∧ elementStack d !! k = Some x ∨
                 k = length (elementStack d) ∧ x = e) as Hcase.
  { intros k x Hx. destruct (decide (k < length (elementStack d))%nat).
    - left. split; [done|]. by rewrite lookup_app_l in Hx.
    - right. assert (k = length (elementStack d)) as ->.
      { apply lookup_lt_Some in Hx. rewrite length_app in Hx. simpl in Hx. lia. }
      rewrite list_lookup_middle in Hx by reflexivity. split; congruence. }
  split.
  - unfold no_fresh_press. rewrite Hpp, Hpr. exact Hm.
  - intros _. rewrite Hc, Hst, pathlen_app, Hl. exact Hq.
  - rewrite Hst. intros k x Hx Gx.
    assert (String.length (idGrabbed d') ≤ String.length (idGrabbed d))%nat as Hle.
    { destruct Hk as [->| ->]; simpl; lia. }
    destruct (Hcase _ _ Hx) as [[Hlt Hx']|[-> ->]].
    + rewrite take_app_le by lia. specialize (Hb k x Hx' Gx). lia.
    + rewrite take_ge by (rewrite length_app; simpl; lia).
      rewrite pathlen_app, Hl. rewrite (Hg Gx) in Hle. lia.
  - rewrite Hst. intros i j ei ej Hi Hj Gi Gj.
    destruct (Hcase _ _ Hi) as [[Hlti Hi']|[-> ->]];
      destruct (Hcase _ _ Hj) as [[Hltj Hj']|[-> ->]].
    + by eapply (Ho i j).
    + exfalso. specialize (Hold _ _ Hi' Gi). rewrite (Hg Gj) in Hold. lia.
    + exfalso. specialize (Hold _ _ Hj' Gj). rewrite (Hg Gi) in Hold. lia.
    + reflexivity.
Qed.

Lemma check_frame_inv req r id d i d' :
  frame_inv d → check req r id d = Some (i, d') → frame_inv d'.
Proof.
  intros Hinv H. unfold check in H.
  set (d0 := set_idCurrent (qualified id d) d) in *.
  assert (match elementStack d with
          | [] => set_idCurrent id d
          | _ :: _ =>
              set_idCurrent
                (idCurrent d +:+ String groupNameSeparator "" +:+ id) d
          end = d0) as E0.
  { unfold d0, qualified. by destruct (elementStack d). }
  rewrite E0 in H. clear E0.
  destruct (decide (req = RequestEvent.NONE)).
  - injection H as _ <-.
    eapply (frame_inv_push d _ _ id); eauto; try reflexivity.
    + by left.
    + simpl. discriminate.
  - destruct (decide (id = "" ∧ req ≠ RequestEvent.HOVER)); [discriminate|].
    pose proof (checkHover_stable req r Event.NONE d0) as St.
    pose proof (checkHover_grab req r Event.NONE d0 (inv_mask _ Hinv)) as [Gk Gg].
    destruct (checkHover req r Event.NONE d0) as [[s e] d1].
    destruct St as (S1 & S2 & S3 & S4 & S5 & S6 & S7). simpl in *.
    injection H as _ <-.
    eapply (frame_inv_push d _ _ id); eauto; simpl;
      first [done | by rewrite S1 | exact Gg | idtac].
Qed.

Lemma weaker_entry_popped hadGrab hadFocus sup :
  weaker_entry
    (let s1 :=
       if hadGrab : bool then
         let s := set_status (Status.reset (status sup) Status.GRABBED) sup in
         if decide (event s = Event.GRAB) then set_event Event.NONE s else s
       else sup in
     if hadFocus : bool then
       let s := set_status (Status.reset (status s1) Status.FOCUSED) s1 in
       if decide (event s = Event.FOCUS_GAINED) then set_event Event.NONE s
       else set_event Event.FOCUS_LOST s
     else s1)
    sup.
Proof.
  destruct hadGrab, hadFocus; simpl; repeat case_decide; simpl;
    split; try reflexivity; simpl; intros f Hf;
    repeat (apply test_reset_weaken in Hf); exact Hf.
Qed.

Lemma popTarget_frame_inv d d' :
  frame_inv d → popTarget d = Some d' → frame_inv d'.
Proof.
  intros Hinv H. unfold popTarget in H.
  destruct (last (elementStack d)) as [el|] eqn:Hl; [|discriminate].
  apply last_Some in Hl as [st' Hst].
  rewrite Hst, removelast_last in H. cbv zeta in H.
  set (d1 := if Status.test (status el) Status.HOVERED
             then set_hadHover true (set_elementStack st' d)
             else set_elementStack st' d) in *.
  assert (elementStack d1 = st') as E1
    by (unfold d1; destruct (Status.test _ _); reflexivity).
  assert (idCurrent d1 = idCurrent d) as E2
    by (unfold d1; destruct (Status.test _ _); reflexivity).
  assert (idGrabbed d1 = idGrabbed d) as E3
    by (unfold d1; destruct (Status.test _ _); reflexivity).
  assert (pointerPressed d1 = pointerPressed d) as E4
    by (unfold d1; destruct (Status.test _ _); reflexivity).
  assert (pointerReleased d1 = pointerReleased d) as E5
    by (unfold d1; destruct (Status.test _ _); reflexivity).
  clearbody d1.
  destruct Hinv as [Hm Hp Hb Ho].
  destruct (grab_facts_weaken (idGrabbed d) (elementStack d) st') as [Hb' Ho'];
    try assumption.
  { rewrite Hst, take_app_length. apply Forall2_weaker_refl. }
  rewrite E1 in H.
  destruct (last st') as [sup|] eqn:Hl'.
  - rewrite E2 in H.
    destruct (decide (String.length (idCurrent d) < idLength el + 1)%nat);
      [discriminate|].
    set (d2 := set_idCurrent _ d1) in *.
    assert (frame_inv d2) as Hinv2.
    { split; unfold d2; simpl.
      - unfold no_fresh_press. simpl. rewrite E4, E5. exact Hm.
      - rewrite E1. intros _. rewrite length_resize.
        rewrite Hst, pathlen_app in Hp.
        specialize (Hp ltac:(by destruct st')). lia.
      - by rewrite E1, E3.
      - by rewrite E1. }
    assert (elementStack d2 = st') as E1' by exact E1.
    clearbody d2.
    destruct (negb (Status.test (status el) Status.GRABBED) &&
              negb (Status.test (status el) Status.FOCUSED)).
    + by injection H as <-.
    + injection H as <-.
      eapply (frame_inv_weaken d2); try exact Hinv2; try reflexivity.
      simpl. unfold set_back. rewrite ?E1, ?E1'.
      eapply Forall2_weaker_insert; [|apply weaker_entry_popped].
      rewrite last_lookup in Hl'.
      replace (length st' - 1)%nat with (pred (length st')) by lia. exact Hl'.
  - injection H as <-. apply last_None in Hl'. subst st'.
    split; simpl; rewrite ?E1.
    + unfold no_fresh_press. simpl. rewrite E4, E5. exact Hm.
    + done.
    + intros k x Hx. by rewrite lookup_nil in Hx.
    + intros i j x y Hx. by rewrite lookup_nil in Hx.
Qed.

Lemma tryFocus_frame_inv q d : frame_inv d → frame_inv (tryFocus q d).2.
Proof.
  intros H. unfold tryFocus. repeat case_decide; simpl; try exact H;
    (eapply frame_inv_weaken; [exact H|..]; try reflexivity;
     apply Forall2_weaker_refl).
Qed.

Lemma weaker_entry_discard e : weaker_entry (discard_state e) e.
Proof.
  unfold discard_state. repeat (case_match || case_decide); simpl;
    split; try reflexivity; simpl; intros f Hf;
    try (apply test_reset_weaken in Hf); exact Hf.
Qed.

Lemma insert_frame_inv i e e' d :
  frame_inv d → elementStack d !! i = Some e → weaker_entry e' e →
  frame_inv (set_elementStack (<[ i := e' ]> (elementStack d)) d).
Proof.
  intros H Hi Hw. eapply frame_inv_weaken; [exact H|..]; try reflexivity.
  simpl. by eapply Forall2_weaker_insert.
Qed.

Lemma discard_frame_inv i d d' :
  frame_inv d → discard i d = Some d' → frame_inv d'.
Proof.
  intros H Hd. unfold discard in Hd.
  destruct (elementStack d !! i) as [e|] eqn:Hi; [|discriminate].
  injection Hd as <-. eapply insert_frame_inv; eauto using weaker_entry_discard.
Qed.

Lemma weaker_entry_set_rect r e : weaker_entry (set_rect r e) e.
Proof. by split. Qed.

Lemma shrinkWidth_frame_inv i w' d d' :
  frame_inv d → shrinkWidth i w' d = Some d' → frame_inv d'.
Proof.
  intros H Hs. unfold shrinkWidth in Hs.
  destruct (elementStack d !! i) as [e|] eqn:Hi; [|discriminate].
  cbv zeta in Hs.
  pose proof (insert_frame_inv i e _ d H Hi
                (weaker_entry_set_rect
                   (Rect (rx (rect e)) (ry (rect e)) w' (h (rect e))) e)) as H1.
  case_decide; [by eapply discard_frame_inv|]. by injection Hs as <-.
Qed.

Lemma shrinkHeight_frame_inv i h' d d' :
  frame_inv d → shrinkHeight i h' d = Some d' → frame_inv d'.
Proof.
  intros H Hs. unfold shrinkHeight in Hs.
  destruct (elementStack d !! i) as [e|] eqn:Hi; [|discriminate].
  cbv zeta in Hs.
  pose proof (insert_frame_inv i e _ d H Hi
                (weaker_entry_set_rect
                   (Rect (rx (rect e)) (ry (rect e)) (w (rect e)) h') e)) as H1.
  case_decide; [by eapply discard_frame_inv|]. by injection Hs as <-.
Qed.

Lemma shrink_frame_inv i w' h' d d' :
  frame_inv d → shrink i w' h' d = Some d' → frame_inv d'.
Proof.
  intros H Hs. unfold shrink in Hs.
  destruct (elementStack d !! i) as [e|] eqn:Hi; [|discriminate].
  cbv zeta in Hs.
  pose proof (insert_frame_inv i e _ d H Hi
                (weaker_entry_set_rect
                   (Rect (rx (rect e)) (ry (rect e)) w' h') e)) as H1.
  case_decide; [by eapply discard_frame_inv|]. by injection Hs as <-.
Qed.

Lemma call_frame_inv c d d' :
  in_frame c = true → frame_inv d → call c d = Some d' → frame_inv d'.
Proof.
  destruct c as [| | | | | |q|req r id| | | | |]; simpl; try discriminate;
    intros _ H Hc.
  - injection Hc as <-. by apply tryFocus_frame_inv.
  - destruct (check req r id d) as [[i d1]|] eqn:E; [|discriminate].
    injection Hc as <-. by eapply check_frame_inv.
  - by eapply popTarget_frame_inv.
  - by eapply shrinkWidth_frame_inv.
  - by eapply shrinkHeight_frame_inv.
  - by eapply shrink_frame_inv.
  - by eapply discard_frame_inv.
Qed.

Lemma run_frame_inv cs d d' :
  forallb in_frame cs = true → frame_inv d → run cs d = Some d' → frame_inv d'.
Proof.
  revert d. induction cs as [|c cs IH]; simpl; intros d Hf H Hr.
  - by injection Hr as <-.
  - apply andb_prop in Hf as [Hc Hcs].
    destruct (call c d) as [d1|] eqn:E; [|discriminate].
    apply (IH d1); [exact Hcs | by eapply call_frame_inv | exact Hr].
Qed.

Lemma frame_inv_start d :
  elementStack d = [] → no_fresh_press d → frame_inv d.
Proof.
  intros E H. split; rewrite ?E; done.
Qed.

(** [popTarget] hands the loss of grab and focus to the parent. *)
Lemma popTarget_clears_parent d d' st p c :
  elementStack d = st ++ [p; c] → popTarget d = Some d' →
  ∃ p', elementStack d' = st ++ [p'] ∧
        (Status.test (status c) Status.GRABBED = true →
         Status.test (status p') Status.GRABBED = false) ∧
        (Status.test (status c) Status.FOCUSED = true →
         Status.test (status p') Status.FOCUSED = false).
Proof.
  intros Hst H. unfold popTarget in H.
  change (st ++ [p; c]) with (st ++ [p] ++ [c]) in Hst.
  rewrite app_assoc in Hst.
  rewrite Hst, last_snoc, removelast_last in H. cbv zeta in H.
  set (d1 := if Status.test (status c) Status.HOVERED
             then set_hadHover true (set_elementStack (st ++ [p]) d)
             else set_elementStack (st ++ [p]) d) in *.
  assert (elementStack d1 = st ++ [p]) as E1
   
    by (unfold d1; destruct (Status.test _ _); reflexivity).
  clearbody d1. rewrite E1, last_snoc in H.
  case_decide; [discriminate|].
  assert (∀ x, set_back x (st ++ [p]) = st ++ [x]) as Hback.
  { intros x. unfold set_back. rewrite length_app. simpl.
    replace (length st + 1 - 1)%nat with (length st + 0)%nat by lia.
    by rewrite insert_app_r. }
  destruct (Status.test (status c) Status.GRABBED) eqn:Hg;
    destruct (Status.test (status c) Status.FOCUSED) eqn:Hf; simpl in H;
    injection H as <-; simpl; rewrite ?E1, ?Hback;
    eexists; (split; [reflexivity|]);
    repeat case_decide; simpl; split; intros; try discriminate;
    rewrite ?test_reset_same; try reflexivity;
    rewrite test_reset_other by reflexivity; apply test_reset_same.
Qed.

(** C2, as the code has it.  Each of the grabbed id and the focused id is
    one string.  Nested open entries can carry [GRABBED] (or [FOCUSED]) at the
    same time; [popTarget] clears the flag on the new top when the popped
    entry carried it.  In a frame without a fresh press of exactly the
    primary button, at most one entry of the element stack carries [GRABBED]
    after any sequence of [check], [popTarget], [tryFocus] and handle
    calls. *)
Theorem C2_exclusive_grab :
  (∀ cs d0 d,
     elementStack d0 = [] → no_fresh_press d0 →
     forallb in_frame cs = true → run cs d0 = Some d →
     at_most_one Status.GRABBED (elementStack d)) ∧
  (∀ d d' st p c,
     elementStack d = st ++ [p; c] → popTarget d = Some d' →
     ∃ p', elementStack d' = st ++ [p'] ∧
           (Status.test (status c) Status.GRABBED = true →
            Status.test (status p') Status.GRABBED = false) ∧
           (Status.test (status c) Status.FOCUSED = true →
            Status.test (status p') Status.FOCUSED = false)) ∧
  (∀ d q1 q2,
     (idGrabbed d = q1 → idGrabbed d = q2 → q1 = q2) ∧
     (idFocus d = q1 → idFocus d = q2 → q1 = q2)).
Proof.
  split_and!.
  - intros cs d0 d E Hnf Hcs Hr.
    apply inv_one. eapply run_frame_inv; eauto using frame_inv_start.
  - apply popTarget_clears_parent.
  - intros d q1 q2. split; congruence.
Qed.

(** A grabbed button "btn" seen again in the next frame, button still
    down. *)
Lemma C2_exclusive_grab_witness :
  ∃ d, run c2_held_nested (set_idGrabbed "panel/btn" initial) = Some d ∧
       at_most_one Status.GRABBED (elementStack d).
Proof.
  eexists. split; [vm_compute; reflexivity|].
  apply (proj1 C2_exclusive_grab c2_held_nested
           (set_idGrabbed "panel/btn" initial));
    [reflexivity | intros [E _]; discriminate E | reflexivity
    | vm_compute; reflexivity].
Defined.

(** C2 fails as worded: after a press over a parent and its child both
    entries carry [GRABBED]; and when focus moves from "p" to its child both
    entries carry [FOCUSED]. *)
Lemma C2_counterexample :
  (∃ d p c,
     run c2_nested_press initial = Some d ∧ elementStack d = [p; c] ∧
     Status.test (status p) Status.GRABBED = true ∧
     Status.test (status c) Status.GRABBED = true ∧
     ¬ at_most_one Status.GRABBED (elementStack d)) ∧
  (∃ d p c,
     run c2_nested_focus initial = Some d ∧ elementStack d = [p; c] ∧
     Status.test (status p) Status.FOCUSED = true ∧
     Status.test (status c) Status.FOCUSED = true ∧
     ¬ at_most_one Status.FOCUSED (elementStack d)).
Proof.
  split; eexists _, _, _;
    (split; [vm_compute; reflexivity|]);
    (split; [reflexivity|]);
    (split; [reflexivity|]);
    (split; [reflexivity|]);
    intros H;
    specialize (H 0%nat 1%nat _ _ eq_refl eq_refl eq_refl eq_refl);
    discriminate H.
Qed.

End ExclusiveGrab.

(** * Further properties of the current revision *)

(** ** Pointer buttons *)

Section PointerButtons.

Import SDL Core.

Lemma land_pow2_testbit (x b : Z) :
  0 <= b → (Z.land x (2 ^ b) =? 0) = negb (Z.testbit x b).
Proof.
  intros Hb. destruct (Z.testbit x b) eqn:T; simpl.
  - apply Z.eqb_neq. intros E.
    assert (Z.testbit (Z.land x (2 ^ b)) b = false) as F
      by (rewrite E; apply Z.bits_0).
    rewrite Z.land_spec, T, Z.pow2_bits_true in F by lia. discriminate.
  - apply Z.eqb_eq. apply Z.bits_inj'. intros n Hn.
    rewrite Z.land_spec, Z.bits_0.
    destruct (Z.eq_dec n b) as [->|Hne].
    + rewrite T. reflexivity.
    + rewrite Z.pow2_bits_false by lia. apply andb_false_r.
Qed.

Lemma to_Uint32_pow2 (b : Z) : 0 <= b < 32 → to_Uint32 (Z.shiftl 1 b) = 2 ^ b.
Proof.
  intros Hb. unfold to_Uint32. rewrite Z.shiftl_1_l.
  apply Z.mod_small. split; [apply Z.pow_nonneg; lia|].
  apply Z.pow_lt_mono_r; lia.
Qed.

Lemma isPointerPressed_eq (b : Z) (d : EventDispatcher) :
  0 <= b < 32 →
  isPointerPressed b d =
  Some ((pointerReleased d =? 0) && Z.testbit (pointerPressed d) b).
Proof.
  intros Hb. unfold isPointerPressed.
  destruct (decide (0 <= b < 32)); [|contradiction].
  rewrite to_Uint32_pow2, land_pow2_testbit by lia.
  by rewrite negb_involutive.
Qed.

(** X1.  While nothing has been released in the frame, [pressPointer b]
    makes [isPointerPressed b] true and keeps every button that was reported
    pressed. *)
Theorem pressPointer_isPointerPressed (b : Z) (d : EventDispatcher) :
  0 <= b < 32 → pointerReleased d = 0 →
  ∃ d', pressPointer b d = Some d' ∧
        isPointerPressed b d' = Some true ∧
        ∀ b', 0 <= b' < 32 → isPointerPressed b' d = Some true →
              isPointerPressed b' d' = Some true.
Proof.
  intros Hb Hr. unfold pressPointer.
  destruct (decide (0 <= b < 32)); [|contradiction].
  eexists. split; [reflexivity|]. split.
  - rewrite isPointerPressed_eq by lia. simpl. rewrite Hr. simpl.
    rewrite to_Uint32_testbit by lia.
    rewrite Z.lor_spec, Z.shiftl_spec by lia.
    replace (b - b) with 0 by lia. by rewrite orb_true_r.
  - intros b' Hb'. rewrite !isPointerPressed_eq by lia. simpl.
    rewrite Hr. simpl. intros H. injection H as H.
    rewrite to_Uint32_testbit by lia. by rewrite Z.lor_spec, H.
Qed.

Lemma pressPointer_isPointerPressed_witness :
  ∃ d', pressPointer 2 (set_pointerPressed 1 initial) = Some d' ∧
        isPointerPressed 2 d' = Some true ∧
        isPointerPressed 0 d' = Some true.
Proof.
  destruct (pressPointer_isPointerPressed 2 (set_pointerPressed 1 initial))
    as (d' & H1 & H2 & H3); [lia | reflexivity |].
  exists d'. split_and!; [exact H1 | exact H2 |].
  apply H3; [lia | reflexivity].
Defined.

(** X2.  After [releasePointer] of any button no button is reported
    pressed, whatever was pressed before. *)
Theorem releasePointer_hides_pressed (b b' : Z) (d : EventDispatcher) :
  0 <= b < 32 → 0 <= b' < 32 →
  ∃ d', releasePointer b d = Some d' ∧ isPointerPressed b' d' = Some false.
Proof.
  intros Hb Hb'. unfold releasePointer.
  destruct (decide (0 <= b < 32)); [|contradiction].
  eexists. split; [reflexivity|].
  rewrite isPointerPressed_eq by lia. simpl.
  replace (to_Uint32 (Z.lor (pointerReleased d) (Z.shiftl 1 b)) =? 0)
    with false; [reflexivity|].
  symmetry. apply Z.eqb_neq. intros E.
  assert (Z.testbit (to_Uint32 (Z.lor (pointerReleased d) (Z.shiftl 1 b))) b
          = false) as F by (rewrite E; apply Z.bits_0).
  rewrite to_Uint32_testbit, Z.lor_spec, Z.shiftl_spec in F by lia.
  replace (b - b) with 0 in F by lia. simpl in F.
  rewrite orb_true_r in F. discriminate.
Qed.

Lemma releasePointer_hides_pressed_witness :
  ∃ d', releasePointer 0 (set_pointerPressed 1 initial) = Some d' ∧
        isPointerPressed 0 d' = Some false.
Proof.
  apply (releasePointer_hides_pressed 0 0 (set_pointerPressed 1 initial)); lia.
Defined.

End PointerButtons.

(** ** Frame boundary and text input, continued *)

Section ResetAndInput.

Import SDL Core.

(** X3.  [reset] ends the frame without dropping the grab: the grabbed id
    survives, so [wantsMouse] afterwards tells whether a grab is held; no
    button is reported pressed, the pending command and text are gone; and an
    element is active afterwards iff it was active and was not scheduled to
    lose focus. *)
Theorem reset_keeps_grab_and_live_focus (d r : EventDispatcher) :
  reset d = Some r →
  idGrabbed r = idGrabbed d ∧
  wantsMouse r = negb (Str.empty (idGrabbed d)) ∧
  (∀ b, 0 <= b < 32 → isPointerPressed b r = Some false) ∧
  nextCommand r = Command.NONE ∧ inputBuffer r = "" ∧
  (∀ id, id ≠ "" →
         (isActive id r = true ↔
          isActive id d = true ∧ idLosingFocus d ≠ id)).
Proof.
  intros H.
  assert (elementStack d = []) as Hst.
  { unfold reset in H. by destruct (elementStack d). }
  rewrite reset_eq in H by exact Hst. injection H as <-.
  split_and!; try reflexivity.
  - intros b Hb. rewrite isPointerPressed_eq by lia. simpl.
    by rewrite Z.bits_0.
  - intros id Hid. unfold isActive. simpl.
    rewrite !bool_decide_eq_true.
    destruct (decide (idLosingFocus d = idFocus d)) as [E|E]; split.
    + intros <-. contradiction.
    + intros [<- N]. congruence.
    + intros <-. done.
    + by intros [<- _].
Qed.

Lemma reset_keeps_grab_and_live_focus_witness :
  ∃ r, reset (set_idGrabbed "btn" (set_idFocus "box" initial)) = Some r ∧
       idGrabbed r = "btn" ∧ wantsMouse r = true ∧ isActive "box" r = true.
Proof.
  exists (set_idGrabbed "btn" (set_idFocus "box" initial)).
  destruct (reset_keeps_grab_and_live_focus
              (set_idGrabbed "btn" (set_idFocus "box" initial))
              (set_idGrabbed "btn" (set_idFocus "box" initial)) eq_refl)
    as (H1 & H2 & _ & _ & _ & H3).
  split_and!; [reflexivity | exact H1 | exact H2 |].
  apply H3; [discriminate|]. split; [reflexivity|discriminate].
Defined.

Lemma append_assoc (a b c : string) : (a +:+ b) +:+ c = a +:+ (b +:+ c).
Proof.
  induction a as [|x a IH]; [reflexivity|].
  change (String x a +:+ b) with (String x (a +:+ b)).
  change (String x (a +:+ b) +:+ c) with (String x ((a +:+ b) +:+ c)).
  change (String x a +:+ (b +:+ c)) with (String x (a +:+ (b +:+ c))).
  by rewrite IH.
Qed.

Lemma input_plain (t : string) (d : EventDispatcher) :
  nextCommand d = Command.NONE →
  input t d = set_inputBuffer (inputBuffer d +:+ t) d.
Proof.
  intros Hc. unfold input. rewrite Hc.
  destruct (decide (Command.NONE = Command.SPACE)); [discriminate|].
  destruct (decide (Command.NONE = Command.BACKSPACE)); [discriminate|].
  reflexivity.
Qed.

(** X4.  With no command pending, feeding text in two pieces is the same
    as feeding the concatenation. *)
Theorem input_pieces_compose (t1 t2 : string) (d : EventDispatcher) :
  nextCommand d = Command.NONE →
  input t2 (input t1 d) = input (t1 +:+ t2) d.
Proof.
  intros Hc.
  rewrite (input_plain (t1 +:+ t2)), (input_plain t1) by exact Hc.
  rewrite input_plain by exact Hc.
  unfold set_inputBuffer. simpl. by rewrite append_assoc.
Qed.

Lemma input_pieces_compose_witness :
  input "lo" (input "hel" initial) = input "hello" initial.
Proof. apply (input_pieces_compose "hel" "lo" initial). reflexivity. Defined.

(** X5.  [input] consumes a pending edit command.  A pending [SPACE] puts
    exactly one space in front of the text, and none in addition when the
    text is itself a single space; a pending [BACKSPACE] on a non-empty
    buffer replaces the last byte of the buffer by the text.  In both cases
    the command is [NONE] afterwards. *)
Theorem input_consumes_edit_command (text : string) (d : EventDispatcher) :
  (nextCommand d = Command.SPACE →
     nextCommand (input text d) = Command.NONE ∧
     inputBuffer (input text d) =
     inputBuffer d +:+ " " +:+ (if decide (text = " ") then "" else text)) ∧
  (nextCommand d = Command.BACKSPACE → inputBuffer d ≠ "" →
     nextCommand (input text d) = Command.NONE ∧
     ∃ c b, inputBuffer d = b +:+ String c "" ∧
            inputBuffer (input text d) = b +:+ text).
Proof.
  split.
  - intros Hc. unfold input. rewrite Hc.
    destruct (decide (Command.SPACE = Command.SPACE)); [|done]. simpl.
    destruct (decide (text = " ")); simpl; split; try reflexivity.
    apply append_assoc.
  - intros Hc Hb. unfold input. rewrite Hc.
    destruct (decide (Command.BACKSPACE = Command.SPACE)); [discriminate|].
    destruct (decide (Command.BACKSPACE = Command.BACKSPACE)); [|done].
    destruct (Str.empty (inputBuffer d)) eqn:He.
    { apply empty_true in He. contradiction. }
    simpl. split; [reflexivity|].
    destruct (pop_back_snoc (inputBuffer d) Hb) as [c Hc'].
    exists c, (Str.pop_back (inputBuffer d)). split; [exact Hc'|reflexivity].
Qed.

Lemma input_consumes_edit_command_witness :
  inputBuffer (input " " (command Command.SPACE (input "a" initial))) = "a " ∧
  ∃ c b,
    inputBuffer (command Command.BACKSPACE (input "ab" initial)) =
    b +:+ String c "" ∧
    inputBuffer (input "c" (command Command.BACKSPACE (input "ab" initial))) =
    b +:+ "c".
Proof.
  destruct (input_consumes_edit_command " "
              (command Command.SPACE (input "a" initial))) as [H _].
  destruct (H eq_refl) as [_ H1].
  destruct (input_consumes_edit_command "c"
              (command Command.BACKSPACE (input "ab" initial))) as [_ H'].
  destruct (H' eq_refl ltac:(discriminate)) as [_ H2].
  split; [rewrite H1; reflexivity | exact H2].
Defined.

End ResetAndInput.

(** ** Shape of [check] and [popTarget] *)

Section Shapes.

Import SDL Core.

Lemma checkInputCommand_status ev d : (checkInputCommand ev d).1.1 = Status.NONE.
Proof.
  unfold checkInputCommand. repeat case_match;
    try apply checkActionCommand_status; reflexivity.
Qed.

Lemma checkFocusCommand_status req ev d :
  (checkFocusCommand req ev d).1.1 = Status.NONE.
Proof.
  unfold checkFocusCommand. case_decide;
    [apply checkActionCommand_status | apply checkInputCommand_status].
Qed.

(** Below grab level the returned flags are [NONE] or [FOCUSED]. *)
Lemma checkFocus_status req ev d :
  (checkFocus req ev d).1.1 = Status.NONE ∨
  (checkFocus req ev d).1.1 = Status.FOCUSED.
Proof.
  unfold checkFocus. repeat case_decide; simpl; auto.
  rewrite with_flag_eq. simpl. rewrite checkFocusCommand_status. by right.
Qed.

Lemma gainFocus_status req ev d :
  (gainFocus req ev d).1.1 = Status.NONE ∨
  (gainFocus req ev d).1.1 = Status.FOCUSED.
Proof.
  unfold gainFocus. repeat (case_decide || case_match); simpl;
    auto using checkFocus_status.
Qed.

Lemma loseFocus_status req ev d :
  (loseFocus req ev d).1.1 = Status.NONE ∨
  (loseFocus req ev d).1.1 = Status.FOCUSED.
Proof.
  unfold loseFocus. repeat case_decide; simpl; auto using checkFocus_status.
Qed.

Lemma checkGrabCommand_status req ev d :
  (checkGrabCommand req ev d).1.1 = Status.NONE ∨
  (checkGrabCommand req ev d).1.1 = Status.FOCUSED.
Proof.
  unfold checkGrabCommand. case_decide;
    [left; apply checkActionCommand_status | apply checkFocus_status].
Qed.

(** At grab level no resolver returns [HOVERED]. *)
Lemma checkGrabOut_not_hovered req ev d :
  Status.test (checkGrabOut req ev d).1.1 Status.HOVERED = false.
Proof.
  unfold checkGrabOut. repeat case_decide; rewrite ?with_flag_eq; simpl;
    rewrite ?test_or; try reflexivity;
    first [ destruct (checkFocus_status req ev d) as [-> | ->]
          | destruct (loseFocus_status req ev d) as [-> | ->]
          | destruct (loseFocus_status req Event.CANCEL (set_idGrabbed "" d))
              as [-> | ->]
          | destruct (checkFocus_status req Event.CANCEL (set_idGrabbed "" d))
              as [-> | ->] ];
    reflexivity.
Qed.

Lemma checkGrabOver_not_hovered req ev d :
  Status.test (checkGrabOver req ev d).1.1 Status.HOVERED = false.
Proof.
  unfold checkGrabOver. repeat case_decide; rewrite ?with_flag_eq; simpl;
    rewrite ?test_or; try reflexivity;
    first [ destruct (checkFocus_status req ev d) as [-> | ->]
          | destruct (checkFocus_status req Event.ACTION (set_idGrabbed "" d))
              as [-> | ->]
          | destruct (checkFocus_status req Event.CANCEL (set_idGrabbed "" d))
              as [-> | ->]
          | destruct (gainFocus_status req ev d) as [-> | ->]
          | destruct (gainFocus_status req Event.GRAB
                        (set_idGrabbed (idCurrent d) d)) as [-> | ->]
          | destruct (checkGrabCommand_status req ev d) as [-> | ->] ];
    reflexivity.
Qed.

(** [checkHover] returns [HOVERED] exactly when the hover test passes. *)
Lemma checkHover_hovered req r ev d :
  Status.test (checkHover req r ev d).1.1 Status.HOVERED = hoverable r d.
Proof.
  unfold checkHover. destruct (hoverable r d); simpl;
    case_decide; rewrite ?with_flag_eq; simpl; rewrite ?test_or;
    rewrite ?checkGrabOver_not_hovered, ?checkGrabOut_not_hovered; reflexivity.
Qed.

(** What [check] does to the dispatcher, apart from the ids of grab and
    focus. *)
Lemma check_shape req r id d i d' :
  check req r id d = Some (i, d') →
  i = length (elementStack d) ∧
  stable (set_idCurrent (qualified id d) d)
         (set_elementStack (elementStack d) d') ∧
  ∃ e, elementStack d' = elementStack d ++ [e] ∧
       idLength e = String.length id ∧ rect e = r ∧
       Status.test (status e) Status.HOVERED =
       (if decide (req = RequestEvent.NONE) then false else hoverable r d).
Proof.
  intros H. unfold check in H.
  set (d0 := set_idCurrent (qualified id d) d) in *.
  assert (match elementStack d with
          | [] => set_idCurrent id d
          | _ :: _ =>
              set_idCurrent
                (idCurrent d +:+ String groupNameSeparator "" +:+ id) d
          end = d0) as E0.
  { unfold d0, qualified. by destruct (elementStack d). }
  rewrite E0 in H. clear E0.
  destruct (decide (req = RequestEvent.NONE)).
  - injection H as <- <-. simpl. rewrite length_app. simpl.
    split; [lia|]. split; [done|]. eexists. split; [reflexivity|]. done.
  - destruct (decide (id = "" ∧ req ≠ RequestEvent.HOVER)); [discriminate|].
    pose proof (checkHover_stable req r Event.NONE d0) as St.
    pose proof (checkHover_hovered req r Event.NONE d0) as Hh.
    destruct (checkHover req r Event.NONE d0) as [[s e] d1].
    simpl in *. injection H as <- <-.
    destruct St as (S1 & S2 & S3 & S4 & S5 & S6 & S7). simpl in *.
    rewrite S1, length_app. simpl.
    split; [lia|]. split; [done|]. eexists. split; [reflexivity|]. done.
Qed.

(** The parent entry as [popTarget] rewrites it. *)
Lemma popped_parent_facts hadGrab hadFocus sup :
  let sup' :=
    let s1 :=
      if hadGrab : bool then
        let s := set_status (Status.reset (status sup) Status.GRABBED) sup in
        if decide (event s = Event.GRAB) then set_event Event.NONE s else s
      else sup in
    if hadFocus : bool then
      let s := set_status (Status.reset (status s1) Status.FOCUSED) s1 in
      if decide (event s = Event.FOCUS_GAINED) then set_event Event.NONE s
      else set_event Event.FOCUS_LOST s
    else s1 in
  rect sup' = rect sup ∧ idLength sup' = idLength sup ∧
  Status.test (status sup') Status.HOVERED =
  Status.test (status sup) Status.HOVERED.
Proof.
  destruct hadGrab, hadFocus; simpl; repeat case_decide; simpl;
    split_and!; try reflexivity;
    rewrite ?(test_reset_other _ Status.FOCUSED Status.HOVERED) by reflexivity;
    rewrite ?(test_reset_other _ Status.GRABBED Status.HOVERED) by reflexivity;
    reflexivity.
Qed.

(** What [popTarget] does: it removes the top entry, latches its hover,
    truncates the accumulated id, and on the entries that stay it changes
    neither rectangle nor [HOVERED] and sets no flag. *)
Lemma popTarget_shape d d' :
  popTarget d = Some d' →
  ∃ st el,
    elementStack d = st ++ [el] ∧
    length (elementStack d') = length st ∧
    (∀ i e', elementStack d' !! i = Some e' →
       ∃ e, st !! i = Some e ∧ rect e' = rect e ∧
            idLength e' = idLength e ∧
            Status.test (status e') Status.HOVERED =
            Status.test (status e) Status.HOVERED ∧
            weaker_entry e' e) ∧
    (Status.test (status el) Status.GRABBED = false →
     Status.test (status el) Status.FOCUSED = false →
     elementStack d' = st) ∧
    hadHover d' = hadHover d || Status.test (status el) Status.HOVERED ∧
    idCurrent d' =
      match st with
      | [] => ""
      | _ => Str.resize (String.length (idCurrent d) - (idLength el + 1))
               (idCurrent d)
      end ∧
    pointerPos d' = pointerPos d ∧
    pointerPressed d' = pointerPressed d ∧
    pointerReleased d' = pointerReleased d ∧
    idGrabbed d' = idGrabbed d ∧ idFocus d' = idFocus d ∧
    idNextFocus d' = idNextFocus d ∧ idLosingFocus d' = idLosingFocus d ∧
    nextCommand d' = nextCommand d ∧ inputBuffer d' = inputBuffer d.
Proof.
  intros H. unfold popTarget in H.
  destruct (last (elementStack d)) as [el|] eqn:Hl; [|discriminate].
  apply last_Some in Hl as [st Hst]. exists st, el. split; [exact Hst|].
  rewrite Hst, removelast_last in H. cbv zeta in H.
  set (d1 := if Status.test (status el) Status.HOVERED
             then set_hadHover true (set_elementStack st d)
             else set_elementStack st d) in *.
  assert (hadHover d1 = hadHover d || Status.test (status el) Status.HOVERED)
    as Eh by (unfold d1; destruct (Status.test _ _); simpl;
              by rewrite ?orb_true_r, ?orb_false_r).
  assert (elementStack d1 = st ∧ idCurrent d1 = idCurrent d ∧
          pointerPos d1 = pointerPos d ∧
          pointerPressed d1 = pointerPressed d ∧
          pointerReleased d1 = pointerReleased d ∧
          idGrabbed d1 = idGrabbed d ∧ idFocus d1 = idFocus d ∧
          idNextFocus d1 = idNextFocus d ∧
          idLosingFocus d1 = idLosingFocus d ∧
          nextCommand d1 = nextCommand d ∧ inputBuffer d1 = inputBuffer d)
    as (E1 & E2 & E3 & E4 & E5 & E6 & E7 & E8 & E9 & E10 & E11)
    by (unfold d1; destruct (Status.test _ _); done).
  clearbody d1. rewrite E1 in H.
  destruct (last st) as [sup|] eqn:Hl'.
  - rewrite E2 in H.
    destruct (decide (String.length (idCurrent d) < idLength el + 1)%nat);
      [discriminate|].
    assert (st ≠ []) as Hne by (intros ->; discriminate).
    assert (match st with
            | [] => ""
            | _ :: _ =>
                Str.resize (String.length (idCurrent d) - (idLength el + 1))
                  (idCurrent d)
            end =
            Str.resize (String.length (idCurrent d) - (idLength el + 1))
              (idCurrent d)) as -> by (by destruct st).
    destruct (negb (Status.test (status el) Status.GRABBED) &&
              negb (Status.test (status el) Status.FOCUSED)) eqn:Hgf.
    + injection H as <-. simpl. rewrite E1.
      split; [reflexivity|]. split.
      { intros i e' He'. exists e'. split_and!; done. }
      done.
    + injection H as <-. simpl. rewrite E1. unfold set_back.
      rewrite length_insert. split; [reflexivity|]. split;
        [|split; [|done]]; cycle 1.
      { intros Hg Hf. rewrite Hg, Hf in Hgf. discriminate. }
      intros i e' He'.
      rewrite last_lookup in Hl'.
      replace (pred (length st)) with (length st - 1)%nat in Hl' by lia.
      destruct (decide (i = (length st - 1)%nat)) as [->|Hi].
      * rewrite list_lookup_insert_eq in He'
          by (eapply lookup_lt_Some; eauto).
        injection He' as <-. exists sup. split; [exact Hl'|].
        pose proof (popped_parent_facts
                      (Status.test (status el) Status.GRABBED)
                      (Status.test (status el) Status.FOCUSED) sup)
          as (P1 & P2 & P3).
        split_and!; [exact P1 | exact P2 | exact P3 |].
        apply weaker_entry_popped.
      * rewrite list_lookup_insert_ne in He' by congruence.
        exists e'. split_and!; done.
  - injection H as <-. apply last_None in Hl'. subst st. simpl.
    rewrite E1. split; [reflexivity|]. split; [|done].
    intros i e' He'. by rewrite lookup_nil in He'.
Qed.

(** The handle operations clear flags and resize rectangles of stack
    entries and touch nothing else. *)
Lemma handle_call_shape c d d' :
  match c with
  | ShrinkWidth _ _ | ShrinkHeight _ _ | Shrink _ _ _ | Discard _ => True
  | _ => False
  end →
  call c d = Some d' →
  Forall2 weaker_entry (elementStack d') (elementStack d) ∧
  d' = set_elementStack (elementStack d') d.
Proof.
  assert (∀ i e r d1,
            elementStack d !! i = Some e →
            discard i (set_elementStack (<[ i := set_rect r e ]> (elementStack d)) d)
            = Some d1 →
            Forall2 weaker_entry (elementStack d1) (elementStack d) ∧
            d1 = set_elementStack (elementStack d1) d) as Hdis.
  { intros i e r d1 Hi H. unfold discard in H. simpl in H.
    rewrite list_lookup_insert_eq in H by (eapply lookup_lt_Some; eauto).
    injection H as <-. simpl. rewrite list_insert_insert_eq. split; [|done].
    eapply Forall2_weaker_insert; [exact Hi|].
    destruct (weaker_entry_discard (set_rect r e)) as [W1 W2].
    split; [exact W1 | exact W2]. }
  assert (∀ i e r,
            elementStack d !! i = Some e →
            Forall2 weaker_entry (<[ i := set_rect r e ]> (elementStack d))
              (elementStack d)) as Hrect.
  { intros i e r Hi. eapply Forall2_weaker_insert; [exact Hi|].
    apply weaker_entry_set_rect. }
  destruct c; try contradiction; intros _ H; simpl in H.
  - unfold shrinkWidth in H.
    destruct (elementStack d !! index) as [e|] eqn:Hi; [|discriminate].
    cbv zeta in H. case_decide; [by eapply Hdis|].
    injection H as <-. split; [by apply Hrect|done].
  - unfold shrinkHeight in H.
    destruct (elementStack d !! index) as [e|] eqn:Hi; [|discriminate].
    cbv zeta in H. case_decide; [by eapply Hdis|].
    injection H as <-. split; [by apply Hrect|done].
  - unfold shrink in H.
    destruct (elementStack d !! index) as [e|] eqn:Hi; [|discriminate].
    cbv zeta in H. case_decide; [by eapply Hdis|].
    injection H as <-. split; [by apply Hrect|done].
  - unfold discard in H.
    destruct (elementStack d !! index) as [e|] eqn:Hi; [|discriminate].
    injection H as <-. split; [|done].
    eapply Forall2_weaker_insert; [exact Hi|apply weaker_entry_discard].
Qed.

(** [popTarget] succeeds on a non-empty stack whose accumulated id is long
    enough for the segment of the top entry. *)
Lemma popTarget_succeeds d st el :
  elementStack d = st ++ [el] →
  (st ≠ [] → (idLength el + 1 ≤ String.length (idCurrent d))%nat) →
  ∃ d', popTarget d = Some d'.
Proof.
  intros Hst Hlen. unfold popTarget.
  rewrite Hst, last_snoc, removelast_last. cbv zeta.
  set (d1 := if Status.test (status el) Status.HOVERED
             then set_hadHover true (set_elementStack st d)
             else set_elementStack st d).
  assert (elementStack d1 = st ∧ idCurrent d1 = idCurrent d) as [E1 E2]
    by (unfold d1; destruct (Status.test _ _); done).
  clearbody d1. rewrite E1.
  destruct (last st) as [sup|] eqn:Hl'; [|eauto].
  rewrite E2.
  destruct (decide (String.length (idCurrent d) < idLength el + 1)%nat) as [Hlt|].
  - exfalso. assert (st ≠ []) as Hne by (intros ->; discriminate).
    specialize (Hlen Hne). lia.
  - destruct (_ && _); eauto.
Qed.

(** At assertion level 3 [popTarget] fails where an enclosing element
    remains and the accumulated id is not longer than the segment of the top
    entry, and is the default-level function everywhere else. *)
Lemma popTarget_paranoid_eq d st el :
  elementStack d = st ++ [el] →
  popTarget_paranoid d =
  if decide (st ≠ [] ∧
             (String.length (idCurrent d) ≤ idLength el + 1)%nat)
  then None else popTarget d.
Proof.
  intros Hst. unfold popTarget_paranoid, popTarget.
  rewrite Hst, last_snoc, removelast_last. cbv zeta.
  set (d1 := if Status.test (status el) Status.HOVERED
             then set_hadHover true (set_elementStack st d)
             else set_elementStack st d).
  assert (elementStack d1 = st ∧ idCurrent d1 = idCurrent d) as [E1 E2]
    by (unfold d1; destruct (Status.test _ _); done).
  clearbody d1. rewrite E1.
  destruct (last st) as [sup|] eqn:Hl'.
  - assert (st ≠ []) as Hne by (intros ->; discriminate).
    rewrite E2.
    destruct (decide (String.length (idCurrent d) ≤ idLength el + 1)%nat)
      as [Hle|Hle].
    + rewrite (decide_True (P := st ≠ [] ∧ _)) by done. reflexivity.
    + rewrite (decide_False (P := st ≠ [] ∧ _))
        by (intros [_ ?]; contradiction).
      rewrite (decide_False (P := (_ < _)%nat)) by lia. reflexivity.
  - apply last_None in Hl'.
    rewrite (decide_False (P := st ≠ [] ∧ _))
      by (intros [? _]; contradiction).
    reflexivity.
Qed.

(** What succeeds at assertion level 3 succeeds at the default level, with
    the same result. *)
Lemma popTarget_paranoid_Some d d' :
  popTarget_paranoid d = Some d' → popTarget d = Some d'.
Proof.
  intros H.
  destruct (last (elementStack d)) as [e|] eqn:E.
  - apply last_Some in E as [st E].
    rewrite (popTarget_paranoid_eq d st e E) in H.
    by case_decide.
  - unfold popTarget_paranoid in H. rewrite E in H. discriminate.
Qed.

Lemma call_at_Some p c d d' :
  call_at p c d = Some d' → call c d = Some d'.
Proof.
  destruct c; simpl; auto. destruct p; auto using popTarget_paranoid_Some.
Qed.

(** A run that succeeds at some assertion level is the run of the default
    level. *)
Lemma run_at_Some p cs d d' :
  run_at p cs d = Some d' → run cs d = Some d'.
Proof.
  revert d. induction cs as [|c cs IH]; intros d; simpl; [done|].
  destruct (call_at p c d) as [d1|] eqn:E; [|done].
  rewrite (call_at_Some _ _ _ _ E). apply IH.
Qed.

Lemma resize_append (s t : string) : Str.resize (String.length s) (s +:+ t) = s.
Proof.
  induction s as [|c s IH]; [reflexivity|].
  change (String c s +:+ t) with (String c (s +:+ t)). simpl. by rewrite IH.
Qed.

End Shapes.

(** ** Hover resolution *)

Section Hover.

Import SDL Core.

(** X6.  The entry pushed by [check] is [HOVERED] exactly when the request
    is not [NONE], no element popped earlier in the frame was hovered, the
    enclosing element (if any) is [HOVERED], and the pointer lies in the
    rectangle. *)
Theorem check_hovered_iff req r id d i d' :
  check req r id d = Some (i, d') →
  ∃ e, last (elementStack d') = Some e ∧
       (Status.test (status e) Status.HOVERED = true ↔
        req ≠ RequestEvent.NONE ∧ hadHover d = false ∧
        (∀ p, last (elementStack d) = Some p →
              Status.test (status p) Status.HOVERED = true) ∧
        SDL_PointInRect (pointerPos d) r = true).
Proof.
  intros H. destruct (check_shape _ _ _ _ _ _ H) as (_ & _ & e & Hst & _ & _ & Hh).
  exists e. rewrite Hst, last_snoc. split; [reflexivity|].
  rewrite Hh. unfold hoverable.
  destruct (decide (req = RequestEvent.NONE)) as [->|Hr].
  { split; [discriminate|]. by intros [? _]. }
  destruct (hadHover d); simpl.
  { split; [discriminate|]. by intros (_ & ? & _). }
  destruct (last (elementStack d)) as [p|]; simpl.
  - destruct (Status.test (status p) Status.HOVERED) eqn:Hp; simpl.
    + split; [|by intros (_ & _ & _ & ?)].
      intros Hpt. split_and!; try done. by intros ? [= <-].
    + split; [discriminate|]. intros (_ & _ & Hq & _).
      specialize (Hq p eq_refl). congruence.
  - split; [|by intros (_ & _ & _ & ?)].
    intros Hpt. split_and!; done.
Qed.

Lemma check_hovered_iff_witness :
  ∃ e, last (elementStack
               (default initial
                  (snd <$> check RequestEvent.HOVER (Rect 0 0 10 10) "a"
                             (movePointer (Point 5 5) initial)))) = Some e ∧
       Status.test (status e) Status.HOVERED = true.
Proof.
  destruct (check_hovered_iff RequestEvent.HOVER (Rect 0 0 10 10) "a"
              (movePointer (Point 5 5) initial) 0%nat
              (default initial
                 (snd <$> check RequestEvent.HOVER (Rect 0 0 10 10) "a"
                            (movePointer (Point 5 5) initial))))
    as (e & H1 & H2); [vm_compute; reflexivity|].
  exists e. split; [exact H1|]. apply H2.
  split_and!; [discriminate | reflexivity | discriminate | reflexivity].
Defined.

Lemma no_hover_weaker st st' :
  (∀ i e', st' !! i = Some e' → ∃ e, st !! i = Some e ∧ weaker_entry e' e) →
  no_hover st → no_hover st'.
Proof.
  intros Hw Hn i e' He'. destruct (Hw _ _ He') as (e & He & _ & Hf).
  specialize (Hn _ _ He).
  destruct (Status.test (status e') Status.HOVERED) eqn:T; [|reflexivity].
  apply Hf in T. congruence.
Qed.

Lemma hover_latch_call c d d' :
  in_frame c = true → call c d = Some d' →
  hadHover d = true → no_hover (elementStack d) →
  hadHover d' = true ∧ no_hover (elementStack d').
Proof.
  intros Hc H Hh Hn.
  destruct c as [| | | | | |q|req r id| | | | |]; try discriminate.
  - simpl in H. injection H as <-. unfold tryFocus.
    repeat case_decide; done.
  - simpl in H. destruct (check req r id d) as [[i d1]|] eqn:E; [|discriminate].
    injection H as <-.
    destruct (check_shape _ _ _ _ _ _ E) as (_ & St & e & Hst & _ & _ & Hhov).
    destruct St as (_ & _ & _ & _ & _ & S6 & _). simpl in S6.
    split; [congruence|]. rewrite Hst. intros k x Hx.
    destruct (decide (k < length (elementStack d))%nat).
    + rewrite lookup_app_l in Hx by lia. eauto.
    + assert (k = length (elementStack d)) as ->.
      { apply lookup_lt_Some in Hx. rewrite length_app in Hx. simpl in Hx. lia. }
      rewrite list_lookup_middle in Hx by reflexivity. injection Hx as <-.
      rewrite Hhov. case_decide; [reflexivity|].
      unfold hoverable. by rewrite Hh.
  - simpl in H.
    destruct (popTarget_shape _ _ H)
      as (st & el & Hst & _ & Hent & _ & Hhh & _).
    split; [rewrite Hhh, Hh; reflexivity|].
    eapply no_hover_weaker; [|exact Hn].
    intros k e' He'. destruct (Hent _ _ He') as (e & He & _ & _ & _ & W).
    exists e. split; [|exact W]. rewrite Hst. by apply lookup_app_l_Some.
  - eapply handle_call_shape in H as [W ->]; [|exact I]. split; [exact Hh|].
    simpl. eapply no_hover_weaker; [|exact Hn].
    intros k e' He'. destruct (Forall2_lookup_l _ _ _ _ _ W He') as (e & ? & ?).
    eauto.
  - eapply handle_call_shape in H as [W ->]; [|exact I]. split; [exact Hh|].
    simpl. eapply no_hover_weaker; [|exact Hn].
    intros k e' He'. destruct (Forall2_lookup_l _ _ _ _ _ W He') as (e & ? & ?).
    eauto.
  - eapply handle_call_shape in H as [W ->]; [|exact I]. split; [exact Hh|].
    simpl. eapply no_hover_weaker; [|exact Hn].
    intros k e' He'. destruct (Forall2_lookup_l _ _ _ _ _ W He') as (e & ? & ?).
    eauto.
  - eapply handle_call_shape in H as [W ->]; [|exact I]. split; [exact Hh|].
    simpl. eapply no_hover_weaker; [|exact Hn].
    intros k e' He'. destruct (Forall2_lookup_l _ _ _ _ _ W He') as (e & ? & ?).
    eauto.
Qed.

(** X7.  Hover is consumed once per frame: when the hover latch is set and
    no open entry is hovered (for instance right after a hovered top-level
    element was popped), no sequence of [check], [popTarget], [tryFocus] and
    handle calls makes any entry [HOVERED], and [wantsMouse] stays true. *)
Theorem hover_latch_holds cs d d' :
  hadHover d = true → no_hover (elementStack d) →
  forallb in_frame cs = true → run cs d = Some d' →
  hadHover d' = true ∧ no_hover (elementStack d') ∧ wantsMouse d' = true.
Proof.
  revert d. induction cs as [|c cs IH]; simpl; intros d Hh Hn Hcs Hr.
  - injection Hr as <-. unfold wantsMouse. rewrite Hh. done.
  - apply andb_prop in Hcs as [Hc Hcs].
    destruct (call c d) as [d1|] eqn:E; [|discriminate].
    destruct (hover_latch_call _ _ _ Hc E Hh Hn) as [Hh1 Hn1].
    by apply (IH d1).
Qed.

Lemma hover_latch_holds_witness :
  ∃ d', run [ Check RequestEvent.GRAB (Rect 0 0 10 10) "b";
              Check RequestEvent.HOVER (Rect 0 0 10 10) "c" ]
          (set_hadHover true initial) = Some d' ∧
        no_hover (elementStack d').
Proof.
  eexists. split; [vm_compute; reflexivity|].
  eapply (hover_latch_holds
            [ Check RequestEvent.GRAB (Rect 0 0 10 10) "b";
              Check RequestEvent.HOVER (Rect 0 0 10 10) "c" ]
            (set_hadHover true initial));
    [reflexivity | intros [|i] e H; discriminate H | reflexivity
    | vm_compute; reflexivity].
Defined.

Lemma hover_sound_call c d d' :
  dispatcher_call c = true → call c d = Some d' →
  hover_sound d → hover_sound d'.
Proof.
  intros Hc H [Hp Hch].
  destruct c as [| | | | | |q|req r id| | | | |]; try discriminate.
  - simpl in H. injection H as <-. unfold tryFocus.
    repeat case_decide; by split.
  - simpl in H. destruct (check req r id d) as [[i d1]|] eqn:E; [|discriminate].
    injection H as <-.
    destruct (check_shape _ _ _ _ _ _ E) as (_ & St & e & Hst & _ & Hr & Hhov).
    destruct St as (_ & _ & S3 & _). simpl in S3.
    assert (Status.test (status e) Status.HOVERED = true →
            hoverable r d = true) as Hhv.
    { rewrite Hhov. case_decide; [discriminate|done]. }
    assert (∀ k x, (elementStack d ++ [e]) !! k = Some x →
                   (k < length (elementStack d))%nat ∧
                   elementStack d !! k = Some x ∨
                   k = length (elementStack d) ∧ x = e) as Hcase.
    { intros k x Hx. destruct (decide (k < length (elementStack d))%nat).
      - left. split; [done|]. by rewrite lookup_app_l in Hx.
      - right. assert (k = length (elementStack d)) as ->.
        { apply lookup_lt_Some in Hx. rewrite length_app in Hx.
          simpl in Hx. lia. }
        rewrite list_lookup_middle in Hx by reflexivity. split; congruence. }
    split; rewrite Hst, ?S3.
    + intros k x Hx Tx. destruct (Hcase _ _ Hx) as [[_ Hx']|[-> ->]]; [eauto|].
      apply Hhv in Tx. unfold hoverable in Tx.
      apply andb_prop in Tx as [_ Tx]. by rewrite Hr.
    + intros k p c Hpk Hck Tc.
      destruct (Hcase _ _ Hck) as [[Hlt Hck']|[Hk ->]].
      * rewrite lookup_app_l in Hpk by lia. eauto.
      * apply Hhv in Tc. unfold hoverable in Tc.
        apply andb_prop in Tc as [Tc _]. apply andb_prop in Tc as [_ Tc].
        rewrite lookup_app_l in Hpk by lia.
        rewrite last_lookup in Tc. rewrite <- Hk in Tc. simpl in Tc.
        by rewrite Hpk in Tc.
  - simpl in H.
    destruct (popTarget_shape _ _ H)
      as (st & el & Hst & _ & Hent & _ & _ & _ & Hpos & _).
    assert (∀ k x, st !! k = Some x → elementStack d !! k = Some x) as Hin.
    { intros k x Hx. rewrite Hst. by apply lookup_app_l_Some. }
    split; rewrite ?Hpos.
    + intros k e' He' T.
      destruct (Hent _ _ He') as (e & He & -> & _ & Hh & _).
      rewrite Hh in T. eauto.
    + intros k p' c' Hp' Hc' T.
      destruct (Hent _ _ Hp') as (p0 & Hp0 & _ & _ & -> & _).
      destruct (Hent _ _ Hc') as (c0 & Hc0 & _ & _ & Hh & _).
      rewrite Hh in T. eauto.
Qed.

(** X8.  Hit-testing is sound along the open chain: starting a frame with
    an empty stack, after any sequence of [check], [popTarget] and [tryFocus]
    every [HOVERED] entry contains the pointer, and the entry below a
    [HOVERED] entry is [HOVERED]; in particular nothing inside an element
    that is not hovered (such as a [NONE]-tier container) is ever hovered. *)
Theorem hover_sound_in_frame cs d d' :
  elementStack d = [] →
  forallb dispatcher_call cs = true → run cs d = Some d' →
  hover_sound d'.
Proof.
  intros Hst.
  assert (hover_sound d) as Hs.
  { split; rewrite Hst; intros i; intros; by rewrite lookup_nil in *. }
  clear Hst. revert d Hs.
  induction cs as [|c cs IH]; simpl; intros d Hs Hcs Hr.
  - by injection Hr as <-.
  - apply andb_prop in Hcs as [Hc Hcs].
    destruct (call c d) as [d1|] eqn:E; [|discriminate].
    apply (IH d1); eauto using hover_sound_call.
Qed.

Lemma hover_sound_in_frame_witness :
  ∃ d', run [ Check RequestEvent.NONE (Rect 0 0 10 10) "panel";
              Check RequestEvent.GRAB (Rect 0 0 10 10) "btn" ]
          (movePointer (Point 5 5) initial) = Some d' ∧
        hover_sound d'.
Proof.
  eexists. split; [vm_compute; reflexivity|].
  apply (hover_sound_in_frame
           [ Check RequestEvent.NONE (Rect 0 0 10 10) "panel";
             Check RequestEvent.GRAB (Rect 0 0 10 10) "btn" ]
           (movePointer (Point 5 5) initial));
    [reflexivity | reflexivity | vm_compute; reflexivity].
Defined.

End Hover.

(** ** An element checked and released *)

Section CheckThenPop.

Import SDL Core.

(** X9.  Releasing the handle right after [check] (what a leaf element
    does) restores the nesting: [popTarget] succeeds, the stack is as deep as
    before, the accumulated id is what it was (empty at top level), the hover
    latch records whether the element was hovered, and if the element was
    neither [GRABBED] nor [FOCUSED] the stack is exactly what it was.  At
    assertion level 3 the release has the same result, except under an
    enclosing element whose accumulated id is empty (a top-level element
    checked with an empty id), where it trips the assertion on the length of
    the accumulated id. *)
Theorem check_popTarget_round_trip req r id d i d1 :
  check req r id d = Some (i, d1) →
  ∃ e d2,
    elementStack d1 = elementStack d ++ [e] ∧
    popTarget d1 = Some d2 ∧
    length (elementStack d2) = length (elementStack d) ∧
    idCurrent d2 = match elementStack d with [] => "" | _ => idCurrent d end ∧
    hadHover d2 = hadHover d || Status.test (status e) Status.HOVERED ∧
    (Status.test (status e) Status.GRABBED = false →
     Status.test (status e) Status.FOCUSED = false →
     elementStack d2 = elementStack d) ∧
    popTarget_paranoid d1 =
    if decide (elementStack d ≠ [] ∧ idCurrent d = "") then None else Some d2.
Proof.
  intros H.
  destruct (check_shape _ _ _ _ _ _ H) as (_ & St & e & Hst & Hlen & _ & _).
  destruct St as (_ & S2 & _ & _ & _ & S6 & _). simpl in S2, S6.
  assert (elementStack d ≠ [] →
          String.length (idCurrent d1) =
          (String.length (idCurrent d) + (idLength e + 1))%nat) as Hq.
  { intros Hne. rewrite S2, Hlen. unfold qualified.
    destruct (elementStack d); [done|]. rewrite !length_append. simpl. lia. }
  destruct (popTarget_succeeds d1 (elementStack d) e Hst) as [d2 Hpop].
  { intros Hne. rewrite (Hq Hne). lia. }
  exists e, d2. split; [exact Hst|]. split; [exact Hpop|].
  destruct (popTarget_shape _ _ Hpop)
    as (st & el & Hst' & Hl & _ & Hsame & Hhh & Hcur & _).
  rewrite Hst in Hst'. apply app_inj_tail in Hst' as [<- <-].
  split_and!; [exact Hl | | by rewrite Hhh, S6 | exact Hsame | ].
  - rewrite Hcur. destruct (elementStack d) as [|x st] eqn:E; [reflexivity|].
    rewrite Hq by done.
    replace (String.length (idCurrent d) + (idLength e + 1) - (idLength e + 1))%nat
      with (String.length (idCurrent d)) by lia.
    rewrite S2. unfold qualified. rewrite E. apply resize_append.
  - rewrite (popTarget_paranoid_eq d1 (elementStack d) e Hst), Hpop.
    destruct (decide (elementStack d ≠ [])) as [Hne|He].
    + rewrite (Hq Hne).
      destruct (idCurrent d) as [|c s] eqn:Ec.
      * rewrite !decide_True; [reflexivity|done|]. split; [done|]. simpl. lia.
      * rewrite !decide_False; [reflexivity| |].
        -- intros [_ ?]. discriminate.
        -- intros [_ Hle]. simpl in Hle. lia.
    + rewrite !decide_False; [reflexivity| |]; intros [? _]; contradiction.
Qed.

Lemma check_popTarget_round_trip_witness :
  ∃ d1 d2,
    check RequestEvent.HOVER (Rect 0 0 4 4) "leaf"
      (set_idCurrent "win/panel"
         (set_elementStack
            [mkTarget 3 (Rect 0 0 9 9) Status.NONE Event.NONE;
             mkTarget 5 (Rect 0 0 9 9) Status.NONE Event.NONE] initial))
    = Some (2%nat, d1) ∧
    popTarget d1 = Some d2 ∧ popTarget_paranoid d1 = Some d2 ∧
    idCurrent d2 = "win/panel" ∧ length (elementStack d2) = 2%nat.
Proof.
  destruct (check RequestEvent.HOVER (Rect 0 0 4 4) "leaf"
      (set_idCurrent "win/panel"
         (set_elementStack
            [mkTarget 3 (Rect 0 0 9 9) Status.NONE Event.NONE;
             mkTarget 5 (Rect 0 0 9 9) Status.NONE Event.NONE] initial)))
    as [[i d1]|] eqn:E; vm_compute in E; [|discriminate].
  injection E as <- E.
  destruct (check_popTarget_round_trip RequestEvent.HOVER (Rect 0 0 4 4) "leaf"
      (set_idCurrent "win/panel"
         (set_elementStack
            [mkTarget 3 (Rect 0 0 9 9) Status.NONE Event.NONE;
             mkTarget 5 (Rect 0 0 9 9) Status.NONE Event.NONE] initial))
      2%nat d1) as (e & d2 & _ & H2 & H3 & H4 & _ & _ & H5).
  { rewrite <- E. vm_compute. reflexivity. }
  exists d1, d2.
  split_and!; [reflexivity | exact H2 | exact H5 | exact H4 | exact H3].
Defined.

End CheckThenPop.

(** ** Who holds focus and grab after [check] *)

Section Holders.

Import SDL Core.

Lemma test_flag_other (a s f : StatusFlags) :
  Status.test a f = false →
  Status.test (Status.or a s) f = Status.test s f.
Proof. intros H. by rewrite test_or, H. Qed.

(** The command resolvers change neither the focused nor the losing-focus
    id. *)
Lemma checkActionCommand_focus_kept ev d :
  focus_kept d (checkActionCommand ev d).2.
Proof. unfold checkActionCommand. repeat (case_decide || case_match); done. Qed.

Lemma checkInputCommand_focus_kept ev d :
  focus_kept d (checkInputCommand ev d).2.
Proof.
  unfold checkInputCommand.
  repeat case_match; try apply checkActionCommand_focus_kept; try done;
    by destruct (checkActionCommand_focus_kept Event.INPUT
                   (set_inputBuffer (inputBuffer d +:+ " ") d));
    by destruct (checkActionCommand_focus_kept Event.INPUT
                   (set_inputBuffer (Str.pop_back (inputBuffer d)) d)).
Qed.

Lemma checkFocusCommand_focus_kept req ev d :
  focus_kept d (checkFocusCommand req ev d).2.
Proof.
  unfold checkFocusCommand. case_decide;
    [apply checkActionCommand_focus_kept | apply checkInputCommand_focus_kept].
Qed.

(** A resolver result is focus-sound when [FOCUSED] is returned only with
    the focused id equal to the current id. *)
Lemma checkFocus_focus_sound req ev d :
  Status.test (checkFocus req ev d).1.1 Status.FOCUSED = true →
  idFocus (checkFocus req ev d).2 = idCurrent (checkFocus req ev d).2.
Proof.
  unfold checkFocus. repeat case_decide; simpl; try done.
  intros _. rewrite with_flag_eq. simpl.
  destruct (checkFocusCommand_focus_kept req ev
              (set_idNextFocus (idCurrent d) d)) as [-> _].
  destruct (checkFocusCommand_stable req ev
              (set_idNextFocus (idCurrent d) d)) as (_ & -> & _).
  done.
Qed.

Lemma gainFocus_focus_sound req ev d :
  Status.test (gainFocus req ev d).1.1 Status.FOCUSED = true →
  idFocus (gainFocus req ev d).2 = idCurrent (gainFocus req ev d).2.
Proof.
  unfold gainFocus. repeat (case_decide || case_match); simpl;
    try apply checkFocus_focus_sound; done.
Qed.

Lemma loseFocus_focus_sound req ev d :
  Status.test (loseFocus req ev d).1.1 Status.FOCUSED = true →
  idFocus (loseFocus req ev d).2 = idCurrent (loseFocus req ev d).2.
Proof.
  unfold loseFocus. repeat case_decide; simpl;
    try apply checkFocus_focus_sound; done.
Qed.

Lemma checkGrabCommand_focus_sound req ev d :
  Status.test (checkGrabCommand req ev d).1.1 Status.FOCUSED = true →
  idFocus (checkGrabCommand req ev d).2 = idCurrent (checkGrabCommand req ev d).2.
Proof.
  unfold checkGrabCommand. case_decide.
  - rewrite checkActionCommand_status. discriminate.
  - apply checkFocus_focus_sound.
Qed.

Lemma checkHover_focus_sound req r ev d :
  Status.test (checkHover req r ev d).1.1 Status.FOCUSED = true →
  idFocus (checkHover req r ev d).2 = idCurrent (checkHover req r ev d).2.
Proof.
  unfold checkHover, checkGrabOut, checkGrabOver.
  repeat (case_decide || case_match); rewrite ?with_flag_eq; simpl;
    rewrite ?test_flag_other by reflexivity;
    first [ apply checkFocus_focus_sound | apply loseFocus_focus_sound
          | apply gainFocus_focus_sound | apply checkGrabCommand_focus_sound
          | discriminate ].
Qed.

(** X10.  [FOCUSED] is handed out only to the holder of the focus: when the
    entry pushed by [check] is [FOCUSED], the focused id is afterwards the
    qualified id of that element, so [isActive] agrees with the status. *)
Theorem focused_status_means_active req r id d i d' :
  check req r id d = Some (i, d') →
  ∃ e, last (elementStack d') = Some e ∧
       (Status.test (status e) Status.FOCUSED = true →
        idFocus d' = qualified id d ∧ isActive (qualified id d) d' = true).
Proof.
  intros H. unfold check in H.
  set (d0 := set_idCurrent (qualified id d) d) in *.
  assert (match elementStack d with
          | [] => set_idCurrent id d
          | _ :: _ =>
              set_idCurrent
                (idCurrent d +:+ String groupNameSeparator "" +:+ id) d
          end = d0) as E0.
  { unfold d0, qualified. by destruct (elementStack d). }
  rewrite E0 in H. clear E0.
  destruct (decide (req = RequestEvent.NONE)).
  - injection H as _ <-. simpl. rewrite last_snoc. eexists. split; [done|].
    simpl. discriminate.
  - destruct (decide (id = "" ∧ req ≠ RequestEvent.HOVER)); [discriminate|].
    pose proof (checkHover_focus_sound req r Event.NONE d0) as Hs.
    pose proof (checkHover_stable req r Event.NONE d0) as (_ & Hc & _).
    destruct (checkHover req r Event.NONE d0) as [[s e] d1].
    simpl in *. injection H as _ <-. simpl. rewrite last_snoc.
    eexists. split; [done|]. simpl. intros T.
    unfold isActive. simpl. rewrite (Hs T), Hc.
    split; [done|]. by apply bool_decide_eq_true.
Qed.

Lemma focused_status_means_active_witness :
  ∃ d' e,
    check RequestEvent.FOCUS (Rect 0 0 10 10) "ok"
      (set_idNextFocus "ok" initial) = Some (0%nat, d') ∧
    last (elementStack d') = Some e ∧
    Status.test (status e) Status.FOCUSED = true ∧ isActive "ok" d' = true.
Proof.
  destruct (check RequestEvent.FOCUS (Rect 0 0 10 10) "ok"
              (set_idNextFocus "ok" initial)) as [[i d']|] eqn:E;
    [|vm_compute in E; discriminate].
  destruct (focused_status_means_active _ _ _ _ _ _ E) as (e & H1 & H2).
  assert (i = 0%nat) as -> by (vm_compute in E; congruence).
  exists d', e. split; [reflexivity|]. split; [exact H1|].
  assert (Status.test (status e) Status.FOCUSED = true) as T.
  { vm_compute in E. injection E as <-. vm_compute in H1.
    injection H1 as <-. reflexivity. }
  split; [exact T|]. by destruct (H2 T).
Defined.

(** Off the element the grabbed id is never set. *)
Lemma checkGrabOut_grab_kept req ev d : grab_kept d (checkGrabOut req ev d).2.
Proof.
  unfold checkGrabOut. repeat case_decide; rewrite ?with_flag_eq; simpl;
    first [ by right | idtac ];
    first [ by destruct (checkFocus_below req ev d)
          | by destruct (loseFocus_below req ev d)
          | (eapply grab_kept_trans; [apply grab_kept_clear|];
             first [ by destruct (checkFocus_below req Event.CANCEL
                                    (set_idGrabbed "" d))
                   | by destruct (loseFocus_below req Event.CANCEL
                                    (set_idGrabbed "" d)) ]) ].
Qed.

(** X11.  [check] changes the grabbed id only by clearing it, or by giving
    it to the element being checked; the latter needs a request above
    [HOVER], a passed hover test and a fresh press of exactly the primary
    button with nothing released. *)
Theorem grab_needs_hover_and_fresh_press req r id d i d' :
  check req r id d = Some (i, d') →
  idGrabbed d' = idGrabbed d ∨ idGrabbed d' = "" ∨
  (idGrabbed d' = qualified id d ∧
   req ≠ RequestEvent.NONE ∧ req ≠ RequestEvent.HOVER ∧
   hoverable r d = true ∧ pointerPressed d = 1 ∧ pointerReleased d = 0).
Proof.
  intros H. unfold check in H.
  set (d0 := set_idCurrent (qualified id d) d) in *.
  assert (match elementStack d with
          | [] => set_idCurrent id d
          | _ :: _ =>
              set_idCurrent
                (idCurrent d +:+ String groupNameSeparator "" +:+ id) d
          end = d0) as E0.
  { unfold d0, qualified. by destruct (elementStack d). }
  rewrite E0 in H. clear E0.
  destruct (decide (req = RequestEvent.NONE)).
  { injection H as _ <-. by left. }
  destruct (decide (id = "" ∧ req ≠ RequestEvent.HOVER)); [discriminate|].
  assert (grab_kept d0 (checkHover req r Event.NONE d0).2 ∨
          (idGrabbed (checkHover req r Event.NONE d0).2 = qualified id d ∧
           req ≠ RequestEvent.HOVER ∧ hoverable r d = true ∧
           pointerPressed d = 1 ∧ pointerReleased d = 0)) as Hk.
  { destruct (decide (pointerPressed d0 = 1 ∧ pointerReleased d0 = 0))
      as [[P R]|Nf]; [|left; by apply checkHover_grab].
    unfold checkHover.
    change (hoverable r d0) with (hoverable r d).
    destruct (hoverable r d) eqn:Hh; simpl.
    - destruct (decide (req = RequestEvent.HOVER)); [left; by left|].
      unfold checkGrabOver.
      destruct (decide (pointerReleased d0 ≠ 0)); [lia|].
      destruct (decide (pointerPressed d0 ≠ 1)); [lia|].
      simpl. destruct (decide (req = RequestEvent.GRAB)).
      + right. done.
      + rewrite !with_flag_eq. simpl.
        destruct (gainFocus_below req Event.GRAB
                    (set_idGrabbed (qualified id d) d0)) as [_ [G|G]].
        * right. simpl in G. done.
        * left. by right.
    - destruct (decide (req = RequestEvent.HOVER)); [left; by left|].
      left. apply checkGrabOut_grab_kept. }
  destruct (checkHover req r Event.NONE d0) as [[s e] d1].
  injection H as _ <-. simpl in *.
  destruct Hk as [[Hk|Hk]|Hk]; [by left | right; by left |].
  right. right. destruct Hk as (? & ? & ? & ? & ?). done.
Qed.

Lemma grab_needs_hover_and_fresh_press_witness :
  ∃ d', check RequestEvent.GRAB (Rect 0 0 10 10) "btn"
          (set_pointerPressed 1 (movePointer (Point 50 50) initial))
        = Some (0%nat, d') ∧
        idGrabbed d' = "".
Proof.
  destruct (check RequestEvent.GRAB (Rect 0 0 10 10) "btn"
              (set_pointerPressed 1 (movePointer (Point 50 50) initial)))
    as [[i d']|] eqn:E; [|vm_compute in E; discriminate].
  assert (i = 0%nat) as -> by (vm_compute in E; congruence).
  exists d'. split; [reflexivity|].
  destruct (grab_needs_hover_and_fresh_press _ _ _ _ _ _ E)
    as [H|[H|(_ & _ & _ & H & _)]]; [exact H | exact H | discriminate H].
Defined.

End Holders.

(** ** Keyboard activation, loss of focus and loss of grab *)

Section FocusAndGrabOutcomes.

Import SDL Core.

Lemma check_from_checkHover req r id d s ev d1 :
  req ≠ RequestEvent.NONE → id ≠ "" →
  checkHover req r Event.NONE (set_idCurrent (qualified id d) d) = (s, ev, d1) →
  check req r id d =
  Some (length (elementStack d),
        set_elementStack
          (elementStack d ++ [mkTarget (String.length id) r s ev]) d1).
Proof.
  intros Hr Hid H. rewrite check_resolves by assumption. cbv zeta.
  pose proof (checkHover_stable req r Event.NONE
                (set_idCurrent (qualified id d) d)) as (Hst & _).
  rewrite H in *. simpl in *. by rewrite Hst.
Qed.

(** With no button pressed, an element that holds the focus and not the
    grab is resolved by [checkFocus], hovered or not. *)
Lemma checkHover_idle_focused req r d :
  req ≠ RequestEvent.NONE → req ≠ RequestEvent.HOVER →
  req ≠ RequestEvent.GRAB →
  idFocus d = idCurrent d → idGrabbed d ≠ idCurrent d →
  pointerPressed d = 0 →
  checkHover req r Event.NONE d =
  (if hoverable r d then with_flag Status.HOVERED else λ o, o)
    (checkFocus req Event.NONE d).
Proof.
  intros H1 H2 H3 Hf Hg Hp. unfold checkHover.
  destruct (hoverable r d); simpl;
    (destruct (decide (req = RequestEvent.HOVER)); [contradiction|]).
  - f_equal. unfold checkGrabOver.
    destruct (decide (pointerReleased d ≠ 0)).
    + destruct (decide (idGrabbed d = idCurrent d)); [contradiction|done].
    + destruct (decide (pointerPressed d ≠ 1)); [|lia].
      destruct (decide (idGrabbed d ≠ idCurrent d)); [|contradiction].
      destruct (decide (req = RequestEvent.GRAB)); [contradiction|].
      unfold gainFocus.
      destruct (decide (idFocus d = idCurrent d ∨ idNextFocus d = idCurrent d))
        as [_|N]; [reflexivity|]. exfalso. apply N. by left.
  - unfold checkGrabOut.
    destruct (decide (idGrabbed d ≠ idCurrent d)); [|contradiction].
    destruct (decide (pointerPressed d = 0)); [reflexivity|contradiction].
Qed.

(** X12.  Keyboard activation.  A [FOCUS]-tier element that holds the focus
    (and is not about to lose it), does not hold the grab and is checked with
    no button pressed stays [FOCUSED]; a pending [ACTION], [ENTER] or [SPACE]
    command gives it the event [ACTION], any other command gives [NONE]; and
    any pending command clears the grabbed id, whoever held it. *)
Theorem focused_element_activation (r : SDL_Rect) (id : string) (d : EventDispatcher) :
  id ≠ "" →
  idFocus d = qualified id d → idLosingFocus d ≠ qualified id d →
  idGrabbed d ≠ qualified id d → pointerPressed d = 0 →
  ∃ d' e,
    check RequestEvent.FOCUS r id d = Some (length (elementStack d), d') ∧
    last (elementStack d') = Some e ∧
    Status.test (status e) Status.FOCUSED = true ∧
    event e = match nextCommand d with
              | Command.ACTION | Command.ENTER | Command.SPACE => Event.ACTION
              | _ => Event.NONE
              end ∧
    idGrabbed d' = (if decide (nextCommand d = Command.NONE)
                    then idGrabbed d else "") ∧
    idFocus d' = qualified id d.
Proof.
  intros Hid Hf Hl Hg Hp.
  set (d0 := set_idCurrent (qualified id d) d).
  assert (checkFocus RequestEvent.FOCUS Event.NONE d0 =
          (Status.FOCUSED,
           match nextCommand d with
           | Command.ACTION | Command.ENTER | Command.SPACE => Event.ACTION
           | _ => Event.NONE
           end,
           (if decide (nextCommand d = Command.NONE) then λ x, x
            else set_idGrabbed "") (set_idNextFocus (qualified id d) d0)))
    as Hcf.
  { unfold checkFocus. simpl.
    destruct (decide (idFocus d = qualified id d)); [|contradiction].
    destruct (decide (idLosingFocus d = qualified id d)); [contradiction|].
    unfold checkFocusCommand.
    destruct (decide (RequestEvent.FOCUS = RequestEvent.FOCUS)); [|done].
    unfold checkActionCommand. simpl.
    destruct (nextCommand d); reflexivity. }
  assert (checkHover RequestEvent.FOCUS r Event.NONE d0 =
          (if hoverable r d0 then Status.or Status.HOVERED Status.FOCUSED
           else Status.FOCUSED,
           match nextCommand d with
           | Command.ACTION | Command.ENTER | Command.SPACE => Event.ACTION
           | _ => Event.NONE
           end,
           (if decide (nextCommand d = Command.NONE) then λ x, x
            else set_idGrabbed "") (set_idNextFocus (qualified id d) d0)))
    as Hc.
  { rewrite checkHover_idle_focused; try done.
    rewrite Hcf. by destruct (hoverable r d0). }
  assert (RequestEvent.FOCUS ≠ RequestEvent.NONE) as Hne by discriminate.
  rewrite (check_from_checkHover _ _ _ _ _ _ _ Hne Hid Hc).
  eexists _, _. split; [reflexivity|]. simpl. rewrite last_snoc.
  split; [reflexivity|]. simpl.
  split_and!; try reflexivity.
  - by destruct (hoverable r d0).
  - by destruct (decide (nextCommand d = Command.NONE)).
  - by destruct (decide (nextCommand d = Command.NONE)).
Qed.

Lemma focused_element_activation_witness :
  ∃ d' e,
    check RequestEvent.FOCUS (Rect 0 0 10 10) "ok"
      (command Command.ENTER (set_idFocus "ok" initial)) = Some (0%nat, d') ∧
    last (elementStack d') = Some e ∧
    Status.test (status e) Status.FOCUSED = true ∧ event e = Event.ACTION.
Proof.
  destruct (focused_element_activation (Rect 0 0 10 10) "ok"
              (command Command.ENTER (set_idFocus "ok" initial)))
    as (d' & e & H1 & H2 & H3 & H4 & _);
    [discriminate | reflexivity | discriminate | discriminate | reflexivity |].
  exists d', e. split_and!; assumption.
Defined.

(** X13.  A press anywhere off a focused element takes its focus away at
    once: checked while not hovered and not holding the grab, with some button
    pressed, it gets no flag and the event [FOCUS_LOST], and the dispatcher
    no longer has a focused element. *)
Theorem press_outside_drops_focus
    (req : RequestEvent.t) (r : SDL_Rect) (id : string) (d : EventDispatcher) :
  req ≠ RequestEvent.NONE → req ≠ RequestEvent.HOVER → id ≠ "" →
  hoverable r d = false → pointerPressed d ≠ 0 →
  idFocus d = qualified id d → idGrabbed d ≠ qualified id d →
  ∃ d' e,
    check req r id d = Some (length (elementStack d), d') ∧
    last (elementStack d') = Some e ∧
    status e = Status.NONE ∧ event e = Event.FOCUS_LOST ∧
    idFocus d' = "" ∧ wantsKeyboard d' = false.
Proof.
  intros H1 H2 Hid Hh Hp Hf Hg.
  set (d0 := set_idCurrent (qualified id d) d).
  assert (checkHover req r Event.NONE d0 =
          (Status.NONE, Event.FOCUS_LOST, set_idFocus "" d0)) as Hc.
  { unfold checkHover. change (hoverable r d0) with (hoverable r d).
    rewrite Hh. simpl.
    destruct (decide (req = RequestEvent.HOVER)); [contradiction|].
    unfold checkGrabOut. simpl.
    destruct (decide (idGrabbed d ≠ qualified id d)); [|contradiction].
    destruct (decide (pointerPressed d = 0)); [contradiction|].
    unfold loseFocus. simpl.
    destruct (decide (idFocus d ≠ qualified id d)); [contradiction|].
    destruct (decide (Event.NONE = Event.NONE)); [reflexivity|done]. }
  rewrite (check_from_checkHover _ _ _ _ _ _ _ H1 Hid Hc).
  eexists _, _. split; [reflexivity|]. simpl. rewrite last_snoc.
  split_and!; reflexivity.
Qed.

Lemma press_outside_drops_focus_witness :
  ∃ d' e,
    check RequestEvent.INPUT (Rect 0 0 10 10) "box"
      (set_pointerPressed 1
         (movePointer (Point 50 50) (set_idFocus "box" initial)))
    = Some (0%nat, d') ∧
    last (elementStack d') = Some e ∧
    event e = Event.FOCUS_LOST ∧ idFocus d' = "".
Proof.
  destruct (press_outside_drops_focus RequestEvent.INPUT (Rect 0 0 10 10) "box"
              (set_pointerPressed 1
                 (movePointer (Point 50 50) (set_idFocus "box" initial))))
    as (d' & e & H1 & H2 & _ & H3 & H4 & _);
    [discriminate | discriminate | discriminate | reflexivity | discriminate
    | reflexivity | discriminate |].
  exists d', e. split_and!; assumption.
Defined.

(** X14.  A grab off the element.  An element that holds the grab and is
    checked while not hovered keeps [GRABBED] as long as nothing is pressed or
    released (a drag that left the element); any press or release then ends
    the grab without [ACTION]: the status has no [GRABBED], the grabbed id is
    cleared, and for a [GRAB]-tier or unfocused element the event is
    [CANCEL] with no flag at all. *)
Theorem grab_off_element
    (req : RequestEvent.t) (r : SDL_Rect) (id : string) (d : EventDispatcher) :
  req ≠ RequestEvent.NONE → req ≠ RequestEvent.HOVER → id ≠ "" →
  hoverable r d = false → idGrabbed d = qualified id d →
  ∃ d' e,
    check req r id d = Some (length (elementStack d), d') ∧
    last (elementStack d') = Some e ∧
    (pointerPressed d = 0 → pointerReleased d = 0 →
       Status.test (status e) Status.GRABBED = true ∧
       (focus_neutral (qualified id d) d →
          event e = Event.NONE ∧ idGrabbed d' = qualified id d)) ∧
    (¬ (pointerPressed d = 0 ∧ pointerReleased d = 0) →
       Status.test (status e) Status.GRABBED = false ∧ idGrabbed d' = "" ∧
       (req = RequestEvent.GRAB ∨ idFocus d ≠ qualified id d →
          status e = Status.NONE ∧ event e = Event.CANCEL)).
Proof.
  intros H1 H2 Hid Hh Hg.
  set (d0 := set_idCurrent (qualified id d) d).
  destruct (checkHover req r Event.NONE d0) as [[s ev] d1] eqn:Hc.
  rewrite (check_from_checkHover _ _ _ _ _ _ _ H1 Hid Hc).
  eexists _, _. split; [reflexivity|]. simpl. rewrite last_snoc.
  split; [reflexivity|]. simpl.
  unfold checkHover in Hc. change (hoverable r d0) with (hoverable r d) in Hc.
  rewrite Hh in Hc. simpl in Hc.
  destruct (decide (req = RequestEvent.HOVER)); [contradiction|].
  unfold checkGrabOut in Hc. simpl in Hc.
  destruct (decide (idGrabbed d ≠ qualified id d)); [contradiction|].
  destruct (decide (pointerReleased d = 0 ∧ pointerPressed d = 0)) as [[R P]|N].
  - rewrite with_flag_eq in Hc. injection Hc as <- <- <-.
    split; [|intros N; exfalso; by apply N].
    intros _ _. split; [by rewrite test_or|].
    intros Hn. rewrite checkFocus_neutral by exact Hn. done.
  - split; [intros P R; exfalso; by apply N|]. intros _.
    assert (∀ o, below_grab (set_idGrabbed "" d0) o →
                 Status.test o.1.1 Status.GRABBED = false ∧ idGrabbed o.2 = "")
      as Hb.
    { intros o [B1 [B2|B2]]; done. }
    destruct (decide (req = RequestEvent.GRAB ∨ idFocus d ≠ qualified id d))
      as [Hor|Hor].
    + injection Hc as <- <- <-. done.
    + destruct (decide (pointerPressed d ≠ 0)).
      * destruct (Hb _ (loseFocus_below req Event.CANCEL (set_idGrabbed "" d0)))
          as [B1 B2].
        rewrite Hc in B1, B2. simpl in *. split_and!; try done;
          intros Hor'; contradiction.
      * destruct (Hb _ (checkFocus_below req Event.CANCEL (set_idGrabbed "" d0)))
          as [B1 B2].
        rewrite Hc in B1, B2. simpl in *. split_and!; try done;
          intros Hor'; contradiction.
Qed.

Lemma grab_off_element_witness :
  ∃ d' e,
    check RequestEvent.GRAB (Rect 0 0 10 10) "btn"
      (set_pointerReleased 1
         (movePointer (Point 50 50) (set_idGrabbed "btn" initial)))
    = Some (0%nat, d') ∧
    last (elementStack d') = Some e ∧
    status e = Status.NONE ∧ event e = Event.CANCEL ∧ idGrabbed d' = "".
Proof.
  destruct (grab_off_element RequestEvent.GRAB (Rect 0 0 10 10) "btn"
              (set_pointerReleased 1
                 (movePointer (Point 50 50) (set_idGrabbed "btn" initial))))
    as (d' & e & H1 & H2 & _ & H3);
    [discriminate | discriminate | discriminate | reflexivity | reflexivity |].
  destruct H3 as (_ & H4 & H5); [intros [_ R]; discriminate R|].
  destruct H5 as [H5 H6]; [by left|].
  exists d', e. split_and!; assumption.
Defined.

End FocusAndGrabOutcomes.

(** ** The command table of a focused text element *)

Section InputCommands.

Import SDL Core.

Lemma input_resolved_flag d f o :
  input_resolved d o → input_resolved d (with_flag f o).
Proof.
  destruct o as [[s e] d']. intros [Hf Hx]. split; [|exact Hx].
  simpl in *. rewrite test_or, Hf. apply orb_true_r.
Qed.

Lemma checkFocus_input_resolved ev dx d :
  idFocus dx = idCurrent dx → idLosingFocus dx ≠ idCurrent dx →
  nextCommand dx = nextCommand d → inputBuffer dx = inputBuffer d →
  input_resolved d (checkFocus RequestEvent.INPUT ev dx).
Proof.
  intros F L C B.
  rewrite checkFocus_routes_input by (try assumption; discriminate).
  rewrite with_flag_eq. split; [simpl; by rewrite test_or|]. simpl.
  exists ev, (set_idNextFocus (idCurrent dx) dx). done.
Qed.

(** A focused text element that is not marked as losing focus reaches the
    command table in every pointer state, except when a button is pressed
    while the hover test fails. *)
Lemma checkHover_input_resolved r d :
  idFocus d = idCurrent d → idLosingFocus d ≠ idCurrent d →
  hoverable r d = true ∨ pointerPressed d = 0 →
  input_resolved d (checkHover RequestEvent.INPUT r Event.NONE d).
Proof.
  intros F L Hor.
  assert (∀ ev g, input_resolved d
                    (checkFocus RequestEvent.INPUT ev (set_idGrabbed g d)))
    as Hg by (intros; by apply checkFocus_input_resolved).
  assert (∀ ev, input_resolved d (checkFocus RequestEvent.INPUT ev d))
    as H0 by (intros; by apply checkFocus_input_resolved).
  unfold checkHover.
  destruct (decide (RequestEvent.INPUT = RequestEvent.HOVER)); [discriminate|].
  destruct (hoverable r d) eqn:Hh; simpl.
  - apply input_resolved_flag. unfold checkGrabOver.
    destruct (decide (pointerReleased d ≠ 0)).
    { destruct (decide (idGrabbed d = idCurrent d)); [apply Hg | apply H0]. }
    destruct (decide (pointerPressed d ≠ 1)).
    + destruct (decide (idGrabbed d ≠ idCurrent d)).
      * destruct (decide (RequestEvent.INPUT = RequestEvent.GRAB));
          [discriminate|].
        unfold gainFocus.
        destruct (decide (idFocus d = idCurrent d ∨
                          idNextFocus d = idCurrent d)) as [_|N];
          [apply H0 | exfalso; apply N; by left].
      * destruct (decide (pointerPressed d = 0)); [|apply Hg].
        apply input_resolved_flag. unfold checkGrabCommand. cbv zeta.
        destruct (decide (RequestEvent.INPUT = RequestEvent.GRAB));
          [discriminate | apply H0].
    + cbv zeta.
      destruct (decide (RequestEvent.INPUT = RequestEvent.GRAB));
        [discriminate|].
      apply input_resolved_flag. unfold gainFocus. simpl.
      destruct (decide (idFocus d = idCurrent d ∨
                        idNextFocus d = idCurrent d)) as [_|N];
        [|exfalso; apply N; by left].
      apply (Hg Event.GRAB (idCurrent d)).
  - destruct Hor as [?|Hp]; [discriminate|].
    unfold checkGrabOut.
    destruct (decide (idGrabbed d ≠ idCurrent d)).
    { destruct (decide (pointerPressed d = 0)); [apply H0 | contradiction]. }
    destruct (decide (pointerReleased d = 0 ∧ pointerPressed d = 0)).
    { apply input_resolved_flag, H0. }
    cbv zeta.
    destruct (decide (RequestEvent.INPUT = RequestEvent.GRAB ∨
                      idFocus (set_idGrabbed "" d) ≠
                      idCurrent (set_idGrabbed "" d))) as [[?|N]|_];
      [discriminate | contradiction |].
    destruct (decide (pointerPressed (set_idGrabbed "" d) ≠ 0));
      [contradiction | apply Hg].
Qed.

(** C4, as the code has it.  Let an element of the full input tier hold
    the focus without being marked as losing it, and let it be checked while
    the hover test passes or no button is pressed.  Then its status includes
    [FOCUSED] and the pending command is resolved as: [ENTER] gives
    [END_LINE] iff the buffer is empty and is swallowed (event [NONE])
    otherwise; [SPACE] and [BACKSPACE] edit a non-empty buffer and give
    [INPUT], and pass through as the literal event on an empty buffer;
    [ESCAPE] gives [CANCEL]; without a command (or with [ACTION]) a non-empty
    buffer gives [INPUT]. *)
Theorem C4_input_command_table (r : SDL_Rect) (id : string) (d : EventDispatcher) :
  id ≠ "" →
  idFocus d = qualified id d → idLosingFocus d ≠ qualified id d →
  hoverable r d = true ∨ pointerPressed d = 0 →
  ∃ d' e,
    check RequestEvent.INPUT r id d = Some (length (elementStack d), d') ∧
    last (elementStack d') = Some e ∧
    Status.test (status e) Status.FOCUSED = true ∧
    match nextCommand d with
    | Command.ENTER =>
        (event e = Event.END_LINE ↔ inputBuffer d = "") ∧
        (inputBuffer d ≠ "" → event e = Event.NONE) ∧
        inputBuffer d' = inputBuffer d
    | Command.SPACE =>
        (inputBuffer d ≠ "" →
           event e = Event.INPUT ∧ inputBuffer d' = inputBuffer d +:+ " ") ∧
        (inputBuffer d = "" → event e = Event.SPACE ∧ inputBuffer d' = "")
    | Command.BACKSPACE =>
        (inputBuffer d ≠ "" →
           event e = Event.INPUT ∧
           inputBuffer d' = Str.pop_back (inputBuffer d) ∧
           ∃ c, inputBuffer d = inputBuffer d' +:+ String c "") ∧
        (inputBuffer d = "" → event e = Event.BACKSPACE ∧ inputBuffer d' = "")
    | Command.ESCAPE => event e = Event.CANCEL
    | Command.NONE => inputBuffer d ≠ "" → event e = Event.INPUT
    | Command.ACTION => inputBuffer d ≠ "" → event e = Event.INPUT
    end.
Proof.
  intros Hid F L Hor.
  set (d0 := set_idCurrent (qualified id d) d).
  destruct (checkHover_input_resolved r d0 F L Hor)
    as (Hfoc & ev0 & dx & C & B & He & Hd).
  destruct (checkHover RequestEvent.INPUT r Event.NONE d0) as [[s ev] d1] eqn:Hc.
  simpl in Hfoc, He, Hd.
  assert (RequestEvent.INPUT ≠ RequestEvent.NONE) as Hne by discriminate.
  rewrite (check_from_checkHover _ _ _ _ _ _ _ Hne Hid Hc).
  eexists _, _. split; [reflexivity|]. simpl. rewrite last_snoc.
  split; [reflexivity|]. simpl. split; [exact Hfoc|].
  pose proof (checkInputCommand_table ev0 dx) as T.
  destruct (checkInputCommand ev0 dx) as [[s' e'] d'] eqn:E.
  simpl in He, Hd. subst ev d1. destruct T as [_ T].
  change (nextCommand d0) with (nextCommand d) in C.
  change (inputBuffer d0) with (inputBuffer d) in B.
  rewrite C, B in T.
  destruct (nextCommand d).
  - tauto.
  - tauto.
  - tauto.
  - destruct (Str.empty (inputBuffer d)) eqn:Hb.
    + apply empty_true in Hb. destruct T as [-> ->]. split; [congruence|auto].
    + apply empty_false in Hb. destruct T as [-> ->]. split; [auto|congruence].
  - destruct (Str.empty (inputBuffer d)) eqn:Hb.
    + apply empty_true in Hb. destruct T as [-> ->]. split; [congruence|auto].
    + apply empty_false in Hb. destruct T as [-> ->]. split; [|congruence].
      intros _. repeat split. by apply pop_back_snoc.
  - tauto.
Qed.

(** The scenario of the spec: focused text box, empty buffer, pending
    [BACKSPACE]: the event is the literal [BACKSPACE]. *)
Lemma C4_input_command_table_witness :
  ∃ d d' e,
    run (c4_box_focused ++ [SetCommand Command.BACKSPACE]) initial = Some d ∧
    idFocus d = "box" ∧ inputBuffer d = "" ∧
    check RequestEvent.INPUT (Rect 0 0 10 10) "box" d = Some (0%nat, d') ∧
    last (elementStack d') = Some e ∧
    Status.test (status e) Status.FOCUSED = true ∧
    event e = Event.BACKSPACE ∧ inputBuffer d' = "".
Proof.
  destruct (run (c4_box_focused ++ [SetCommand Command.BACKSPACE]) initial)
    as [d|] eqn:Hd; vm_compute in Hd; [|discriminate].
  injection Hd as Hd. subst d.
  match goal with |- ∃ d d' e, Some ?c = _ ∧ _ => set (d := c) end.
  destruct (C4_input_command_table (Rect 0 0 10 10) "box" d)
    as (d' & e & H1 & H2 & H3 & H4);
    [discriminate | reflexivity | discriminate | by left |].
  destruct H4 as [_ [H4 H5]]; [reflexivity|].
  exists d, d', e. split_and!; try reflexivity; assumption.
Defined.

(** C4 fails as worded in two ways, in both of which "box" is the focused
    element and Escape is pending.  (1) Another element has asked for focus,
    so "box" is marked as losing it: its status is still [FOCUSED], but the
    event is [NONE], not [CANCEL].  (2) A button is pressed away from "box":
    it loses the focus at once, with no flag and the event [FOCUS_LOST]. *)
Lemma C4_counterexample :
  (∃ d d' e,
     run c4_losing_escape initial = Some d ∧
     idFocus d = "box" ∧ nextCommand d = Command.ESCAPE ∧
     check RequestEvent.INPUT (Rect 0 0 10 10) "box" d = Some (0%nat, d') ∧
     elementStack d' = [e] ∧
     Status.test (status e) Status.FOCUSED = true ∧
     event e = Event.NONE) ∧
  (∃ d d' e,
     run c4_press_outside initial = Some d ∧
     idFocus d = "box" ∧ nextCommand d = Command.ESCAPE ∧
     check RequestEvent.INPUT (Rect 0 0 10 10) "box" d = Some (0%nat, d') ∧
     elementStack d' = [e] ∧
     status e = Status.NONE ∧ event e = Event.FOCUS_LOST).
Proof.
  split; eexists _, _, _;
    (split; [vm_compute; reflexivity|]);
    split_and!; vm_compute; reflexivity.
Qed.

End InputCommands.

(** ** Two focus requests in one frame *)

Section FocusRequestsInFrame.

Import SDL Core.

Lemma checkActionCommand_ids ev d :
  idFocus (checkActionCommand ev d).2 = idFocus d ∧
  idNextFocus (checkActionCommand ev d).2 = idNextFocus d.
Proof. unfold checkActionCommand. repeat (case_decide || case_match); done. Qed.

Lemma checkInputCommand_ids ev d :
  idFocus (checkInputCommand ev d).2 = idFocus d ∧
  idNextFocus (checkInputCommand ev d).2 = idNextFocus d.
Proof.
  unfold checkInputCommand.
  destruct (nextCommand d); destruct (Str.empty (inputBuffer d)); cbn [negb];
    try apply checkActionCommand_ids; try done;
    destruct (checkActionCommand_ids Event.INPUT
                (set_inputBuffer (inputBuffer d +:+ " ") d)) as [? ?];
    destruct (checkActionCommand_ids Event.INPUT
                (set_inputBuffer (Str.pop_back (inputBuffer d)) d)) as [? ?];
    done.
Qed.

Lemma checkFocusCommand_ids req ev d :
  idFocus (checkFocusCommand req ev d).2 = idFocus d ∧
  idNextFocus (checkFocusCommand req ev d).2 = idNextFocus d.
Proof.
  unfold checkFocusCommand. case_decide;
    [apply checkActionCommand_ids | apply checkInputCommand_ids].
Qed.

Lemma claim_of_other_set_idGrabbed q g d :
  claim_of_other q d → claim_of_other q (set_idGrabbed g d).
Proof. done. Qed.

Lemma checkFocus_claim q req ev d :
  q ≠ "" → idCurrent d ≠ q → idCurrent d ≠ "" →
  claim_of_other q d → claim_of_other q (checkFocus req ev d).2.
Proof.
  intros Hq Hc Hne (Hf & Hn & He). unfold checkFocus.
  repeat case_decide; rewrite ?with_flag_eq; cbn [fst snd];
    try (split_and!; simpl; congruence).
  destruct (checkFocusCommand_ids req ev (set_idNextFocus (idCurrent d) d))
    as [E1 E2].
  unfold claim_of_other. rewrite E1, E2. simpl. split_and!; congruence.
Qed.

Lemma gainFocus_claim q req ev d :
  q ≠ "" → idCurrent d ≠ q → idCurrent d ≠ "" →
  claim_of_other q d → claim_of_other q (gainFocus req ev d).2.
Proof.
  intros Hq Hc Hne HJ. unfold gainFocus.
  case_decide; [by apply checkFocus_claim|].
  destruct HJ as (Hf & Hn & He). cbv zeta.
  repeat (case_decide || case_match); cbn [fst snd];
    split_and!; simpl; congruence.
Qed.

Lemma loseFocus_claim q req ev d :
  q ≠ "" → idCurrent d ≠ q → idCurrent d ≠ "" →
  claim_of_other q d → claim_of_other q (loseFocus req ev d).2.
Proof.
  intros Hq Hc Hne HJ. unfold loseFocus.
  case_decide; [by apply checkFocus_claim|].
  case_decide.
  - destruct HJ as (Hf & Hn & He). split_and!; simpl; congruence.
  - apply (checkFocus_claim q req ev (set_idLosingFocus (idCurrent d) d));
      done.
Qed.

Lemma checkGrabCommand_claim q req ev d :
  q ≠ "" → idCurrent d ≠ q → idCurrent d ≠ "" →
  claim_of_other q d → claim_of_other q (checkGrabCommand req ev d).2.
Proof.
  intros Hq Hc Hne HJ. unfold checkGrabCommand. cbv zeta.
  case_decide; [|by apply checkFocus_claim].
  destruct HJ as (Hf & Hn & He).
  match goal with |- claim_of_other _ (checkActionCommand ?e _).2 =>
    destruct (checkActionCommand_ids e d) as [E1 E2] end.
  unfold claim_of_other. by rewrite E1, E2.
Qed.

Lemma checkHover_claim q req r ev d :
  q ≠ "" → idCurrent d ≠ q → idCurrent d ≠ "" →
  claim_of_other q d → claim_of_other q (checkHover req r ev d).2.
Proof.
  intros Hq Hc Hne HJ.
  unfold checkHover, checkGrabOut, checkGrabOver.
  repeat (case_decide || case_match); cbv zeta; repeat case_decide;
    rewrite ?with_flag_eq; cbn [fst snd]; try exact HJ;
    first
      [ by apply checkFocus_claim
      | by apply loseFocus_claim
      | by apply gainFocus_claim
      | by apply checkGrabCommand_claim
      | apply (checkFocus_claim q _ _ (set_idGrabbed "" d)); done
      | apply (loseFocus_claim q _ _ (set_idGrabbed "" d)); done
      | apply (gainFocus_claim q _ _ (set_idGrabbed (idCurrent d) d)); done
      | done ].
Qed.

(** A call made elsewhere keeps somebody else's claim standing. *)
Lemma call_claim q c d d' :
  q ≠ "" → elsewhere q [c] d = true → call c d = Some d' →
  claim_of_other q d → claim_of_other q d'.
Proof.
  intros Hq He Hcall HJ.
  destruct c as [pos|button|button|cmd|text| |q'|req r id| |i w|i h|i w h|i];
    simpl in He; try discriminate.
  - apply andb_true_iff in He as [He _]. apply bool_decide_eq_true in He.
    simpl in Hcall.
    destruct (check req r id d) as [[i d1]|] eqn:Hchk; [|discriminate].
    injection Hcall as <-.
    unfold check in Hchk.
    set (d0 := set_idCurrent (qualified id d) d) in *.
    assert (match elementStack d with
            | [] => set_idCurrent id d
            | _ :: _ =>
                set_idCurrent
                  (idCurrent d +:+ String groupNameSeparator "" +:+ id) d
            end = d0) as E0.
    { unfold d0, qualified. by destruct (elementStack d). }
    rewrite E0 in Hchk. clear E0.
    destruct (decide (req = RequestEvent.NONE)).
    { by injection Hchk as _ <-. }
    destruct (decide (id = "" ∧ req ≠ RequestEvent.HOVER)) as [|Hn];
      [discriminate|].
    destruct (decide (req = RequestEvent.HOVER)) as [->|Hh].
    { unfold checkHover in Hchk.
      destruct (negb (hoverable r d0));
        destruct (decide (RequestEvent.HOVER = RequestEvent.HOVER));
        try done; by injection Hchk as _ <-. }
    assert (id ≠ "") as Hid.
    { intros ->. apply Hn. done. }
    pose proof (checkHover_claim q req r Event.NONE d0 Hq He
                  (qualified_nonempty id d Hid) HJ) as HJ'.
    destruct (checkHover req r Event.NONE d0) as [[s e] d1'].
    by injection Hchk as _ <-.
  - simpl in Hcall.
    destruct (popTarget_shape _ _ Hcall)
      as (st & el & _ & _ & _ & _ & _ & _ & _ & _ & _ & _ & Hf & Hn & _).
    unfold claim_of_other. by rewrite Hf, Hn.
  - eapply handle_call_shape in Hcall as [_ ->]; [done | exact I].
  - eapply handle_call_shape in Hcall as [_ ->]; [done | exact I].
  - eapply handle_call_shape in Hcall as [_ ->]; [done | exact I].
  - eapply handle_call_shape in Hcall as [_ ->]; [done | exact I].
Qed.

Lemma run_claim q cs d dk :
  q ≠ "" → elsewhere q cs d = true → run cs d = Some dk →
  claim_of_other q d → claim_of_other q dk.
Proof.
  intros Hq. revert d. induction cs as [|c cs IH]; intros d He Hrun HJ.
  - simpl in Hrun. by injection Hrun as <-.
  - simpl in Hrun. destruct (call c d) as [d1|] eqn:Hc; [|discriminate].
    assert (elsewhere q [c] d = true ∧ elsewhere q cs d1 = true) as [E1 E2].
    { simpl in He |- *. rewrite Hc in He |- *.
      apply andb_true_iff in He as [-> ->]. done. }
    apply (IH d1 E2 Hrun). by apply (call_claim q c d).
Qed.

Lemma checkFocus_unclaimed req ev d :
  idFocus d ≠ idCurrent d → idNextFocus d ≠ idCurrent d →
  (checkFocus req ev d).1.1 = Status.NONE.
Proof.
  intros Hf Hn. unfold checkFocus.
  repeat (case_decide; try contradiction); reflexivity.
Qed.

Lemma loseFocus_unclaimed req ev d :
  idFocus d ≠ idCurrent d → idNextFocus d ≠ idCurrent d →
  (loseFocus req ev d).1.1 = Status.NONE.
Proof.
  intros Hf Hn. unfold loseFocus.
  destruct (decide (idFocus d ≠ idCurrent d)); [|contradiction].
  by apply checkFocus_unclaimed.
Qed.

(** An element that is neither focused nor the claimant gets [FOCUSED] from
    its check only by asking for focus under the pointer: with the hover test
    passed, a tier above [GRAB], and, while a claim is pending, an enclosing
    element that is [FOCUSED]. *)
Lemma checkHover_unclaimed req r ev d :
  idFocus d ≠ idCurrent d → idNextFocus d ≠ idCurrent d →
  idNextFocus d ≠ "" →
  hoverable r d = false ∨ req = RequestEvent.GRAB ∨ parent_not_focused d →
  Status.test (checkHover req r ev d).1.1 Status.FOCUSED = false.
Proof.
  intros Hf Hn He [Hh|[->|Hp]].
  - unfold checkHover. rewrite Hh. simpl.
    destruct (decide (req = RequestEvent.HOVER)); [reflexivity|].
    unfold checkGrabOut.
    repeat case_decide; rewrite ?with_flag_eq; cbn [fst snd];
      rewrite ?test_or;
      rewrite ?checkFocus_unclaimed, ?loseFocus_unclaimed by done;
      reflexivity.
  - unfold checkHover, checkGrabOut, checkGrabOver, checkGrabCommand.
    destruct (hoverable r d); cbn [negb];
    repeat case_decide; cbv zeta; repeat case_decide;
      rewrite ?with_flag_eq; cbn [fst snd]; rewrite ?test_or;
      rewrite ?checkFocus_unclaimed, ?loseFocus_unclaimed,
        ?checkActionCommand_status by done;
      try reflexivity; try discriminate; try contradiction.
  - apply checkHover_outbid. done.
Qed.

(** C3, as the code has it.  When no unconsumed claim is pending (the
    next-focus id is empty or equals the focused id), the first [tryFocus]
    returns true and records its id.  If that id is non-empty and is not the
    focused id, a second [tryFocus] returns false and changes nothing.  And
    during the rest of the frame (any sequence of handle releases, handle
    operations and checks of other elements, with no further focus request)
    a check of the second element does not give it [FOCUSED], provided its
    id is neither the first id nor the focused id, and unless it passes the
    hover test with the [FOCUS] or [INPUT] tier inside an element that is
    [FOCUSED]. *)
Theorem C3_tryFocus_first_claim_wins (q1 q2 : string) (d : EventDispatcher) :
  idNextFocus d = "" ∨ idNextFocus d = idFocus d →
  q1 ≠ "" → q1 ≠ idFocus d →
  ∃ d1,
    tryFocus q1 d = (true, d1) ∧ idNextFocus d1 = q1 ∧
    tryFocus q2 d1 = (false, d1) ∧
    ∀ cs dk req r id i d2,
      q2 ≠ q1 → q2 ≠ idFocus d →
      elsewhere q2 cs d1 = true → run cs d1 = Some dk →
      qualified id dk = q2 →
      hoverable r dk = false ∨
      (req ≠ RequestEvent.FOCUS ∧ req ≠ RequestEvent.INPUT) ∨
      parent_not_focused dk →
      check req r id dk = Some (i, d2) →
      ∃ e, last (elementStack d2) = Some e ∧
           Status.test (status e) Status.FOCUSED = false.
Proof.
  intros Hfree Hq1 Hq1f.
  assert (tryFocus q1 d =
          (true, if decide (idFocus d ≠ "")
                 then set_idLosingFocus (idFocus d) (set_idNextFocus q1 d)
                 else set_idNextFocus q1 d)) as E1.
  { unfold tryFocus.
    destruct (decide (idNextFocus d ≠ "" ∧ idNextFocus d ≠ idFocus d))
      as [[? ?]|_]; [destruct Hfree; contradiction|].
    simpl. by destruct (decide (idFocus d ≠ "")). }
  eexists. split; [exact E1|].
  set (d1 := if decide (idFocus d ≠ "")
             then set_idLosingFocus (idFocus d) (set_idNextFocus q1 d)
             else set_idNextFocus q1 d).
  assert (idNextFocus d1 = q1) as Hn1 by (unfold d1; by case_decide).
  assert (idFocus d1 = idFocus d) as Hf1 by (unfold d1; by case_decide).
  split; [exact Hn1|]. split.
  - unfold tryFocus. rewrite Hn1, Hf1.
    destruct (decide (q1 ≠ "" ∧ q1 ≠ idFocus d)) as [_|N]; [reflexivity|].
    exfalso. apply N. done.
  - intros cs dk req r id i d2 Hne Hq2f Hels Hrun Hq Hguard Hck.
    unfold check in Hck.
    set (d0 := set_idCurrent (qualified id dk) dk) in *.
    assert (match elementStack dk with
            | [] => set_idCurrent id dk
            | _ :: _ =>
                set_idCurrent
                  (idCurrent dk +:+ String groupNameSeparator "" +:+ id) dk
            end = d0) as E0.
    { unfold d0, qualified. by destruct (elementStack dk). }
    rewrite E0 in Hck. clear E0.
    destruct (decide (req = RequestEvent.NONE)).
    { injection Hck as _ <-. simpl. rewrite last_snoc. eexists. split; done. }
    destruct (decide (id = "" ∧ req ≠ RequestEvent.HOVER)) as [|Hn];
      [discriminate|].
    destruct (decide (req = RequestEvent.HOVER)) as [->|Hh].
    { unfold checkHover in Hck.
      destruct (negb (hoverable r d0));
        destruct (decide (RequestEvent.HOVER = RequestEvent.HOVER));
        try done; injection Hck as _ <-; simpl; rewrite last_snoc;
        eexists; split; done. }
    assert (id ≠ "") as Hid.
    { intros ->. apply Hn. done. }
    assert (q2 ≠ "") as Hq2.
    { rewrite <- Hq. by apply qualified_nonempty. }
    assert (claim_of_other q2 dk) as (J1 & J2 & J3).
    { apply (run_claim q2 cs d1 dk Hq2 Hels Hrun).
      unfold claim_of_other. rewrite Hf1, Hn1. split_and!; congruence. }
    pose proof (checkHover_unclaimed req r Event.NONE d0) as Hst.
    destruct (checkHover req r Event.NONE d0) as [[s e] d'].
    injection Hck as _ <-. simpl. rewrite last_snoc. eexists.
    split; [reflexivity|]. simpl. apply Hst; unfold d0; simpl;
      rewrite ?Hq; try done.
    destruct Hguard as [?|[[R1 R2]|?]]; auto.
    right; left. destruct req; done.
Qed.

(** Two top-level widgets "ok" and "cancel" both ask for focus in the first
    frame of a fresh dispatcher; "ok" is checked and gains the focus, then
    "cancel" is checked. *)
Lemma C3_tryFocus_first_claim_wins_witness :
  ∃ d1 dk d2 e,
    tryFocus "ok" initial = (true, d1) ∧ idNextFocus d1 = "ok" ∧
    tryFocus "cancel" d1 = (false, d1) ∧
    run [Check RequestEvent.FOCUS (Rect 0 0 10 10) "ok"; PopTarget] d1 =
      Some dk ∧
    idFocus dk = "ok" ∧
    check RequestEvent.FOCUS (Rect 20 0 10 10) "cancel" dk = Some (0%nat, d2) ∧
    last (elementStack d2) = Some e ∧
    Status.test (status e) Status.FOCUSED = false.
Proof.
  destruct (C3_tryFocus_first_claim_wins "ok" "cancel" initial)
    as (d1 & H1 & H2 & H3 & H4); [by left | discriminate | discriminate |].
  injection H1 as <-.
  destruct (run [Check RequestEvent.FOCUS (Rect 0 0 10 10) "ok"; PopTarget]
              (set_idNextFocus "ok" initial)) as [dk|] eqn:Hk;
    [|vm_compute in Hk; discriminate].
  destruct (check RequestEvent.FOCUS (Rect 20 0 10 10) "cancel" dk)
    as [[i d2]|] eqn:Hc;
    [|vm_compute in Hk; injection Hk as <-; vm_compute in Hc; discriminate].
  destruct (H4 [Check RequestEvent.FOCUS (Rect 0 0 10 10) "ok"; PopTarget]
              dk RequestEvent.FOCUS (Rect 20 0 10 10) "cancel" i d2)
    as (e & He1 & He2);
    [discriminate | discriminate | reflexivity | exact Hk
    | vm_compute in Hk; by injection Hk as <-
    | right; right; vm_compute in Hk; by injection Hk as <-
    | exact Hc |].
  exists (set_idNextFocus "ok" initial), dk, d2, e.
  split_and!; try reflexivity; try assumption.
  - vm_compute in Hk. by injection Hk as <-.
  - vm_compute in Hk. injection Hk as <-. vm_compute in Hc.
    by injection Hc as <- <-.
Defined.

(** C3 fails as worded in several ways.
    (1) "a" holds the focus from the previous frame; when "a" and then "b"
        call [tryFocus], both calls return true and "b" overwrites the claim.
    (2) With the empty id as first argument the second call returns true as
        well.
    (3) "a" asked for focus in the previous frame and was never checked: the
        claim is still pending, and the first call of the next frame returns
        false.
    (4) "a" holds the focus; "b" asks first and "a" second: the second call
        returns false, yet "a" is still [FOCUSED] when checked.
    (5) "p" asks first and its child "p/c" second: the second call returns
        false, "p" is checked and gains the focus, and "c", checked under the
        pointer inside "p", takes the focus over in the same frame.
    (6) "a" asks first and "b" second (refused); "a" is checked and gains the
        focus, which consumes its claim; "b" asks again, is accepted this
        time, and is [FOCUSED] when checked. *)
Lemma C3_counterexample :
  (∃ d d1 d2,
     run c3_focus_a initial = Some d ∧ idFocus d = "a" ∧
     tryFocus "a" d = (true, d1) ∧
     tryFocus "b" d1 = (true, d2) ∧ idNextFocus d2 = "b") ∧
  (∃ d1 d2,
     tryFocus "" initial = (true, d1) ∧ tryFocus "b" d1 = (true, d2)) ∧
  (∃ d, run c3_unconsumed initial = Some d ∧ elementStack d = [] ∧
        tryFocus "b" d = (false, d)) ∧
  (∃ d d1 d2 e,
     run c3_focus_a initial = Some d ∧ idFocus d = "a" ∧
     tryFocus "b" d = (true, d1) ∧ tryFocus "a" d1 = (false, d1) ∧
     check RequestEvent.FOCUS (Rect 0 0 10 10) "a" d1 = Some (0%nat, d2) ∧
     elementStack d2 = [e] ∧
     Status.test (status e) Status.FOCUSED = true) ∧
  (∃ d1 dk d2 p c,
     tryFocus "p" initial = (true, d1) ∧ tryFocus "p/c" d1 = (false, d1) ∧
     run [Check RequestEvent.FOCUS (Rect 0 0 20 20) "p"] d1 = Some dk ∧
     qualified "c" dk = "p/c" ∧
     check RequestEvent.FOCUS (Rect 0 0 10 10) "c" dk = Some (1%nat, d2) ∧
     elementStack d2 = [p; c] ∧
     Status.test (status c) Status.FOCUSED = true ∧
     event c = Event.FOCUS_GAINED ∧ idFocus d2 = "p/c") ∧
  (∃ d1 dk dk' d2 e,
     tryFocus "a" initial = (true, d1) ∧ tryFocus "b" d1 = (false, d1) ∧
     run [Check RequestEvent.FOCUS (Rect 0 0 10 10) "a"; PopTarget] d1 =
       Some dk ∧
     tryFocus "b" dk = (true, dk') ∧
     check RequestEvent.FOCUS (Rect 20 0 10 10) "b" dk' = Some (0%nat, d2) ∧
     elementStack d2 = [e] ∧
     Status.test (status e) Status.FOCUSED = true).
Proof.
  split_and!.
  - eexists _, _, _. split; [vm_compute; reflexivity|].
    split_and!; vm_compute; reflexivity.
  - eexists _, _. split; vm_compute; reflexivity.
  - eexists. split; [vm_compute; reflexivity|].
    split; vm_compute; reflexivity.
  - eexists _, _, _, _. split; [vm_compute; reflexivity|].
    split_and!; vm_compute; reflexivity.
  - eexists _, _, _, _, _. split; [vm_compute; reflexivity|].
    split; [vm_compute; reflexivity|].
    split; [vm_compute; reflexivity|].
    split_and!; vm_compute; reflexivity.
  - eexists _, _, _, _, _. split; [vm_compute; reflexivity|].
    split; [vm_compute; reflexivity|].
    split; [vm_compute; reflexivity|].
    split; [vm_compute; reflexivity|].
    split_and!; vm_compute; reflexivity.
Qed.

End FocusRequestsInFrame.

(** ** A granted focus request *)

Section FocusHandOver.

Import SDL Core.

Lemma checkFocus_claimant req ev d :
  idFocus d ≠ idCurrent d → idLosingFocus d ≠ idCurrent d →
  idNextFocus d = idCurrent d →
  checkFocus req ev d =
  (Status.FOCUSED, Event.FOCUS_GAINED, set_idFocus (idCurrent d) d).
Proof.
  intros Hf Hl Hn. unfold checkFocus.
  destruct (decide (idFocus d = idCurrent d)); [contradiction|].
  destruct (decide (idLosingFocus d = idCurrent d)); [contradiction|].
  destruct (decide (idNextFocus d = idCurrent d)); [reflexivity|contradiction].
Qed.

Lemma tryFocus_granted q d d1 :
  tryFocus q d = (true, d1) →
  d1 = (if decide (idFocus d ≠ "") then set_idLosingFocus (idFocus d)
        else λ x, x) (set_idNextFocus q d).
Proof.
  unfold tryFocus.
  destruct (decide (idNextFocus d ≠ "" ∧ idNextFocus d ≠ idFocus d));
    [discriminate|].
  simpl. intros [= <-]. by destruct (decide (idFocus d ≠ "")).
Qed.

(** X15.  A granted focus request is honoured when the element is
    checked, as long as the claim still stands.  If [tryFocus] accepted the
    qualified id [q] of an element and, at the time the element is checked,
    the next-focus id is still the one that call recorded, [q] is not the
    focused id, is not marked as losing focus and does not hold the grab,
    then a check with the [FOCUS] or [INPUT] tier, in any pointer state and
    hovered or not, gives the element [FOCUSED] with the event [FOCUS_GAINED]
    and makes it the active element.  (Calls made in between can overwrite
    the claim; then the hypothesis on the next-focus id fails.) *)
Theorem tryFocus_then_check_gains_focus
    (req : RequestEvent.t) (r : SDL_Rect) (id : string)
    (d0 d : EventDispatcher) :
  req = RequestEvent.FOCUS ∨ req = RequestEvent.INPUT → id ≠ "" →
  (tryFocus (qualified id d) d0).1 = true →
  idNextFocus d = idNextFocus (tryFocus (qualified id d) d0).2 →
  idFocus d ≠ qualified id d → idLosingFocus d ≠ qualified id d →
  idGrabbed d ≠ qualified id d →
  ∃ d' e,
    check req r id d = Some (length (elementStack d), d') ∧
    last (elementStack d') = Some e ∧
    Status.test (status e) Status.FOCUSED = true ∧
    event e = Event.FOCUS_GAINED ∧
    isActive (qualified id d) d' = true.
Proof.
  intros Hreq Hid Ht Hn Hf Hl Hg.
  set (q := qualified id d) in *.
  assert (idNextFocus d = q) as Hn1.
  { rewrite Hn. destruct (tryFocus q d0) as [b d1] eqn:E. simpl in Ht.
    subst b. apply tryFocus_granted in E. subst d1. simpl.
    by destruct (decide (idFocus d0 ≠ "")). }
  clear Hn Ht.
  set (dq := set_idCurrent (qualified id d) d).
  assert (∀ ev g, let dx := set_idGrabbed g dq in
            checkFocus req ev dx =
            (Status.FOCUSED, Event.FOCUS_GAINED, set_idFocus q dx)) as Hcf.
  { intros ev g dx. rewrite checkFocus_claimant; subst dx dq; simpl; done. }
  assert (∀ ev, checkFocus req ev dq =
                (Status.FOCUSED, Event.FOCUS_GAINED, set_idFocus q dq)) as Hcf0.
  { intros ev. rewrite checkFocus_claimant; subst dq; simpl; done. }
  assert (req ≠ RequestEvent.NONE ∧ req ≠ RequestEvent.HOVER ∧
          req ≠ RequestEvent.GRAB) as (R1 & R2 & R3).
  { destruct Hreq as [-> | ->]; split_and!; discriminate. }
  destruct (checkHover req r Event.NONE dq) as [[s ev] d2] eqn:Hc.
  assert (Status.test s Status.FOCUSED = true ∧ ev = Event.FOCUS_GAINED ∧
          idFocus d2 = q) as (S1 & S2 & S3).
  { unfold checkHover in Hc.
    destruct (decide (req = RequestEvent.HOVER)); [contradiction|].
    assert (idGrabbed dq ≠ idCurrent dq) as Hg0 by (by subst dq).
    assert (idFocus dq ≠ idCurrent dq) as Hf0 by (by subst dq).
    assert (idNextFocus dq = idCurrent dq) as Hn0 by (by subst dq).
    destruct (hoverable r dq); simpl in Hc.
    - unfold checkGrabOver in Hc.
      destruct (decide (pointerReleased dq ≠ 0)).
      + destruct (decide (idGrabbed dq = idCurrent dq)); [contradiction|].
        rewrite with_flag_eq, Hcf0 in Hc. injection Hc as <- <- <-.
        by rewrite test_or.
      + destruct (decide (pointerPressed dq ≠ 1)).
        * destruct (decide (idGrabbed dq ≠ idCurrent dq)); [|contradiction].
          destruct (decide (req = RequestEvent.GRAB)); [contradiction|].
          unfold gainFocus in Hc.
          destruct (decide (idFocus dq = idCurrent dq ∨
                            idNextFocus dq = idCurrent dq)) as [_|N];
            [|exfalso; apply N; by right].
          rewrite with_flag_eq, Hcf0 in Hc. injection Hc as <- <- <-.
          by rewrite test_or.
        * destruct (decide (req = RequestEvent.GRAB)); [contradiction|].
          cbv zeta in Hc. unfold gainFocus in Hc. simpl in Hc.
          destruct (decide (idFocus d = qualified id d ∨
                            idNextFocus d = qualified id d)) as [_|N];
            [|exfalso; apply N; by right].
          change (set_idGrabbed (qualified id d) dq) with
            (set_idGrabbed (idCurrent dq) dq) in Hc.
          rewrite !with_flag_eq, (Hcf _ (idCurrent dq)) in Hc.
          injection Hc as <- <- <-. by rewrite !test_or, orb_true_r.
    - unfold checkGrabOut in Hc.
      destruct (decide (idGrabbed dq ≠ idCurrent dq)); [|contradiction].
      destruct (decide (pointerPressed dq = 0)).
      + rewrite Hcf0 in Hc. by injection Hc as <- <- <-.
      + unfold loseFocus in Hc.
        destruct (decide (idFocus dq ≠ idCurrent dq)); [|contradiction].
        rewrite Hcf0 in Hc. by injection Hc as <- <- <-. }
  rewrite (check_from_checkHover _ _ _ _ _ _ _ R1 Hid Hc).
  eexists _, _. split; [reflexivity|]. simpl. rewrite last_snoc.
  split; [reflexivity|]. simpl. split_and!; try done.
  unfold isActive. simpl. by apply bool_decide_eq_true.
Qed.

(** "other" holds the focus; "name" asks for it, an unrelated label is
    checked and released, then "name" is checked. *)
Lemma tryFocus_then_check_gains_focus_witness :
  ∃ d d' e,
    run [TryFocus "name";
         Check RequestEvent.HOVER (Rect 0 30 40 8) "label"; PopTarget]
      (set_idFocus "other" initial) = Some d ∧
    check RequestEvent.INPUT (Rect 0 0 10 10) "name" d = Some (0%nat, d') ∧
    last (elementStack d') = Some e ∧
    Status.test (status e) Status.FOCUSED = true ∧
    event e = Event.FOCUS_GAINED ∧
    isActive "name" d' = true.
Proof.
  eexists. 
  assert (∀ d, run [TryFocus "name";
                    Check RequestEvent.HOVER (Rect 0 30 40 8) "label"; PopTarget]
                 (set_idFocus "other" initial) = Some d →
          ∃ d' e,
            check RequestEvent.INPUT (Rect 0 0 10 10) "name" d = Some (0%nat, d') ∧
            last (elementStack d') = Some e ∧
            Status.test (status e) Status.FOCUSED = true ∧
            event e = Event.FOCUS_GAINED ∧
            isActive "name" d' = true) as H.
  { intros d Hd. vm_compute in Hd. injection Hd as <-.
    apply (tryFocus_then_check_gains_focus RequestEvent.INPUT (Rect 0 0 10 10)
             "name" (set_idFocus "other" initial));
      [by right | discriminate | reflexivity | reflexivity | discriminate
      | discriminate | discriminate]. }
  destruct (H _ eq_refl) as (d' & e & H').
  exists d', e. split; [reflexivity | exact H'].
Defined.

End FocusHandOver.

(** ** Operations on a handle: [discard] and the shrink family *)

Section HandleOperations.

Import SDL Core.

Lemma reset_reset_sub (s f g : StatusFlags) :
  Z.land g (Z.lnot f) = 0 →
  Status.reset (Status.reset s f) g = Status.reset s f.
Proof.
  intros Hg. unfold Status.reset. apply Z.bits_inj'. intros n Hn.
  rewrite !Z.ldiff_spec.
  assert (Z.testbit (Z.land g (Z.lnot f)) n = false) as Hb
    by (rewrite Hg; apply Z.bits_0).
  rewrite Z.land_spec, Z.lnot_spec in Hb by exact Hn.
  destruct (Z.testbit s n), (Z.testbit f n), (Z.testbit g n);
    simpl in *; congruence.
Qed.

Lemma discard_state_idempotent e :
  discard_state (discard_state e) = discard_state e.
Proof.
  unfold discard_state.
  destruct (Status.test (status e) Status.GRABBED) eqn:G; simpl.
  - destruct (decide (event e = Event.GRAB)) as [E|E]; simpl.
    + rewrite test_reset_sub_false by reflexivity.
      simpl. unfold set_status, set_event. simpl. f_equal.
      by apply reset_reset_sub.
    + rewrite G. simpl. destruct (decide (event e = Event.GRAB)); done.
  - assert (Status.test (Status.reset (status e) Status.HOVERED) Status.GRABBED
            = false) as ->.
    { by rewrite test_reset_other. }
    simpl. unfold set_status. simpl. f_equal. by apply reset_reset_sub.
Qed.

(** X16.  What [discard] does and does not do.  When it succeeds the index
    is on the stack, and it rewrites that one entry and nothing else in the
    dispatcher (in particular the grabbed id stays).  The entry keeps
    its rectangle and its [FOCUSED] flag; a grab held from an earlier frame is
    left entirely alone; an element without the grab, or one that took it in
    this very check (event [GRAB]), ends with neither [HOVERED] nor
    [GRABBED]; and discarding a second time changes nothing. *)
Theorem discard_effect (i : nat) (d d1 : EventDispatcher) :
  discard i d = Some d1 →
  ∃ e e',
    elementStack d !! i = Some e ∧
    d1 = set_elementStack (<[ i := e' ]> (elementStack d)) d ∧
    rect e' = rect e ∧
    Status.test (status e') Status.FOCUSED = Status.test (status e) Status.FOCUSED ∧
    (Status.test (status e) Status.GRABBED = true → event e ≠ Event.GRAB →
       e' = e) ∧
    (Status.test (status e) Status.GRABBED = false ∨ event e = Event.GRAB →
       Status.test (status e') Status.HOVERED = false ∧
       Status.test (status e') Status.GRABBED = false) ∧
    discard i d1 = Some d1.
Proof.
  unfold discard. destruct (elementStack d !! i) as [e|] eqn:He; [|discriminate].
  intros [= <-]. exists e, (discard_state e).
  split; [reflexivity|]. split; [reflexivity|].
  assert (i < length (elementStack d))%nat as Hi
    by (by eapply lookup_lt_Some).
  split_and!.
  - unfold discard_state.
    destruct (Status.test (status e) Status.GRABBED); simpl; [|done].
    destruct (decide (event e = Event.GRAB)); done.
  - unfold discard_state.
    destruct (Status.test (status e) Status.GRABBED); simpl.
    + destruct (decide (event e = Event.GRAB)); simpl; [|done].
      by rewrite test_reset_other.
    + by rewrite test_reset_other.
  - intros G E. unfold discard_state. rewrite G. simpl.
    destruct (decide (event e = Event.GRAB)); done.
  - intros H. unfold discard_state.
    destruct (Status.test (status e) Status.GRABBED) eqn:G; simpl.
    + destruct H as [H|H]; [discriminate|].
      destruct (decide (event e = Event.GRAB)); [|contradiction]. simpl.
      split; apply test_reset_sub_false; reflexivity.
    + split; [apply test_reset_same|]. by rewrite test_reset_other.
  - simpl. rewrite list_lookup_insert_eq by exact Hi.
    rewrite list_insert_insert_eq, discard_state_idempotent. reflexivity.
Qed.

Lemma discard_effect_witness :
  let d := set_elementStack
             [mkTarget 1 (Rect 0 0 4 4)
                (Status.or Status.HOVERED Status.GRABBED) Event.GRAB]
             (set_idGrabbed "a" initial) in
  ∃ d1, discard 0 d = Some d1 ∧ idGrabbed d1 = "a" ∧ discard 0 d1 = Some d1.
Proof.
  cbv zeta. eexists. split; [reflexivity|].
  destruct (discard_effect 0
              (set_elementStack
                 [mkTarget 1 (Rect 0 0 4 4)
                    (Status.or Status.HOVERED Status.GRABBED) Event.GRAB]
                 (set_idGrabbed "a" initial)) _ eq_refl)
    as (e & e' & _ & _ & _ & _ & _ & _ & H).
  split; [reflexivity | exact H].
Defined.

(** X17.  [shrink (w, h)] is [shrinkWidth (w)] followed by
    [shrinkHeight (h)] whenever the pointer is left of the new right edge:
    both then store the rectangle with the new width and height and discard
    under the same (height) test. *)
Theorem shrink_as_width_then_height (i : nat) (w' h' : Z) (d : EventDispatcher) (e : EventTargetState) :
  elementStack d !! i = Some e →
  x (pointerPos d) - rx (rect e) < w' →
  match shrinkWidth i w' d with
  | Some d1 => shrinkHeight i h' d1
  | None => None
  end = shrink i w' h' d.
Proof.
  intros He Hx. unfold shrinkWidth, shrink. rewrite He. simpl.
  destruct (decide (x (pointerPos d) - rx (rect e) >= w')); [lia|].
  assert (i < length (elementStack d))%nat as Hi
    by (by eapply lookup_lt_Some).
  unfold shrinkHeight. simpl.
  rewrite list_lookup_insert_eq by exact Hi. simpl.
  rewrite list_insert_insert_eq. reflexivity.
Qed.

Lemma shrink_as_width_then_height_witness :
  let d := set_elementStack
             [mkTarget 1 (Rect 0 0 40 40) Status.HOVERED Event.NONE]
             (movePointer (Point 5 30) initial) in
  match shrinkWidth 0 10 d with
  | Some d1 => shrinkHeight 0 20 d1
  | None => None
  end = shrink 0 10 20 d.
Proof.
  cbv zeta.
  apply (shrink_as_width_then_height 0 10 20 _
           (mkTarget 1 (Rect 0 0 40 40) Status.HOVERED Event.NONE));
    [reflexivity | simpl; lia].
Defined.

End HandleOperations.

(** ** The earlier revision: buttons, focus and hover *)

Section EarlierRevision.

Import SDL Legacy.

Lemma legacy_to_Uint32_pow2 (b : Z) :
  0 <= b < 32 → to_Uint32 (Z.shiftl 1 b) = 2 ^ b.
Proof.
  intros Hb. unfold to_Uint32. rewrite Z.shiftl_1_l.
  apply Z.mod_small. split; [apply Z.pow_nonneg; lia|].
  apply Z.pow_lt_mono_r; lia.
Qed.

Lemma lor_pow2_small (a b : Z) :
  0 <= a < 32 → 0 <= b < 32 → to_Uint32 (Z.lor (2 ^ a) (2 ^ b)) = Z.lor (2 ^ a) (2 ^ b).
Proof.
  intros Ha Hb. unfold to_Uint32. apply Z.bits_inj'. intros n Hn.
  destruct (Z.lt_ge_cases n 32) as [L|G].
  - by rewrite Z.mod_pow2_bits_low.
  - rewrite Z.mod_pow2_bits_high by lia.
    rewrite Z.lor_spec, !Z.pow2_bits_false by lia. reflexivity.
Qed.

(** X18.  The earlier revision reports a button as pressed only while it is
    the one button held: after a first press from a fresh frame exactly that
    button is reported, and after a second, different button is pressed no
    button is reported at all. *)
Theorem legacy_isPointerPressed_single_button (b1 b2 b : Z) (d : EventDispatcher) :
  0 <= b1 < 32 → 0 <= b2 < 32 → 0 <= b < 32 →
  pointerPressed d = 0 → pointerReleased d = 0 →
  ∃ d1 d2,
    pressPointer b1 d = Some d1 ∧ pressPointer b2 d1 = Some d2 ∧
    isPointerPressed b d1 = Some (bool_decide (b = b1)) ∧
    (b1 ≠ b2 → isPointerPressed b d2 = Some false).
Proof.
  intros H1 H2 Hb Hp Hr. unfold pressPointer, isPointerPressed.
  destruct (decide (0 <= b1 < 32)); [|contradiction].
  destruct (decide (0 <= b2 < 32)); [|contradiction].
  destruct (decide (0 <= b < 32)); [|contradiction].
  eexists _, _. split; [reflexivity|]. split; [reflexivity|].
  cbn [pointerPressed pointerReleased set_pointerPressed].
  rewrite Hp, Hr, Z.lor_0_l. change (0 =? 0) with true.
  cbn [andb].
  pose proof (legacy_to_Uint32_pow2 b1 H1) as E1.
  pose proof (legacy_to_Uint32_pow2 b Hb) as E.
  rewrite E1, E. rewrite Z.shiftl_1_l.
  rewrite lor_pow2_small by assumption.
  split.
  - f_equal. destruct (decide (b = b1)) as [->|N].
    + rewrite bool_decide_eq_true_2 by reflexivity. apply Z.eqb_refl.
    + rewrite bool_decide_eq_false_2 by assumption.
      apply Z.eqb_neq. intros Hq. apply N. symmetry.
      apply (Z.pow_inj_r 2); lia.
  - intros Hne. f_equal. apply Z.eqb_neq. intros Hq.
    assert (Z.testbit (Z.lor (2 ^ b1) (2 ^ b2)) b1 = true) as T1.
    { rewrite Z.lor_spec, Z.pow2_bits_true by lia. reflexivity. }
    assert (Z.testbit (Z.lor (2 ^ b1) (2 ^ b2)) b2 = true) as T2.
    { rewrite Z.lor_spec, (Z.pow2_bits_true b2) by lia. apply orb_true_r. }
    rewrite Hq in T1, T2.
    destruct (decide (b = b1)) as [->|N1].
    + rewrite Z.pow2_bits_false in T2 by lia. discriminate.
    + rewrite Z.pow2_bits_false in T1 by lia. discriminate.
Qed.

Lemma legacy_isPointerPressed_single_button_witness :
  ∃ d1 d2,
    pressPointer 0 initial = Some d1 ∧ pressPointer 2 d1 = Some d2 ∧
    isPointerPressed 0 d1 = Some true ∧ isPointerPressed 0 d2 = Some false.
Proof.
  destruct (legacy_isPointerPressed_single_button 0 2 0 initial)
    as (d1 & d2 & H1 & H2 & H3 & H4);
    [lia | lia | lia | reflexivity | reflexivity |].
  exists d1, d2. split_and!; [exact H1 | exact H2 | exact H3 |].
  apply H4. lia.
Defined.

(** *** What the resolvers leave alone *)

Lemma legacy_resolved_refl (d : EventDispatcher) s ev :
  legacy_resolved d (s, ev, d).
Proof. unfold legacy_resolved. simpl. split_and!; auto. Qed.

Lemma legacy_resolved_flag d f o :
  legacy_resolved d o → legacy_resolved d (with_flag f o).
Proof. by destruct o as [[s e] d']. Qed.

Lemma legacy_resolved_grab d g o :
  legacy_resolved (set_idGrabbed g d) o → legacy_resolved d o.
Proof. done. Qed.

Lemma legacy_checkFocus_resolved req id ev d :
  legacy_resolved d (checkFocus req id ev d).
Proof.
  unfold checkFocus. repeat case_decide; unfold legacy_resolved; simpl;
    split_and!; auto.
Qed.

Lemma legacy_gainFocus_resolved req id ev d :
  legacy_resolved d (gainFocus req id ev d).
Proof.
  unfold gainFocus. case_decide; [apply legacy_checkFocus_resolved|].
  destruct (idNextFocus d) eqn:E; simpl.
  - unfold legacy_resolved. simpl. rewrite E. split_and!; auto. done.
  - apply legacy_resolved_refl.
Qed.

Lemma legacy_checkGrabOver_resolved req id ev d :
  legacy_resolved d (checkGrabOver req id ev d).
Proof.
  unfold checkGrabOver.
  repeat case_decide;
    repeat first
      [ apply legacy_resolved_flag
      | apply legacy_checkFocus_resolved
      | apply legacy_gainFocus_resolved
      | apply legacy_resolved_refl
      | apply (legacy_resolved_grab d "")
      | apply (legacy_resolved_grab d id) ].
  all: cbv zeta; repeat case_decide;
    repeat first
      [ apply legacy_resolved_flag
      | apply (legacy_resolved_grab d id); apply legacy_gainFocus_resolved
      | apply (legacy_resolved_grab d id); apply legacy_resolved_refl ].
Qed.

Lemma legacy_checkGrabOut_resolved req id ev d :
  legacy_resolved d (checkGrabOut req id ev d).
Proof.
  unfold checkGrabOut.
  repeat case_decide;
    repeat first
      [ apply legacy_resolved_flag
      | apply legacy_checkFocus_resolved ].
  all: apply (legacy_resolved_grab d ""); apply legacy_resolved_refl.
Qed.

Lemma legacy_checkHover_resolved req r id ev d :
  legacy_resolved d (checkHover req r id ev d).
Proof.
  unfold checkHover.
  destruct (hadHover d || negb (SDL_PointInRect (pointerPos d) r));
    case_decide;
    repeat first
      [ apply legacy_resolved_flag
      | apply legacy_resolved_refl
      | apply legacy_checkGrabOut_resolved
      | apply legacy_checkGrabOver_resolved ].
Qed.

(** *** The hover bit *)

Lemma legacy_hovered_bit e : legacy_hovered e = Z.testbit (status e) 0.
Proof.
  unfold legacy_hovered, STATUS_HOVERED.
  change 1 with (2 ^ 0) at 1.
  rewrite land_pow2_testbit by lia. apply negb_involutive.
Qed.

Lemma legacy_flag_bit f o :
  Z.testbit (with_flag f o).1.1 0 = Z.testbit f 0 || Z.testbit o.1.1 0.
Proof. destruct o as [[s e] d]. exact (Z.lor_spec f s 0). Qed.

Lemma legacy_checkFocus_bit req id ev d :
  Z.testbit (checkFocus req id ev d).1.1 0 = false.
Proof. unfold checkFocus. repeat case_decide; reflexivity. Qed.

Lemma legacy_gainFocus_bit req id ev d :
  Z.testbit (gainFocus req id ev d).1.1 0 = false.
Proof.
  unfold gainFocus. case_decide; [apply legacy_checkFocus_bit|].
  by destruct (Str.empty (idNextFocus d)).
Qed.

Lemma legacy_checkGrabOver_bit req id ev d :
  Z.testbit (checkGrabOver req id ev d).1.1 0 = false.
Proof.
  unfold checkGrabOver.
  repeat case_decide; cbv zeta; repeat case_decide;
    rewrite ?legacy_flag_bit, ?legacy_checkFocus_bit, ?legacy_gainFocus_bit;
    reflexivity.
Qed.

Lemma legacy_checkGrabOut_bit req id ev d :
  Z.testbit (checkGrabOut req id ev d).1.1 0 = false.
Proof.
  unfold checkGrabOut.
  repeat case_decide; cbv zeta; cbn [fst snd]; repeat case_decide;
    rewrite ?legacy_flag_bit, ?legacy_checkFocus_bit; reflexivity.
Qed.

Lemma legacy_checkHover_bit req r id ev d :
  Z.testbit (checkHover req r id ev d).1.1 0 = true →
  SDL_PointInRect (pointerPos d) r = true.
Proof.
  unfold checkHover.
  destruct (hadHover d || negb (SDL_PointInRect (pointerPos d) r)) eqn:E.
  - case_decide; [intros H'; cbn in H'; discriminate|].
    rewrite legacy_checkGrabOut_bit. discriminate.
  - intros _. apply orb_false_iff in E as [_ E]. by apply negb_false_iff in E.
Qed.

(** [check] of the earlier revision: the pushed entry, and everything it
    keeps. *)
Lemma legacy_check_shape req r id d :
  ∃ e d1,
    (check req r id d).2 = set_elementStack (elementStack d ++ [e]) d1 ∧
    legacy_resolved d (status e, event e, d1) ∧
    rect e = match last (elementStack d) with
             | Some parent => SDL_IntersectRect (rect parent) r
             | None => r
             end ∧
    (legacy_hovered e = true → SDL_PointInRect (pointerPos d) (rect e) = true).
Proof.
  unfold check.
  set (r' := match last (elementStack d) with
             | Some parent => SDL_IntersectRect (rect parent) r
             | None => r
             end).
  destruct (decide (req = RequestEvent.NONE)).
  - exists (mkTarget r' STATUS_NONE Event.NONE), d. simpl.
    split_and!; [reflexivity | apply legacy_resolved_refl | reflexivity |].
    rewrite legacy_hovered_bit. discriminate.
  - pose proof (legacy_checkHover_resolved req r' id Event.NONE d) as Hres.
    pose proof (legacy_checkHover_bit req r' id Event.NONE d) as Hbit.
    destruct (checkHover req r' id Event.NONE d) as [[s ev] d1].
    exists (mkTarget r' s ev), d1.
    assert (elementStack d1 = elementStack d) as Hst by apply Hres.
    split_and!; [cbn; by rewrite Hst | exact Hres | reflexivity |].
    rewrite legacy_hovered_bit. exact Hbit.
Qed.

(** *** Focus in the earlier revision *)

Lemma legacy_call_focus c d d' :
  call c d = Some d' → idNextFocus d ≠ "" →
  idNextFocus d' = idNextFocus d ∧
  (idFocus d' = idFocus d ∨ idFocus d' = idNextFocus d).
Proof.
  destruct c as [pos|button|button| |req r id| |index flags]; simpl;
    intros H Hn.
  - injection H as <-. auto.
  - unfold pressPointer in H. case_decide; [|discriminate].
    injection H as <-. auto.
  - unfold releasePointer in H. case_decide; [|discriminate].
    injection H as <-. auto.
  - injection H as <-. auto.
  - injection H as <-.
    destruct (legacy_check_shape req r id d)
      as (e & d1 & -> & (_ & _ & _ & Hnf & Hf) & _).
    simpl in *. auto.
  - unfold popTarget in H. destruct (last (elementStack d)); [|discriminate].
    injection H as <-. case_match; auto.
  - unfold discard in H. destruct (elementStack d !! index); [|discriminate].
    injection H as <-. auto.
Qed.

(** X19.  In the earlier revision a focus claim is final.  Once the
    next-focus id is set, no sequence of calls (triggers, [reset], [check],
    handle release, [discard]) changes it, and the focused id can only stay
    what it was or become that claimant. *)
Theorem legacy_next_focus_is_final (cs : list Call) (d d' : EventDispatcher) :
  idNextFocus d ≠ "" → run cs d = Some d' →
  idNextFocus d' = idNextFocus d ∧
  (idFocus d' = idFocus d ∨ idFocus d' = idNextFocus d).
Proof.
  revert d. induction cs as [|c cs IH]; intros d Hn H; simpl in H.
  - injection H as <-. auto.
  - destruct (call c d) as [d1|] eqn:Hc; [|discriminate].
    destruct (legacy_call_focus _ _ _ Hc Hn) as (N1 & F1).
    destruct (IH d1) as (N2 & F2); [by rewrite N1 | exact H |].
    rewrite N2, N1. split; [reflexivity|].
    destruct F2 as [F2|F2]; rewrite F2; auto.
Qed.

Lemma legacy_next_focus_is_final_witness :
  ∃ d',
    run [MovePointer (Point 5 5);
         Check RequestEvent.FOCUS (Rect 0 0 10 10) "b"; PopTarget; Reset;
         Check RequestEvent.FOCUS (Rect 0 0 10 10) "b"; PopTarget]
      (set_idNextFocus "a" initial) = Some d' ∧
    idNextFocus d' = "a" ∧ (idFocus d' = "" ∨ idFocus d' = "a").
Proof.
  eexists. split; [vm_compute; reflexivity|].
  apply (legacy_next_focus_is_final
           [MovePointer (Point 5 5);
            Check RequestEvent.FOCUS (Rect 0 0 10 10) "b"; PopTarget; Reset;
            Check RequestEvent.FOCUS (Rect 0 0 10 10) "b"; PopTarget]
           (set_idNextFocus "a" initial));
    [discriminate | vm_compute; reflexivity].
Defined.

(** *** Hover and clipping in the earlier revision *)

Lemma clipped_within_le st i j e a :
  clipped st → st !! i = Some e → st !! j = Some a → (j ≤ i)%nat →
  within (rect e) (rect a).
Proof.
  intros Hc. revert e. induction i as [|i IH]; intros e He Ha Hle.
  - assert (j = 0)%nat as -> by lia. rewrite He in Ha.
    injection Ha as <-. by intros pt.
  - destruct (decide (j = S i)) as [->|Hne].
    + rewrite He in Ha. injection Ha as <-. by intros pt.
    + destruct (st !! i) as [p|] eqn:Hp.
      * intros pt Hpt. apply (IH p eq_refl Ha); [lia|].
        by apply (Hc i p e Hp He).
      * apply lookup_ge_None in Hp. apply lookup_lt_Some in He. lia.
Qed.

Lemma legacy_call_hover_own c d d' :
  legacy_frame_call c = true → call c d = Some d' →
  (∀ i e, elementStack d !! i = Some e → legacy_hovered e = true →
          SDL_PointInRect (pointerPos d) (rect e) = true) →
  ∀ i e, elementStack d' !! i = Some e → legacy_hovered e = true →
         SDL_PointInRect (pointerPos d') (rect e) = true.
Proof.
  destruct c as [pos|button|button| |req r id| |index flags]; simpl;
    try discriminate; intros _ H Hinv i e He Hh.
  - injection H as <-.
    destruct (legacy_check_shape req r id d)
      as (e1 & d1 & Hd & (_ & Hp & _) & _ & Hin).
    rewrite Hd in He |- *. simpl in *. rewrite Hp.
    apply lookup_app_Some in He as [He|[Hl He]].
    + by eapply Hinv.
    + destruct (i - length (elementStack d))%nat; [|done].
      injection He as <-. by apply Hin.
  - unfold popTarget in H.
    destruct (last (elementStack d)) as [el|] eqn:Hl; [|discriminate].
    injection H as <-.
    assert (removelast (elementStack d) !! i = Some e) as He'.
    { destruct (negb _); exact He. }
    assert (pointerPos
              (set_elementStack
                 (removelast
                    (elementStack
                       (if negb (Z.land (status el) STATUS_HOVERED =? 0)
                        then set_hadHover true d else d)))
                 (if negb (Z.land (status el) STATUS_HOVERED =? 0)
                  then set_hadHover true d else d)) = pointerPos d) as ->.
    { by destruct (negb _). }
    apply last_Some in Hl as [st Hst]. rewrite Hst, removelast_last in He'.
    apply (Hinv i); [|exact Hh]. rewrite Hst. by apply lookup_app_l_Some.
  - unfold discard in H.
    destruct (elementStack d !! index) as [el|] eqn:Hi; [|discriminate].
    injection H as <-.
    cbn [elementStack set_elementStack pointerPos] in *.
    destruct (decide (index = i)) as [->|Hne].
    + rewrite list_lookup_insert_eq in He by (by eapply lookup_lt_Some).
      injection He as <-. cbn [rect]. apply (Hinv i el Hi).
      rewrite legacy_hovered_bit in Hh |- *. cbn [status] in Hh.
      unfold to_uint16 in Hh.
      rewrite Z.mod_pow2_bits_low, Z.land_spec in Hh by lia.
      by apply andb_true_iff in Hh as [Hh _].
    + rewrite list_lookup_insert_ne in He by assumption. by eapply Hinv.
Qed.

Lemma legacy_call_pointer c d d' :
  legacy_frame_call c = true → call c d = Some d' →
  pointerPos d' = pointerPos d.
Proof.
  destruct c as [pos|button|button| |req r id| |index flags]; simpl;
    try discriminate; intros _ H.
  - injection H as <-.
    destruct (legacy_check_shape req r id d)
      as (e1 & d1 & -> & (_ & Hp & _) & _). exact Hp.
  - unfold popTarget in H.
    destruct (last (elementStack d)); [|discriminate].
    injection H as <-. by destruct (negb _).
  - unfold discard in H.
    destruct (elementStack d !! index); [|discriminate].
    by injection H as <-.
Qed.

(** X20.  Hover respects clipping in the earlier revision.  In a frame
    that starts with an empty stack, whenever an entry on the stack is
    hovered the pointer lies inside the stored rectangle of that entry and of
    every entry below it: an element is never hovered through a part that one
    of its containers cuts off. *)
Theorem legacy_hover_inside_ancestors (cs : list Call) (d d' : EventDispatcher) :
  elementStack d = [] → forallb legacy_frame_call cs = true →
  run cs d = Some d' →
  legacy_hover_inside d'.
Proof.
  intros Hst Hcs Hrun.
  assert (clipped (elementStack d') ∧
          ∀ i e, elementStack d' !! i = Some e → legacy_hovered e = true →
                 SDL_PointInRect (pointerPos d') (rect e) = true)
    as [Hc Hown].
  { assert (clipped (elementStack d) ∧
            ∀ i e, elementStack d !! i = Some e → legacy_hovered e = true →
                   SDL_PointInRect (pointerPos d) (rect e) = true) as Hinv.
    { rewrite Hst. split; [intros i p c Hp; by rewrite lookup_nil in Hp|].
      intros i e He. by rewrite lookup_nil in He. }
    clear Hst. revert d Hinv Hrun.
    induction cs as [|c cs IH]; intros d Hinv Hrun; simpl in Hrun.
    - by injection Hrun as <-.
    - simpl in Hcs. apply andb_true_iff in Hcs as [Hc0 Hcs].
      destruct (call c d) as [d1|] eqn:Hcall; [|discriminate].
      apply (IH Hcs d1); [|exact Hrun]. destruct Hinv as [I1 I2]. split.
      + by eapply legacy_call_clipped.
      + by eapply legacy_call_hover_own. }
  intros i j e a He Ha Hle Hh.
  apply (clipped_within_le _ _ _ _ _ Hc He Ha Hle).
  by eapply Hown.
Qed.

Lemma legacy_hover_inside_ancestors_witness :
  ∃ d',
    run [Check RequestEvent.HOVER (Rect 0 0 10 10) "p";
         Check RequestEvent.HOVER (Rect 5 5 20 20) "c"]
      (movePointer (Point 7 7) initial) = Some d' ∧
    legacy_hover_inside d'.
Proof.
  eexists. split; [vm_compute; reflexivity|].
  apply (legacy_hover_inside_ancestors
           [Check RequestEvent.HOVER (Rect 0 0 10 10) "p";
            Check RequestEvent.HOVER (Rect 5 5 20 20) "c"]
           (movePointer (Point 7 7) initial));
    [reflexivity | reflexivity | vm_compute; reflexivity].
Defined.

End EarlierRevision.

(** ** Caret arithmetic over a sequence of elements *)

Section CaretArithmetic.

Import SDL Layout.

Lemma foldr_max_init (a b : Z) (l : list Z) :
  foldr Z.max (Z.max a b) l = Z.max a (foldr Z.max b l).
Proof. induction l as [|c l IH]; simpl; [reflexivity|]. rewrite IH. lia. Qed.

Lemma total_shift {A} (f : A → Z) (c : Z) (l : list A) :
  total ((λ p, f p + c) <$> l) = total (f <$> l) + c * Z.of_nat (length l).
Proof.
  unfold total. induction l as [|a l IH]; [simpl; lia|].
  cbn [fmap list_fmap foldr length]. rewrite Nat2Z.inj_succ.
  change (foldr Z.add 0 (list_fmap A Z (λ p, f p + c) l)) with
    (foldr Z.add 0 ((λ p, f p + c) <$> l)).
  change (foldr Z.add 0 (list_fmap A Z f l)) with (foldr Z.add 0 (f <$> l)).
  lia.
Qed.

Lemma largest_shift {A} (f : A → Z) (c : Z) (l : list A) :
  foldr Z.max c ((λ p, f p + c) <$> l) = largest (f <$> l) + c.
Proof.
  unfold largest. induction l as [|a l IH]; [simpl; lia|].
  cbn [fmap list_fmap foldr].
  change (foldr Z.max c (list_fmap A Z (λ p, f p + c) l)) with
    (foldr Z.max c ((λ p, f p + c) <$> l)).
  change (foldr Z.max 0 (list_fmap A Z f l)) with (foldr Z.max 0 (f <$> l)).
  rewrite IH. lia.
Qed.

Lemma total_nonneg {A} (f : A → Z) (l : list A) :
  Forall (λ p, 0 <= f p) l → 0 <= total (f <$> l).
Proof.
  unfold total. induction 1 as [|a l Ha Hl IH]; [simpl; lia|].
  cbn [fmap list_fmap foldr].
  change (foldr Z.add 0 (list_fmap A Z f l)) with (foldr Z.add 0 (f <$> l)).
  lia.
Qed.

(** Where a run of [advance] calls leaves the level. *)
Lemma advance_all_extent (ps : list SDL_Point) (t : Target) :
  locked t = false →
  ∃ t', advance_all ps t = Some t' ∧
        rect t' = rect t ∧ topLeft t' = topLeft t ∧ style t' = style t ∧
        locked t' = false ∧
        bottomRight t' =
        match layout (style t) with
        | VERTICAL =>
            Point (foldr Z.max (x (bottomRight t))
                     ((λ p, x p + x (topLeft t)) <$> ps))
                  (y (bottomRight t) +
                   total ((λ p, y p + elementSpacing (style t)) <$> ps))
        | HORIZONTAL =>
            Point (x (bottomRight t) +
                   total ((λ p, x p + elementSpacing (style t)) <$> ps))
                  (foldr Z.max (y (bottomRight t))
                     ((λ p, y p + y (topLeft t)) <$> ps))
        | NONE =>
            Point (foldr Z.max (x (bottomRight t))
                     ((λ p, x p + x (topLeft t)) <$> ps))
                  (foldr Z.max (y (bottomRight t))
                     ((λ p, y p + y (topLeft t)) <$> ps))
        end.
Proof.
  revert t. induction ps as [|p ps IH]; intros t Hl.
  - exists t. cbn [advance_all fmap list_fmap foldr total].
    split_and!; try done.
    destruct (bottomRight t) as [bx by'] eqn:E.
    destruct (layout (style t)); cbn [x y]; f_equal; lia.
  - cbn [advance_all]. unfold advance at 1. rewrite Hl.
    set (t1 := set_bottomRight _ t).
    destruct (IH t1 Hl) as (t' & Hrun & Hr & Htl & Hs & Hlk & Hbr).
    exists t'. rewrite Hrun, Hr, Htl, Hs, Hbr.
    split_and!; try done.
    subst t1. cbn [style topLeft bottomRight set_bottomRight].
    unfold total.
    destruct (layout (style t)); cbn [x y fmap list_fmap foldr];
      rewrite ?foldr_max_init; f_equal; lia.
Qed.

(** X21.  The automatic size of a level after its elements.  A level with
    no fixed size that starts empty and receives [advance] for a non-empty
    list of elements of non-negative size, with non-negative spacing, ends
    with: along the stacking axis, the sum of the element sizes plus one
    spacing between consecutive elements (none after the last); across it, and
    on both axes for the overlapping layout, the largest element size.  Its
    caret sits one spacing after the last element on the stacking axis and
    has not moved on the other axis. *)
Theorem auto_size_of_advances (ps : list SDL_Point) (t : Target) :
  locked t = false → bottomRight t = topLeft t →
  w (rect t) = 0 → h (rect t) = 0 →
  0 <= elementSpacing (style t) → ps ≠ [] →
  Forall (λ p, 0 <= x p) ps → Forall (λ p, 0 <= y p) ps →
  ∃ t', advance_all ps t = Some t' ∧
        width t' = match layout (style t) with
                   | HORIZONTAL =>
                       total (x <$> ps) +
                       elementSpacing (style t) * (Z.of_nat (length ps) - 1)
                   | _ => largest (x <$> ps)
                   end ∧
        height t' = match layout (style t) with
                    | VERTICAL =>
                        total (y <$> ps) +
                        elementSpacing (style t) * (Z.of_nat (length ps) - 1)
                    | _ => largest (y <$> ps)
                    end ∧
        getCaret t' =
        match layout (style t) with
        | VERTICAL =>
            Point (x (topLeft t))
                  (y (topLeft t) + total (y <$> ps) +
                   elementSpacing (style t) * Z.of_nat (length ps))
        | HORIZONTAL =>
            Point (x (topLeft t) + total (x <$> ps) +
                   elementSpacing (style t) * Z.of_nat (length ps))
                  (y (topLeft t))
        | NONE => topLeft t
        end.
Proof.
  intros Hl Hbr Hw Hh Hsp Hne Hx Hy.
  destruct (advance_all_extent ps t Hl) as (t' & Hrun & Hr & Htl & Hs & _ & Hb).
  exists t'. split; [exact Hrun|].
  assert (1 <= Z.of_nat (length ps)) as Hn.
  { destruct ps; [contradiction|]. simpl length. lia. }
  pose proof (total_nonneg x ps Hx) as Tx.
  pose proof (total_nonneg y ps Hy) as Ty.
  unfold width, height, getCaret. rewrite Hr, Htl, Hs, Hw, Hh, Hb, Hbr.
  rewrite !makeLen_auto.
  rewrite !total_shift, !largest_shift.
  destruct (layout (style t)) eqn:Lay; cbn [x y].
  - rewrite (bool_decide_eq_false_2 (VERTICAL = HORIZONTAL)) by discriminate.
    rewrite (bool_decide_eq_true_2 (VERTICAL = VERTICAL)) by reflexivity.
    cbn [andb]. rewrite (bool_decide_eq_true_2 (_ >= _)) by nia.
    split_and!; [lia | lia | f_equal; lia].
  - rewrite (bool_decide_eq_true_2 (HORIZONTAL = HORIZONTAL)) by reflexivity.
    rewrite (bool_decide_eq_false_2 (HORIZONTAL = VERTICAL)) by discriminate.
    cbn [andb]. rewrite (bool_decide_eq_true_2 (_ >= _)) by nia.
    split_and!; [lia | lia | f_equal; lia].
  - rewrite (bool_decide_eq_false_2 (NONE = HORIZONTAL)) by discriminate.
    rewrite (bool_decide_eq_false_2 (NONE = VERTICAL)) by discriminate.
    cbn [andb]. split_and!; [lia | lia |].
    by destruct (topLeft t).
Qed.

Lemma auto_size_of_advances_witness :
  ∃ t', advance_all [Point 20 10; Point 15 10; Point 30 5]
          (mkTargetLevel (Rect 3 4 0 0) (Point 3 4) (Point 3 4) false
             (mkStyle VERTICAL 2)) = Some t' ∧
        width t' = 30 ∧ height t' = 29 ∧ getCaret t' = Point 3 35.
Proof.
  destruct (auto_size_of_advances [Point 20 10; Point 15 10; Point 30 5]
              (mkTargetLevel (Rect 3 4 0 0) (Point 3 4) (Point 3 4) false
                 (mkStyle VERTICAL 2)))
    as (t' & H1 & H2 & H3 & H4);
    [reflexivity | reflexivity | reflexivity | reflexivity | simpl; lia
    | discriminate
    | repeat constructor; simpl; lia | repeat constructor; simpl; lia |].
  exists t'. split_and!; [exact H1 | exact H2 | exact H3 | exact H4].
Defined.

End CaretArithmetic.

(** ** Where an [ACTION] event comes from *)

Section ActionOrigin.

Import SDL Core.

Lemma checkActionCommand_origin ev d :
  (checkActionCommand ev d).1.2 = Event.ACTION →
  ev = Event.ACTION ∨ activating (nextCommand d) = true.
Proof.
  unfold checkActionCommand.
  destruct (decide (ev ≠ Event.NONE)); [by left|].
  destruct (nextCommand d); simpl; auto; discriminate.
Qed.

Lemma checkInputCommand_origin ev d :
  (checkInputCommand ev d).1.2 = Event.ACTION →
  ev = Event.ACTION ∨ activating (nextCommand d) = true.
Proof.
  unfold checkInputCommand.
  destruct (nextCommand d) eqn:C; destruct (Str.empty (inputBuffer d));
    cbv zeta; try (intros Hev; by right);
    try (simpl; discriminate);
    intros Hev; apply checkActionCommand_origin in Hev as [Hev|Hev];
    try discriminate Hev; simpl in Hev; rewrite ?C in Hev;
    try discriminate Hev; auto.
Qed.

Lemma checkFocusCommand_origin req ev d :
  (checkFocusCommand req ev d).1.2 = Event.ACTION →
  ev = Event.ACTION ∨ activating (nextCommand d) = true.
Proof.
  unfold checkFocusCommand. case_decide;
    [apply checkActionCommand_origin | apply checkInputCommand_origin].
Qed.

Lemma checkFocus_origin req ev d :
  (checkFocus req ev d).1.2 = Event.ACTION →
  ev = Event.ACTION ∨ activating (nextCommand d) = true.
Proof.
  unfold checkFocus. repeat case_decide; cbv zeta;
    rewrite ?with_flag_eq; simpl; try discriminate; auto.
  apply (checkFocusCommand_origin req ev (set_idNextFocus (idCurrent d) d)).
Qed.

Lemma gainFocus_origin req ev d :
  (gainFocus req ev d).1.2 = Event.ACTION →
  ev = Event.ACTION ∨ activating (nextCommand d) = true.
Proof.
  unfold gainFocus. case_decide; [apply checkFocus_origin|].
  cbv zeta. repeat (case_decide || case_match); simpl;
    try discriminate; auto.
Qed.

Lemma loseFocus_origin req ev d :
  (loseFocus req ev d).1.2 = Event.ACTION →
  ev = Event.ACTION ∨ activating (nextCommand d) = true.
Proof.
  unfold loseFocus. case_decide; [apply checkFocus_origin|].
  case_decide; [simpl; discriminate|].
  apply (checkFocus_origin req ev (set_idLosingFocus (idCurrent d) d)).
Qed.

Lemma checkGrabCommand_origin req ev d :
  (checkGrabCommand req ev d).1.2 = Event.ACTION →
  ev = Event.ACTION ∨ activating (nextCommand d) = true.
Proof.
  unfold checkGrabCommand. cbv zeta.
  destruct (decide (nextCommand d = Command.ESCAPE)) as [E|E];
    case_decide; intros Hev;
    first [apply checkActionCommand_origin in Hev
          | apply checkFocus_origin in Hev];
    destruct Hev as [Hev|Hev]; auto; discriminate.
Qed.

Lemma checkGrabOut_origin req ev d :
  (checkGrabOut req ev d).1.2 = Event.ACTION →
  ev = Event.ACTION ∨ activating (nextCommand d) = true.
Proof.
  unfold checkGrabOut.
  case_decide.
  { case_decide; [apply checkFocus_origin | apply loseFocus_origin]. }
  case_decide.
  { rewrite with_flag_eq. apply checkFocus_origin. }
  cbv zeta. case_decide; [simpl; discriminate|].
  case_decide; intros Hev;
    first [apply loseFocus_origin in Hev | apply checkFocus_origin in Hev];
    destruct Hev as [Hev|Hev]; auto; discriminate.
Qed.

Lemma checkGrabOver_origin req ev d :
  (checkGrabOver req ev d).1.2 = Event.ACTION →
  ev = Event.ACTION ∨ activating (nextCommand d) = true ∨
  (pointerReleased d ≠ 0 ∧ idGrabbed d = idCurrent d).
Proof.
  unfold checkGrabOver.
  case_decide.
  { case_decide; [intros _; by right; right|].
    intros Hev. apply checkFocus_origin in Hev as [Hev|Hev]; auto. }
  case_decide.
  { case_decide.
    - case_decide; [simpl; auto|].
      intros Hev. apply gainFocus_origin in Hev as [Hev|Hev]; auto.
    - case_decide.
      + rewrite with_flag_eq. intros Hev.
        apply checkGrabCommand_origin in Hev as [Hev|Hev]; auto.
      + intros Hev. apply checkFocus_origin in Hev as [Hev|Hev]; auto;
          discriminate. }
  cbv zeta. case_decide; [simpl; discriminate|].
  rewrite with_flag_eq. intros Hev.
  apply gainFocus_origin in Hev as [Hev|Hev]; auto; discriminate.
Qed.

(** X22.  An [ACTION] event has one of two origins.  Whenever [check]
    gives the new element the event [ACTION], either a button was released
    in this frame while the pointer was over the element and the element held
    the grab (a click), or one of the commands [ACTION], [ENTER], [SPACE] was
    pending (keyboard activation).  In particular an element checked with
    the [NONE] or [HOVER] tier never gets [ACTION]. *)
Theorem action_event_origin
    (req : RequestEvent.t) (r : SDL_Rect) (id : string) (d d' : EventDispatcher)
    (i : nat) (e : EventTargetState) :
  check req r id d = Some (i, d') → last (elementStack d') = Some e →
  event e = Event.ACTION →
  req ≠ RequestEvent.NONE ∧ req ≠ RequestEvent.HOVER ∧
  ((hoverable r d = true ∧ pointerReleased d ≠ 0 ∧
    idGrabbed d = qualified id d) ∨
   activating (nextCommand d) = true).
Proof.
  intros Hev Hl He. unfold check in Hev.
  set (d0 := set_idCurrent (qualified id d) d) in *.
  assert (match elementStack d with
          | [] => set_idCurrent id d
          | _ :: _ =>
              set_idCurrent
                (idCurrent d +:+ String groupNameSeparator "" +:+ id) d
          end = d0) as E0.
  { unfold d0, qualified. by destruct (elementStack d). }
  rewrite E0 in Hev. clear E0.
  destruct (decide (req = RequestEvent.NONE)).
  { injection Hev as <- <-. simpl in Hl. rewrite last_snoc in Hl.
    injection Hl as <-. discriminate He. }
  destruct (decide (id = "" ∧ req ≠ RequestEvent.HOVER)); [discriminate|].
  destruct (checkHover req r Event.NONE d0) as [[s ev] d1] eqn:Hc.
  injection Hev as <- <-. simpl in Hl. rewrite last_snoc in Hl.
  injection Hl as <-. simpl in He. subst ev.
  split; [assumption|].
  unfold checkHover in Hc. change (hoverable r d0) with (hoverable r d) in Hc.
  destruct (hoverable r d); simpl in Hc.
  - destruct (decide (req = RequestEvent.HOVER)); [discriminate Hc|].
    split; [assumption|].
    pose proof (checkGrabOver_origin req Event.NONE d0) as Ho.
    rewrite with_flag_eq in Hc.
    destruct (checkGrabOver req Event.NONE d0) as [[s' ev'] d'].
    injection Hc as <- -> <-.
    destruct (Ho eq_refl) as [Ho'|[Ho'|[R G]]];
      [discriminate | by right | left; done].
  - destruct (decide (req = RequestEvent.HOVER)); [discriminate Hc|].
    split; [assumption|].
    pose proof (checkGrabOut_origin req Event.NONE d0) as Ho.
    rewrite Hc in Ho. destruct (Ho eq_refl) as [Ho'|Ho'];
      [discriminate | by right].
Qed.

Lemma action_event_origin_witness :
  let d := set_pointerReleased 1
             (movePointer (Point 5 5) (set_idGrabbed "btn" initial)) in
  ∃ d' e,
    check RequestEvent.GRAB (Rect 0 0 10 10) "btn" d = Some (0%nat, d') ∧
    last (elementStack d') = Some e ∧ event e = Event.ACTION ∧
    hoverable (Rect 0 0 10 10) d = true ∧ pointerReleased d ≠ 0 ∧
    idGrabbed d = "btn".
Proof.
  cbv zeta. eexists _, _.
  split; [vm_compute; reflexivity|]. split; [reflexivity|].
  split; [reflexivity|].
  destruct (action_event_origin RequestEvent.GRAB (Rect 0 0 10 10) "btn"
              (set_pointerReleased 1
                 (movePointer (Point 5 5) (set_idGrabbed "btn" initial)))
              _ _ _ eq_refl eq_refl eq_refl)
    as (_ & _ & [Hev|Hev]); [exact Hev | discriminate Hev].
Defined.

End ActionOrigin.

(** ** Well-nested frames *)

Section NestedFrames.

Import SDL Core.

Lemma run_at_app p (cs1 cs2 : list Call) (d : EventDispatcher) :
  run_at p (cs1 ++ cs2) d =
  match run_at p cs1 d with
  | Some d1 => run_at p cs2 d1
  | None => None
  end.
Proof.
  revert d. induction cs1 as [|c cs1 IH]; intros d; simpl; [reflexivity|].
  destruct (call_at p c d); [apply IH | reflexivity].
Qed.

Lemma check_succeeds req r id d :
  (id = "" → req = RequestEvent.NONE ∨ req = RequestEvent.HOVER) →
  ∃ d', check req r id d = Some (length (elementStack d), d').
Proof.
  intros Hid. unfold check.
  set (d0 := match elementStack d with
             | [] => set_idCurrent id d
             | _ :: _ =>
                 set_idCurrent
                   (idCurrent d +:+ String groupNameSeparator "" +:+ id) d
             end).
  assert (elementStack d0 = elementStack d) as E0
    by (unfold d0; destruct (elementStack d) eqn:E; simpl; by rewrite ?E).
  destruct (decide (req = RequestEvent.NONE)).
  { eexists. simpl. rewrite E0, length_app. simpl.
    replace (length (elementStack d) + 1 - 1)%nat
      with (length (elementStack d)) by lia. reflexivity. }
  destruct (decide (id = "" ∧ req ≠ RequestEvent.HOVER)) as [[Hi Hr]|_].
  { destruct (Hid Hi); contradiction. }
  pose proof (checkHover_stable req r Event.NONE d0) as (Hst & _).
  destruct (checkHover req r Event.NONE d0) as [[s e] d1]. simpl in Hst.
  eexists. simpl. rewrite Hst, E0, length_app. simpl.
  replace (length (elementStack d) + 1 - 1)%nat
    with (length (elementStack d)) by lia. reflexivity.
Qed.

Lemma qualified_peel id d :
  elementStack d ≠ [] →
  (String.length id + 1 ≤ String.length (qualified id d))%nat ∧
  (idCurrent d ≠ "" →
   String.length id + 1 < String.length (qualified id d))%nat ∧
  Str.resize (String.length (qualified id d) - (String.length id + 1))
    (qualified id d) = idCurrent d.
Proof.
  intros Hne. unfold qualified.
  destruct (elementStack d) as [|a st]; [contradiction|].
  rewrite !length_append. simpl String.length.
  split_and!; [lia | |].
  - intros Hc. destruct (idCurrent d); [contradiction|]. simpl. lia.
  - replace (_ - _)%nat with (String.length (idCurrent d)) by lia.
    apply resize_append.
Qed.

Lemma at_place_qualified path id d :
  at_place path d → qualified id d = extend path id.
Proof.
  unfold at_place, qualified, extend. destruct path as [q|].
  - intros [Hne ->]. by destruct (elementStack d).
  - by intros ->.
Qed.

Lemma nested_run (p : bool) (path : option string) (cs : list Call) :
  nested p path cs →
  ∀ d, at_place path d →
    ∃ d',
      run_at p cs d = Some d' ∧
      idLength <$> elementStack d' = idLength <$> elementStack d ∧
      (elementStack d ≠ [] → idCurrent d' = idCurrent d) ∧
      (elementStack d = [] → idCurrent d = "" → idCurrent d' = "").
Proof.
  induction 1 as [path|path q cs Hcs IH
                 |path req r id body cs Hpath Hid Hbody IHb Hcs IHc];
    intros d Hat.
  - exists d. simpl. auto.
  - simpl.
    assert (elementStack (tryFocus q d).2 = elementStack d ∧
            idCurrent (tryFocus q d).2 = idCurrent d) as [E1 E2].
    { unfold tryFocus. repeat case_decide; done. }
    destruct (IH (tryFocus q d).2) as (d' & Hr & Hl & Hc1 & Hc2).
    { unfold at_place in *. destruct path; by rewrite E1, ?E2. }
    exists d'. rewrite Hr, Hl, E1. split_and!; try done.
    + intros Hne. rewrite Hc1, E2; [done | by rewrite E1].
    + intros He Hc. apply Hc2; [by rewrite E1 | by rewrite E2].
  - simpl.
    destruct (check_succeeds req r id d Hid) as (d1 & Hchk). rewrite Hchk.
    cbn [fmap option_fmap option_map snd].
    destruct (check_shape _ _ _ _ _ _ Hchk)
      as (_ & (_ & Hcur1 & _) & e & Hst1 & Hlen1 & _).
    simpl in Hcur1.
    rewrite run_at_app.
    assert (elementStack d1 ≠ []) as Hne1.
    { rewrite Hst1. intros E. by apply app_eq_nil in E as [_ E]. }
    destruct (IHb d1) as (d2 & Hr2 & Hl2 & Hc2 & _).
    { split; [exact Hne1|]. rewrite Hcur1. by apply at_place_qualified. }
    rewrite Hr2.
    specialize (Hc2 Hne1). rewrite Hcur1 in Hc2.
    rewrite Hst1, fmap_app in Hl2. simpl in Hl2. rewrite Hlen1 in Hl2.
    destruct (elementStack d2) as [|e2 st2 _] eqn:Hd2 using rev_ind.
    { symmetry in Hl2. by apply app_eq_nil in Hl2 as [_ Hl2]. }
    rewrite fmap_app in Hl2. simpl in Hl2.
    apply app_inj_tail in Hl2 as [Hl2 He2].
    assert (st2 ≠ [] ↔ elementStack d ≠ []) as Hiff.
    { split; intros Hn E; apply Hn.
      - rewrite E in Hl2. by apply fmap_nil_inv in Hl2.
      - rewrite E in Hl2. simpl in Hl2. symmetry in Hl2.
        by apply fmap_nil_inv in Hl2. }
    assert (p = true → elementStack d ≠ [] → idCurrent d ≠ "") as Hroot.
    { intros Hp Hne. unfold at_place in Hat. destruct path as [q|].
      - destruct Hat as [_ ->]. intros ->. by apply Hpath.
      - contradiction. }
    destruct (popTarget_succeeds d2 st2 e2 Hd2) as (d3 & Hpop).
    { intros Hn. rewrite He2, Hc2. apply qualified_peel. by apply Hiff. }
    assert (call_at p PopTarget d2 = Some d3) as Hpop'.
    { destruct p; [|exact Hpop]. simpl.
      rewrite (popTarget_paranoid_eq d2 st2 e2 Hd2), Hpop.
      apply decide_False. intros [Hn Hle].
      apply Hiff in Hn.
      destruct (qualified_peel id d Hn) as (_ & Hlt & _).
      specialize (Hlt (Hroot eq_refl Hn)).
      rewrite He2, Hc2 in Hle. lia. }
    cbn [run_at]. rewrite Hpop'.
    destruct (popTarget_shape _ _ Hpop)
      as (st & el & Hst & Hlen3 & Hent & _ & _ & Hcur3 & _).
    rewrite Hd2 in Hst. apply app_inj_tail in Hst as [<- <-].
    assert (idLength <$> elementStack d3 = idLength <$> st2) as Hl3.
    { apply list_eq. intros k. rewrite !list_lookup_fmap.
      destruct (elementStack d3 !! k) as [e'|] eqn:Hk.
      - destruct (Hent k e' Hk) as (e0 & Hk0 & _ & Hid0 & _).
        rewrite Hk0. simpl. by rewrite Hid0.
      - apply lookup_ge_None in Hk. rewrite Hlen3 in Hk.
        apply lookup_ge_None in Hk. by rewrite Hk. }
    assert (elementStack d3 ≠ [] ↔ elementStack d ≠ []) as Hiff3.
    { rewrite <- Hiff. split; intros Hn E; apply Hn.
      - rewrite E in Hl3. simpl in Hl3. by apply fmap_nil_inv in Hl3.
      - rewrite E in Hl3. simpl in Hl3. symmetry in Hl3.
        by apply fmap_nil_inv in Hl3. }
    assert (elementStack d ≠ [] → idCurrent d3 = idCurrent d) as Hback.
    { intros Hne. rewrite Hcur3.
      destruct st2 as [|a st2']; [by apply Hiff in Hne|].
      rewrite He2, Hc2. by apply qualified_peel. }
    destruct (IHc d3) as (d4 & Hr4 & Hl4 & Hc4a & Hc4b).
    { unfold at_place in *. destruct path as [q|].
      - destruct Hat as [Hne Hq]. split; [by apply Hiff3|].
        by rewrite Hback.
      - destruct (elementStack d3) eqn:E3; [reflexivity|].
        exfalso. by apply (proj1 Hiff3). }
    exists d4. rewrite Hr4, Hl4, Hl3, Hl2.
    split_and!; try done.
    + intros Hne. rewrite Hc4a; [by apply Hback | by apply Hiff3].
    + intros He _.
      assert (st2 = []) as ->.
      { destruct st2; [done|]. exfalso. by apply (proj1 Hiff). }
      apply Hc4b; [|exact Hcur3].
      simpl in Hl3. by apply fmap_nil_inv in Hl3.
Qed.

(** X23.  A well-nested frame always runs through.  From an empty stack
    and an empty accumulated id, any well-nested sequence of [check],
    [popTarget] and [tryFocus] calls in which elements above the [HOVER]
    tier have non-empty ids runs without tripping an assertion, whatever the
    pointer, focus and command state; at assertion level 3 this holds when
    in addition a top-level element with an empty id has no elements inside.
    The run ends with the stack and the accumulated id empty again, so
    [reset] succeeds and leaves the dispatcher ready for the next frame. *)
Theorem nested_frame_runs (paranoid : bool) (cs : list Call)
    (d : EventDispatcher) :
  nested paranoid None cs → elementStack d = [] → idCurrent d = "" →
  ∃ d' r, run_at paranoid cs d = Some d' ∧ run cs d = Some d' ∧
          elementStack d' = [] ∧ idCurrent d' = "" ∧
          reset d' = Some r ∧ elementStack r = [] ∧ idCurrent r = "".
Proof.
  intros Hn Hst Hc.
  destruct (nested_run paranoid None cs Hn d Hst) as (d' & Hr & Hl & _ & Hcur).
  rewrite Hst in Hl. simpl in Hl. apply fmap_nil_inv in Hl.
  specialize (Hcur Hst Hc).
  exists d'. eexists. split; [exact Hr|].
  split; [exact (run_at_Some _ _ _ _ Hr)|]. split; [exact Hl|].
  split; [exact Hcur|]. rewrite (reset_eq d' Hl).
  split; [reflexivity|]. simpl. auto.
Qed.

Lemma nested_frame_runs_witness :
  ∃ d' r,
    run_at true
        [Check RequestEvent.NONE (Rect 0 0 80 8) ""; PopTarget;
         Check RequestEvent.HOVER (Rect 0 0 50 50) "win";
         Check RequestEvent.GRAB (Rect 5 5 10 10) "ok";
         PopTarget; TryFocus "win/name";
         Check RequestEvent.INPUT (Rect 5 20 30 10) "name";
         Check RequestEvent.NONE (Rect 0 0 8 8) ""; PopTarget;
         PopTarget; PopTarget]
      (set_pointerPressed 1 (movePointer (Point 7 7) initial)) = Some d' ∧
    run [Check RequestEvent.NONE (Rect 0 0 80 8) ""; PopTarget;
         Check RequestEvent.HOVER (Rect 0 0 50 50) "win";
         Check RequestEvent.GRAB (Rect 5 5 10 10) "ok";
         PopTarget; TryFocus "win/name";
         Check RequestEvent.INPUT (Rect 5 20 30 10) "name";
         Check RequestEvent.NONE (Rect 0 0 8 8) ""; PopTarget;
         PopTarget; PopTarget]
      (set_pointerPressed 1 (movePointer (Point 7 7) initial)) = Some d' ∧
    elementStack d' = [] ∧ idCurrent d' = "" ∧
    reset d' = Some r ∧ elementStack r = [] ∧ idCurrent r = "".
Proof.
  apply nested_frame_runs; [|reflexivity|reflexivity].
  apply (nested_element true None _ _ _ []);
    [discriminate | by left | constructor |].
  apply (nested_element true None _ _ _
           [Check RequestEvent.GRAB (Rect 5 5 10 10) "ok";
            PopTarget; TryFocus "win/name";
            Check RequestEvent.INPUT (Rect 5 20 30 10) "name";
            Check RequestEvent.NONE (Rect 0 0 8 8) ""; PopTarget;
            PopTarget] []);
    [discriminate | discriminate | | constructor].
  apply (nested_element true (Some "win") _ _ _ []
           [TryFocus "win/name";
            Check RequestEvent.INPUT (Rect 5 20 30 10) "name";
            Check RequestEvent.NONE (Rect 0 0 8 8) ""; PopTarget;
            PopTarget]);
    [discriminate | discriminate | constructor |].
  apply nested_focus.
  apply (nested_element true (Some "win") _ _ _
           [Check RequestEvent.NONE (Rect 0 0 8 8) ""; PopTarget] []);
    [discriminate | discriminate | | constructor].
  apply (nested_element true (Some "win/name") _ _ _ [] []);
    [discriminate | by left | constructor | constructor].
Defined.

End NestedFrames.

(** ** The passive tiers *)

Section PassiveTiers.

Import SDL Core.

(** X24.  The [NONE] and [HOVER] tiers are inert.  A check with one of
    them always succeeds, also with an empty id; the pushed entry has the
    event [NONE] and no flag other than [HOVERED] (which the [NONE] tier
    never gets); and apart from the stack and the accumulated id the
    dispatcher is unchanged: no grab, no focus, no claim is taken or lost. *)
Theorem passive_tiers_are_inert
    (req : RequestEvent.t) (r : SDL_Rect) (id : string) (d : EventDispatcher) :
  req = RequestEvent.NONE ∨ req = RequestEvent.HOVER →
  ∃ e,
    check req r id d =
    Some (length (elementStack d),
          set_elementStack (elementStack d ++ [e])
            (set_idCurrent (qualified id d) d)) ∧
    idLength e = String.length id ∧ rect e = r ∧ event e = Event.NONE ∧
    status e = if decide (req = RequestEvent.HOVER)
               then (if hoverable r d then Status.HOVERED else Status.NONE)
               else Status.NONE.
Proof.
  intros Hreq. unfold check.
  set (d0 := set_idCurrent (qualified id d) d).
  assert (match elementStack d with
          | [] => set_idCurrent id d
          | _ :: _ =>
              set_idCurrent
                (idCurrent d +:+ String groupNameSeparator "" +:+ id) d
          end = d0) as ->.
  { unfold d0, qualified. by destruct (elementStack d). }
  destruct Hreq as [-> | ->].
  - destruct (decide (RequestEvent.NONE = RequestEvent.NONE)); [|done].
    eexists. split.
    + cbn [elementStack d0 set_idCurrent]. rewrite length_app. simpl length.
      replace (length (elementStack d) + 1 - 1)%nat
        with (length (elementStack d)) by lia.
      reflexivity.
    + split_and!; try reflexivity.
  - destruct (decide (RequestEvent.HOVER = RequestEvent.NONE)); [done|].
    destruct (decide (id = "" ∧ RequestEvent.HOVER ≠ RequestEvent.HOVER))
      as [[_ N]|_]; [done|].
    unfold checkHover. change (hoverable r d0) with (hoverable r d).
    destruct (hoverable r d); simpl negb; cbn match.
    + destruct (decide (RequestEvent.HOVER = RequestEvent.HOVER)); [|done].
      eexists. split.
      * cbn [elementStack d0 set_idCurrent]. rewrite length_app. simpl length.
        replace (length (elementStack d) + 1 - 1)%nat
          with (length (elementStack d)) by lia.
        reflexivity.
      * split_and!; try reflexivity.
    + destruct (decide (RequestEvent.HOVER = RequestEvent.HOVER)); [|done].
      eexists. split.
      * cbn [elementStack d0 set_idCurrent]. rewrite length_app. simpl length.
        replace (length (elementStack d) + 1 - 1)%nat
          with (length (elementStack d)) by lia.
        reflexivity.
      * split_and!; try reflexivity.
Qed.

Lemma passive_tiers_are_inert_witness :
  ∃ e,
    check RequestEvent.HOVER (Rect 0 0 10 10) ""
      (set_pointerPressed 1 (movePointer (Point 5 5) initial)) =
    Some (0%nat,
          set_elementStack [e]
            (set_pointerPressed 1 (movePointer (Point 5 5) initial))) ∧
    event e = Event.NONE ∧ status e = Status.HOVERED.
Proof.
  destruct (passive_tiers_are_inert RequestEvent.HOVER (Rect 0 0 10 10) ""
              (set_pointerPressed 1 (movePointer (Point 5 5) initial)))
    as (e & H1 & _ & _ & H2 & H3); [by right|].
  exists e. split_and!; [exact H1 | exact H2 | exact H3].
Defined.

End PassiveTiers.

(** ** Clicks in the earlier revision *)

Section EarlierClicks.

Import SDL Legacy.

Lemma legacy_checkFocus_event req id ev d :
  (checkFocus req id ev d).1.2 = Event.ACTION →
  ev = Event.ACTION ∧ idGrabbed (checkFocus req id ev d).2 = idGrabbed d.
Proof.
  unfold checkFocus. repeat case_decide; cbn [fst snd]; try discriminate;
    auto.
Qed.

Lemma legacy_gainFocus_event req id ev d :
  (gainFocus req id ev d).1.2 = Event.ACTION → ev = Event.ACTION.
Proof.
  unfold gainFocus. case_decide.
  - intros Hev. by apply legacy_checkFocus_event in Hev as [Hev _].
  - by destruct (Str.empty (idNextFocus d)).
Qed.

Lemma legacy_checkGrabOut_event req id ev d :
  (checkGrabOut req id ev d).1.2 = Event.ACTION → ev = Event.ACTION.
Proof.
  unfold checkGrabOut. repeat case_decide; cbv zeta;
    rewrite ?legacy_with_flag_eq; cbn [fst snd]; try discriminate;
    intros Hev; by apply legacy_checkFocus_event in Hev as [Hev _].
Qed.

Lemma legacy_checkGrabOver_event req id ev d :
  (checkGrabOver req id ev d).1.2 = Event.ACTION →
  ev = Event.ACTION ∨
  (pointerReleased d ≠ 0 ∧ idGrabbed d = id ∧
   idGrabbed (checkGrabOver req id ev d).2 = "").
Proof.
  unfold checkGrabOver.
  case_decide.
  { case_decide.
    - intros Hev. right. apply legacy_checkFocus_event in Hev as [_ Hg].
      split_and!; [assumption | assumption |]. by rewrite Hg.
    - intros Hev. left. by apply legacy_checkFocus_event in Hev as [Hev _]. }
  case_decide.
  { case_decide.
    - case_decide; [cbn [fst snd]; auto|].
      intros Hev. left. by apply legacy_gainFocus_event in Hev.
    - case_decide.
      + rewrite legacy_with_flag_eq. intros Hev. left.
        by apply legacy_checkFocus_event in Hev as [Hev _].
      + intros Hev. apply legacy_checkFocus_event in Hev as [Hev _].
        discriminate Hev. }
  cbv zeta. case_decide; [cbn [fst snd]; discriminate|].
  rewrite legacy_with_flag_eq. intros Hev.
  apply legacy_gainFocus_event in Hev. discriminate Hev.
Qed.

(** X25.  In the earlier revision [ACTION] is a click and nothing else.
    When [check] gives the new entry the event [ACTION], the request is above
    [HOVER], no element was hovered before it in the frame, the pointer lies
    inside the stored rectangle (the argument clipped by the parent), a
    button was released in this frame, the element held the grab, and the
    grab is released by the check. *)
Theorem legacy_action_is_click
    (req : RequestEvent.t) (r : SDL_Rect) (id : string) (d : EventDispatcher)
    (e : EventTargetState) :
  last (elementStack (check req r id d).2) = Some e →
  event e = Event.ACTION →
  req ≠ RequestEvent.NONE ∧ req ≠ RequestEvent.HOVER ∧
  hadHover d = false ∧ SDL_PointInRect (pointerPos d) (rect e) = true ∧
  pointerReleased d ≠ 0 ∧ idGrabbed d = id ∧
  idGrabbed (check req r id d).2 = "".
Proof.
  unfold check.
  set (r' := match last (elementStack d) with
             | Some parent => SDL_IntersectRect (rect parent) r
             | None => r
             end).
  destruct (decide (req = RequestEvent.NONE)).
  { cbn [snd elementStack set_elementStack]. rewrite last_snoc.
    intros [= <-]. discriminate. }
  destruct (checkHover req r' id Event.NONE d) as [[s ev] d1] eqn:Hc.
  cbn [snd elementStack set_elementStack idGrabbed]. rewrite last_snoc.
  intros [= <-]. cbn [event rect]. intros ->.
  split; [assumption|].
  unfold checkHover in Hc.
  destruct (hadHover d) eqn:Hh; cbn [orb] in Hc.
  { destruct (decide (req = RequestEvent.HOVER)); [discriminate Hc|].
    pose proof (legacy_checkGrabOut_event req id Event.NONE d) as Ho.
    rewrite Hc in Ho. discriminate (Ho eq_refl). }
  destruct (SDL_PointInRect (pointerPos d) r') eqn:Hp; cbn [negb] in Hc.
  - destruct (decide (req = RequestEvent.HOVER)); [discriminate Hc|].
    rewrite legacy_with_flag_eq in Hc.
    pose proof (legacy_checkGrabOver_event req id Event.NONE d) as Ho.
    destruct (checkGrabOver req id Event.NONE d) as [[s' ev'] d'].
    injection Hc as <- -> <-.
    destruct (Ho eq_refl) as [Ho'|(R & G & G')]; [discriminate Ho'|].
    split_and!; done.
  - destruct (decide (req = RequestEvent.HOVER)); [discriminate Hc|].
    pose proof (legacy_checkGrabOut_event req id Event.NONE d) as Ho.
    rewrite Hc in Ho. discriminate (Ho eq_refl).
Qed.

Lemma legacy_action_is_click_witness :
  let d := set_pointerReleased 1
             (movePointer (Point 5 5) (set_idGrabbed "btn" initial)) in
  ∃ e, last (elementStack
               (check RequestEvent.ACTION (Rect 0 0 10 10) "btn" d).2) = Some e ∧
       event e = Event.ACTION ∧
       SDL_PointInRect (pointerPos d) (rect e) = true ∧
       idGrabbed (check RequestEvent.ACTION (Rect 0 0 10 10) "btn" d).2 = "".
Proof.
  cbv zeta. eexists. split; [vm_compute; reflexivity|].
  split; [reflexivity|].
  destruct (legacy_action_is_click RequestEvent.ACTION (Rect 0 0 10 10) "btn"
              (set_pointerReleased 1
                 (movePointer (Point 5 5) (set_idGrabbed "btn" initial)))
              _ eq_refl eq_refl)
    as (_ & _ & _ & H1 & _ & _ & H2).
  split; [exact H1 | exact H2].
Defined.

End EarlierClicks.
